(** * LanTube: a shallow embedding of the indexing pipeline and of the
      range-streaming route, with the properties stated in the specification.

    Source files embedded here:
    - [lib/path-utils.ts]   ([resolveSafePath])
    - [lib/db.ts]           ([initDb], two revisions) and the [initDb] of the
                            batch tool [build-thumbs]
    - [lib/video-index.ts]  ([buildIndex], [indexSingle], [probeDuration],
                            [makeThumbnail], [clampTime]) together with the
                            batch tool, which repeats the same functions
    - [app/api/video/route.ts] ([GET]) and [app/api/thumb/route.ts] ([GET])

    Conventions.  JavaScript numbers are IEEE-754 doubles.  The numbers of
    the routes (byte offsets parsed from a header, file sizes) are [Js.Num]:
    [NaN], an infinity, or a double of integral value held by that value, with
    the rounding of [Number.parseInt] and of the arithmetic written out.
    Epoch milliseconds are [Z], exact below 2^53.  Durations and timestamps in
    seconds are canonical rationals [Qc]: the exact value of a finite double;
    an arithmetic operation of the source on them is the exact operation
    followed by [VideoIndex.double], the rounding to the nearest double.
    Strings are byte strings.  [node:path] is modelled for POSIX. *)

From Stdlib Require Import ZArith QArith Qcanon Qround Ascii String Lia Floats.
From stdpp Require Import base decidable option list strings pretty gmap.

Local Open Scope Z_scope.

(** ** JavaScript string and number primitives used by the sources *)

Module Js.

(** [s.startsWith(p)], returning the remainder after the prefix. *)
Fixpoint strip_prefix (p s : string) : option string :=
  match p, s with
  | EmptyString, _ => Some s
  | String a p', String b s' => if decide (a = b) then strip_prefix p' s' else None
  | String _ _, EmptyString => None
  end.

Definition startsWith (s p : string) : bool :=
  if strip_prefix p s is Some _ then true else false.

(** [s.replace(/pat/, rep)] for a pattern that is a plain non-empty literal:
    the first occurrence only. *)
Fixpoint replaceFirst (pat rep s : string) : string :=
  match strip_prefix pat s with
  | Some rest => rep +:+ rest
  | None =>
      match s with
      | EmptyString => EmptyString
      | String c r => String c (replaceFirst pat rep r)
      end
  end.

(** [s.split(sep)] for a one-character separator: never the empty list. *)
Fixpoint split (sep : ascii) (s : string) : list string :=
  match s with
  | EmptyString => [EmptyString]
  | String c r =>
      if decide (c = sep) then EmptyString :: split sep r
      else match split sep r with
           | h :: t => String c h :: t
           | [] => [String c EmptyString]
           end
  end.

(** [parts.join(sep)]. *)
Fixpoint join (sep : string) (parts : list string) : string :=
  match parts with
  | [] => EmptyString
  | [p] => p
  | p :: rest => p +:+ sep +:+ join sep rest
  end.

Definition digit (c : ascii) : option Z := Z.of_nat <$> Ascii.is_nat c.

(** The longest prefix of decimal digits, read left to right; [acc] is [None]
    until the first digit has been seen. *)
Fixpoint parseDigits (acc : option Z) (s : string) : option Z :=
  match s with
  | EmptyString => acc
  | String c r =>
      match digit c with
      | Some d => parseDigits (Some (from_option (λ a, 10 * a) 0 acc + d)) r
      | None => acc
      end
  end.

Fixpoint skipSpace (s : string) : string :=
  match s with
  | String c r => if Ascii.is_space c then skipSpace r else s
  | EmptyString => EmptyString
  end.

(** *** Numbers of integral value

    [NaN], an infinity, or a double whose value is an integer: [Fin z] holds
    the exact value [z] of the double. *)
Inductive Num :=
  | NaN
  | Inf (negative : bool)
  | Fin (z : Z).

Global Instance Num_eq_dec : EqDecision Num.
Proof. solve_decision. Defined.

Definition MAX_SAFE_INTEGER : Z := 2 ^ 53 - 1.

(** The double nearest to a natural number [n]: [n] itself below 2^53;
    above, the multiple of the unit in the last place [2^e] nearest to [n],
    the one with the even significand on a tie, and [Infinity] past the
    largest double. *)
Definition roundNat (n : Z) : Num :=
  if bool_decide (n < 2 ^ 53) then Fin n
  else
    let e := Z.log2 n - 52 in
    let q := n / 2 ^ e in
    let r := n mod 2 ^ e in
    let half := 2 ^ (e - 1) in
    let q' := if bool_decide (half < r) || (bool_decide (r = half) && Z.odd q)
              then q + 1 else q in
    if bool_decide (q' * 2 ^ e < 2 ^ 1024) then Fin (q' * 2 ^ e) else Inf false.

Definition neg (a : Num) : Num :=
  match a with
  | NaN => NaN
  | Inf s => Inf (negb s)
  | Fin z => Fin (- z)
  end.

(** The double nearest to an integer. *)
Definition roundInt (n : Z) : Num :=
  if bool_decide (n < 0) then neg (roundNat (- n)) else roundNat n.

(** [a + b] and [a - b] on doubles of integral value: the exact result,
    rounded. *)
Definition add (a b : Num) : Num :=
  match a, b with
  | NaN, _ | _, NaN => NaN
  | Fin x, Fin y => roundInt (x + y)
  | Inf s, Inf t => if bool_decide (s = t) then Inf s else NaN
  | Inf s, Fin _ | Fin _, Inf s => Inf s
  end.

Definition sub (a b : Num) : Num := add a (neg b).

(** [a < b] and [a >= b]: false as soon as one side is [NaN]. *)
Definition lt (a b : Num) : bool :=
  match a, b with
  | Fin x, Fin y => bool_decide (x < y)
  | Inf true, Fin _ | Inf true, Inf false | Fin _, Inf false => true
  | _, _ => false
  end.

Definition ge (a b : Num) : bool :=
  match a, b with
  | NaN, _ | _, NaN => false
  | _, _ => negb (lt a b)
  end.

Definition isNaN (a : Num) : bool :=
  match a with NaN => true | _ => false end.

(** [Number.parseInt(s, 10)]: leading white space, an optional sign, then the
    longest run of digits, read as the nearest double; [NaN] without a
    digit. *)
Definition parseInt (s : string) : Num :=
  match skipSpace s with
  | String "-"%char r => from_option (λ n, neg (roundInt n)) NaN (parseDigits None r)
  | String "+"%char r => from_option roundInt NaN (parseDigits None r)
  | r => from_option roundInt NaN (parseDigits None r)
  end.

(** The digits of a double [v] above 2^53 (an integer): the fewest digits [s]
    such that [s * 10^p] reads back as [v], the candidate closest to [v] when
    there are two, the even one on a tie.  [shortestAt v len k] looks for
    such an [s] of [k] digits, [len] being the number of digits of [v]. *)
Definition shortestAt (v : Z) (len k : nat) : option (Z * nat) :=
  let p := (len - k)%nat in
  let unit := 10 ^ Z.of_nat p in
  let s0 := v / unit in
  let reads (s : Z) := bool_decide (roundNat (s * unit) = Fin v) in
  match reads s0, reads (s0 + 1) with
  | true, false => Some (s0, p)
  | false, true => Some (s0 + 1, p)
  | true, true =>
      let below := v - s0 * unit in
      let above := (s0 + 1) * unit - v in
      if bool_decide (below < above) then Some (s0, p)
      else if bool_decide (above < below) then Some (s0 + 1, p)
      else if Z.even s0 then Some (s0, p) else Some (s0 + 1, p)
  | false, false => None
  end.

Definition shortest (v : Z) : Z * nat :=
  let len := String.length (pretty v) in
  default (v, O) (head (omap (shortestAt v len) (seq 1 len))).

Fixpoint stripZeros (fuel : nat) (s : Z) (p : nat) : Z * nat :=
  match fuel with
  | O => (s, p)
  | S fuel' =>
      if bool_decide (s mod 10 = 0 ∧ s ≠ 0) then stripZeros fuel' (s / 10) (S p)
      else (s, p)
  end.

(** [Number::toString] on a natural number that is a double.  Up to 2^53
    the shortest digits are the digits of the number.  Above, the shortest
    digits are followed by zeros while the number has at most 21 digits, and
    written as [d.ddde+x] from 10^21 on. *)
Definition digitsOf (v : Z) : string :=
  if bool_decide (v ≤ 2 ^ 53) then pretty v
  else
    let '(s0, p0) := shortest v in
    let '(s, p) := stripZeros (String.length (pretty s0)) s0 p0 in
    let digits := pretty s in
    let n := (String.length digits + p)%nat in
    if bool_decide (n ≤ 21)%nat then
      digits +:+ string_of_list_ascii (replicate p "0"%char)
    else
      match digits with
      | String d EmptyString => String d ("e+" +:+ pretty (n - 1)%nat)
      | String d rest => String d ("." +:+ rest +:+ "e+" +:+ pretty (n - 1)%nat)
      | EmptyString => EmptyString
      end.

(** Template-literal and [toString()] rendering of a number. *)
Definition toString (n : Num) : string :=
  match n with
  | NaN => "NaN"
  | Inf false => "Infinity"
  | Inf true => "-Infinity"
  | Fin z => if bool_decide (z < 0) then "-" +:+ digitsOf (- z) else digitsOf z
  end.

(** ASCII [toLowerCase]. *)
Definition lowerChar (c : ascii) : ascii :=
  let n := nat_of_ascii c in
  if decide (65 ≤ n ≤ 90)%nat then ascii_of_nat (n + 32) else c.

Fixpoint toLowerCase (s : string) : string :=
  match s with
  | EmptyString => EmptyString
  | String c r => String (lowerChar c) (toLowerCase r)
  end.

(** Truthiness of a possibly undefined string. *)
Definition truthyStr (s : option string) : bool :=
  match s with
  | Some (String _ _) => true
  | _ => false
  end.

(** [s.endsWith(p)]. *)
Definition endsWith (s p : string) : bool := startsWith (String.rev s) (String.rev p).

(** [s.padStart(target, fill)] for a filler of one character. *)
Definition padStart (target : nat) (fill : ascii) (s : string) : string :=
  string_of_list_ascii (replicate (target - String.length s) fill) +:+ s.

End Js.

(** ** [node:path], POSIX flavour *)

Module Path.

Definition sep : ascii := "/"%char.

Definition nonEmpty (s : string) : bool :=
  match s with EmptyString => false | _ => true end.

(** The components of a path: the pieces between slashes, empty ones dropped. *)
Definition segments (p : string) : list string :=
  List.filter nonEmpty (Js.split sep p).

Definition isAbsolute (p : string) : bool := Js.startsWith p "/".

(** [normalizeString] with [allowAboveRoot = false]: [.] is dropped and [..]
    removes the component before it, or nothing at the root.  [acc] holds the
    components kept so far, last one first. *)
Fixpoint normalizeSegs (acc segs : list string) : list string :=
  match segs with
  | [] => rev acc
  | s :: r =>
      if decide (s = ".") then normalizeSegs acc r
      else if decide (s = "..") then normalizeSegs (tail acc) r
      else normalizeSegs (s :: acc) r
  end.

Definition render (segs : list string) : string := "/" +:+ Js.join "/" segs.

(** [path.resolve(...args)]: arguments are taken from the right until an
    absolute one is found, empty ones are skipped, and the working directory
    [cwd], an absolute path, is the last resort.  [resolveRaw] returns whether
    an absolute argument was met and the pieces glued with slashes. *)
Fixpoint resolveRaw (args : list string) : bool * string :=
  match args with
  | [] => (false, EmptyString)
  | a :: rest =>
      let '(absolute, glued) := resolveRaw rest in
      if absolute then (true, glued)
      else if nonEmpty a then (isAbsolute a, a +:+ "/" +:+ glued)
      else (false, glued)
  end.

Definition resolveSegs (cwd : string) (args : list string) : list string :=
  let '(absolute, glued) := resolveRaw args in
  normalizeSegs [] (segments (if absolute then glued else cwd +:+ "/" +:+ glued)).

Definition resolve (cwd : string) (args : list string) : string :=
  render (resolveSegs cwd args).

Fixpoint commonPrefixLen (a b : list string) : nat :=
  match a, b with
  | x :: a', y :: b' => if decide (x = y) then S (commonPrefixLen a' b') else O
  | _, _ => O
  end.

(** [path.relative(from, to)]: both ends are resolved, the common leading
    components are dropped, one [..] is emitted for every remaining component
    of [from], then the remaining components of [to]. *)
Definition relative (cwd from to : string) : string :=
  if decide (from = to) then EmptyString
  else
    let f := resolveSegs cwd [from] in
    let t := resolveSegs cwd [to] in
    let k := commonPrefixLen f t in
    Js.join "/" (replicate (length f - k) ".." ++ drop k t).

(** [path.join(a, b)] for the two-argument calls of the sources, whose
    arguments are non-empty and already normalized. *)
Definition join2 (a b : string) : string := a +:+ "/" +:+ b.

(** The last component of a path, trailing slashes ignored. *)
Definition lastSegment (p : string) : string := List.last (segments p) EmptyString.

(** Splits a string, given reversed, at its first dot: the characters up to
    and including the dot (in reading order) and what is left, still
    reversed. *)
Fixpoint splitAtDot (acc rev_s : string) : option (string * string) :=
  match rev_s with
  | EmptyString => None
  | String c r =>
      if decide (c = "."%char) then Some (String c acc, r)
      else splitAtDot (String c acc) r
  end.

(** [path.extname(p)]: from the last dot of the last component to its end;
    empty when there is no dot, when the only dot is the first character, and
    for the component [..]. *)
Definition extname (p : string) : string :=
  let b := lastSegment p in
  match splitAtDot EmptyString (String.rev b) with
  | None => EmptyString
  | Some (ext, before) =>
      if nonEmpty before then (if decide (b = "..") then EmptyString else ext)
      else EmptyString
  end.

(** [path.basename(p, ext)]: the last component, without the suffix [ext]
    unless it is the whole component. *)
Definition basename (p ext : string) : string :=
  if decide (ext = p) then EmptyString
  else
    let b := lastSegment p in
    if nonEmpty ext && negb (bool_decide (b = ext)) then
      match Js.strip_prefix (String.rev ext) (String.rev b) with
      | Some r => String.rev r
      | None => b
      end
    else b.

(** [path.dirname(p)] for a normalized path, relative or absolute: the
    components before the last one; [.] when a relative path has a single
    component. *)
Definition dirname (p : string) : string :=
  let segs := segments p in
  let parent := take (length segs - 1) segs in
  if isAbsolute p then render parent
  else match parent with
       | [] => "."
       | _ => Js.join "/" parent
       end.

(** [normalizeString] with [allowAboveRoot = true], as used for relative
    paths: a [..] with nothing before it to remove is kept. *)
Fixpoint normalizeSegsRel (acc segs : list string) : list string :=
  match segs with
  | [] => rev acc
  | s :: r =>
      if decide (s = ".") then normalizeSegsRel acc r
      else if decide (s = "..") then
        match acc with
        | [] => normalizeSegsRel [".."] r
        | a :: acc' =>
            if decide (a = "..") then normalizeSegsRel (".." :: acc) r
            else normalizeSegsRel acc' r
        end
      else normalizeSegsRel (s :: acc) r
  end.

(** [path.normalize(p)]: a trailing slash is kept. *)
Definition normalize (p : string) : string :=
  if nonEmpty p then
    let trailing := if Js.endsWith p "/" then "/" else "" in
    if isAbsolute p then
      match normalizeSegs [] (segments p) with
      | [] => "/"
      | segs => "/" +:+ Js.join "/" segs +:+ trailing
      end
    else
      match normalizeSegsRel [] (segments p) with
      | [] => if Js.endsWith p "/" then "./" else "."
      | segs => Js.join "/" segs +:+ trailing
      end
  else ".".

(** [path.join(...args)]: the non-empty arguments glued with slashes, then
    normalized. *)
Definition joinAll (args : list string) : string :=
  match List.filter nonEmpty args with
  | [] => "."
  | parts => normalize (Js.join "/" parts)
  end.

End Path.

(** ** [lib/config.ts] *)

(** The process environment read once at start: the working directory, the
    required [TARGET_DIRECTORY] and the [SMART_THUMB] flag. *)
Record Config := {
  cwd : string;
  rawTarget : string;
  smartThumb : bool
}.

Definition targetDir (cfg : Config) : string := Path.resolve (cwd cfg) [rawTarget cfg].
Definition thumbsDir (cfg : Config) : string := Path.join2 (targetDir cfg) ".thumbs.db".

(** ** [lib/path-utils.ts] *)

Module PathUtils.

(** [resolveSafePath]: [None] stands for the thrown [Error("Invalid path")]. *)
Definition resolveSafePath (cfg : Config) (relPath : string) : option string :=
  let abs := Path.resolve (cwd cfg) [targetDir cfg; relPath] in
  let rel := Path.relative (cwd cfg) (targetDir cfg) abs in
  if Js.startsWith rel ".." || Path.isAbsolute rel then None else Some abs.

(** The canonical path [abs] lies inside the root: the components of the root
    are a prefix of its components. *)
Definition insideRoot (cfg : Config) (abs : string) : Prop :=
  Path.segments (targetDir cfg) `prefix_of` Path.segments abs.

End PathUtils.

(** ** [app/api/video/route.ts] *)

Module VideoRoute.

Record Request := {
  pathParam : option string;     (* url.searchParams.get("path") *)
  rangeHeader : option string    (* request.headers.get("range") *)
}.

(** A response body: none, a literal text, or a read stream over a file,
    whole or restricted to the inclusive span of [createReadStream]'s
    [start] and [end] options, [end] being [None] when it is [Infinity]. *)
Inductive Body :=
  | BodyNull
  | BodyText (text : string)
  | BodyStream (file : string) (span : option (Z * option Z)).

Record Response := {
  status : Z;
  headers : list (string * string);
  body : Body
}.

Definition MIME : list (string * string) :=
  [(".mp4", "video/mp4"); (".mov", "video/quicktime"); (".mkv", "video/x-matroska");
   (".webm", "video/webm"); (".avi", "video/x-msvideo")].

Fixpoint assoc (k : string) (l : list (string * string)) : option string :=
  match l with
  | [] => None
  | (k', v) :: r => if decide (k = k') then Some v else assoc k r
  end.

(** [validateInteger(value, name, 0)] in the constructor of [fs.ReadStream]:
    the value when it is an integer from 0 to [Number.MAX_SAFE_INTEGER],
    [None] when the validation throws. *)
Definition validateInteger (value : Js.Num) : option Z :=
  match value with
  | Js.Fin z => if bool_decide (0 ≤ z ≤ Js.MAX_SAFE_INTEGER) then Some z else None
  | _ => None
  end.

(** [fs.createReadStream(file, { start, end })]: the constructor validates
    [start], validates [end] unless it is [Infinity], and refuses an [end]
    before [start]; [None] when it throws. *)
Definition createReadStream (file : string) (start end_ : Js.Num) : option Body :=
  st ← validateInteger start;
  match end_ with
  | Js.Inf false => Some (BodyStream file (Some (st, None)))
  | _ =>
      e ← validateInteger end_;
      if bool_decide (e < st) then None else Some (BodyStream file (Some (st, Some e)))
  end.

(** The part of [GET] after [fs.promises.stat]: the answer for a file whose
    [stat.size] is [fileSize], at [absPath]; [None] when the handler rejects
    because [createReadStream] threw. *)
Definition respond (absPath : string) (fileSize : Js.Num) (range : option string)
  : option Response :=
  let contentType :=
    default "video/mp4" (assoc (Js.toLowerCase (Path.extname absPath)) MIME) in
  if Js.truthyStr range then
    let parts := Js.split "-" (Js.replaceFirst "bytes=" "" (default "" range)) in
    let startStr := default "" (parts !! 0%nat) in
    let endStr := parts !! 1%nat in
    let start := Js.parseInt startStr in
    let end_ := if Js.truthyStr endStr then Js.parseInt (default "" endStr)
                else Js.sub fileSize (Js.Fin 1) in
    if Js.isNaN start || Js.ge start fileSize || Js.lt end_ start then
      Some {| status := 416;
              headers := [("Content-Range", "bytes */" +:+ Js.toString fileSize)];
              body := BodyNull |}
    else
      let chunkSize := Js.add (Js.sub end_ start) (Js.Fin 1) in
      stream ← createReadStream absPath start end_;
      Some {| status := 206;
              headers :=
                [("Content-Range",
                   "bytes " +:+ Js.toString start +:+ "-" +:+ Js.toString end_
                   +:+ "/" +:+ Js.toString fileSize);
                 ("Accept-Ranges", "bytes");
                 ("Content-Length", Js.toString chunkSize);
                 ("Content-Type", contentType)];
              body := stream |}
  else
    Some {| status := 200;
            headers :=
              [("Content-Length", Js.toString fileSize);
               ("Content-Type", contentType);
               ("Accept-Ranges", "bytes")];
            body := BodyStream absPath None |}.

(** [GET].  [statSize] is the file system as [fs.promises.stat] sees it: the
    size of the file at a path, which [stat.size] holds as a double, or [None]
    when [stat] rejects, in which case the handler rejects too (outer
    [None]). *)
Definition GET (cfg : Config) (statSize : string → option N) (req : Request)
  : option Response :=
  match pathParam req with
  | None | Some EmptyString =>
      Some {| status := 400; headers := []; body := BodyText "Missing path" |}
  | Some relPath =>
      match PathUtils.resolveSafePath cfg relPath with
      | None => Some {| status := 400; headers := []; body := BodyText "Invalid path" |}
      | Some absPath =>
          match statSize absPath with
          | None => None
          | Some size => respond absPath (Js.roundInt (Z.of_N size)) (rangeHeader req)
          end
      end
  end.

(** The bytes a read stream with options [start] and [end] delivers from a
    file with the given content: positions [start] to [end] inclusive, cut at
    the end of the file. *)
Definition readSpan {A} (content : list A) (start end_ : Z) : list A :=
  take (Z.to_nat (end_ - start + 1)) (drop (Z.to_nat start) content).

(** The bytes of a response body, for the file content it streams from. *)
Definition bodyBytes {A} (content : list A) (b : Body) : list A :=
  match b with
  | BodyStream _ None => content
  | BodyStream _ (Some (st, Some e)) => readSpan content st e
  | BodyStream _ (Some (st, None)) => drop (Z.to_nat st) content
  | _ => []
  end.

End VideoRoute.

(** ** The SQLite store as [initDb] sees it *)

Module Db.

Inductive value :=
  | VNull
  | VInt (z : Z)
  | VReal (q : Qc)
  | VText (s : string).

Global Instance value_eq_dec : EqDecision value.
Proof. solve_decision. Defined.

Record column := { colName : string; colDefault : value }.

(** A table: its columns in declaration order and its rows, each row holding
    one value per column. *)
Record table := { columns : list column; rows : list (list value) }.

(** The database file: the [videos] table once created, and the indexes. *)
Record database := { videos : option table; indexes : list string }.

Definition emptyDb : database := {| videos := None; indexes := [] |}.

Definition col (n : string) : column := {| colName := n; colDefault := VNull |}.

(** The columns of [CREATE TABLE videos] in [lib/db.ts]. *)
Definition schemaOld : list column :=
  [col "path"; col "folder"; col "name"; col "duration"; col "createdAt";
   col "thumb"; col "updatedAt"].

Definition thumbErrorCol : column := {| colName := "thumbError"; colDefault := VInt 0 |}.

(** The columns of [CREATE TABLE videos] in the later revision of
    [lib/db.ts] and in the batch tool. *)
Definition schemaNew : list column := schemaOld ++ [thumbErrorCol].

(** [CREATE TABLE IF NOT EXISTS videos (...)]: nothing happens to a table that
    is already there, whatever its columns. *)
Definition createTableIfNotExists (cols : list column) (d : database) : database :=
  match videos d with
  | Some _ => d
  | None => {| videos := Some {| columns := cols; rows := [] |}; indexes := indexes d |}
  end.

(** [CREATE INDEX IF NOT EXISTS name ON videos(folder)]. *)
Definition createIndexIfNotExists (name : string) (d : database) : database :=
  if bool_decide (name ∈ indexes d) then d
  else {| videos := videos d; indexes := indexes d ++ [name] |}.

(** [PRAGMA table_info(videos)]: the column names. *)
Definition tableInfo (d : database) : list string :=
  match videos d with
  | Some t => colName <$> columns t
  | None => []
  end.

(** [ALTER TABLE videos ADD COLUMN c]: the column is appended and every
    existing row reads the default in it. *)
Definition addColumn (c : column) (d : database) : database :=
  match videos d with
  | Some t =>
      {| videos := Some {| columns := columns t ++ [c];
                           rows := (λ r, r ++ [colDefault c]) <$> rows t |};
         indexes := indexes d |}
  | None => d
  end.

Fixpoint indexOf (n : string) (cols : list column) : option nat :=
  match cols with
  | [] => None
  | c :: r => if decide (colName c = n) then Some O else S <$> indexOf n r
  end.

(** One row projected on the wanted columns; [None] when a column does not
    exist in the table. *)
Definition project (cols : list column) (wanted : list string) (row : list value)
  : option (list value) :=
  mapM (λ n, i ← indexOf n cols; Some (default VNull (row !! i))) wanted.

(** [prepare("SELECT wanted FROM videos").all()]: [None] when the statement
    fails (no such table, no such column). *)
Definition select (wanted : list string) (d : database) : option (list (list value)) :=
  t ← videos d;
  _ ← mapM (λ n, indexOf n (columns t)) wanted;
  mapM (project (columns t) wanted) (rows t).

(** [initDb] of [lib/db.ts]. *)
Definition initDb_lib (d : database) : database :=
  createIndexIfNotExists "idx_videos_folder" (createTableIfNotExists schemaOld d).

(** [initDb] of the later revision of [lib/db.ts]: the table is declared with
    [thumbError], the migration that follows is commented out. *)
Definition initDb_lib2 (d : database) : database :=
  createIndexIfNotExists "idx_videos_folder" (createTableIfNotExists schemaNew d).

(** [initDb] of the batch tool: the same declaration, then the migration. *)
Definition initDb_tool (d : database) : database :=
  let d1 := createIndexIfNotExists "idx_videos_folder" (createTableIfNotExists schemaNew d) in
  let hasThumbError := bool_decide ("thumbError" ∈ tableInfo d1) in
  if hasThumbError then d1 else addColumn thumbErrorCol d1.

(** The query [buildIndex] starts with. *)
Definition existingRowsQuery : list string :=
  ["path"; "updatedAt"; "thumb"; "duration"; "thumbError"].

End Db.

(** ** [lib/video-index.ts] and the batch tool *)

Module VideoIndex.

(** What [parseFloat] can return. *)
Inductive JsNum :=
  | Finite (q : Qc)
  | Infinite
  | NaN.

(** The JavaScript runtime and the external programs, as the indexer meets
    them.  [ffmpeg ss input output] is one frame extraction with seek position
    [ss]: [None] when [execFile] rejects, [Some n] when the frame was written
    to [output] as a file of [n] bytes. *)
Record Runtime := {
  parseFloat : string → JsNum;
  sha1hex : string → string;
  now : Z;
  ffprobe : string → option string;
  ffmpeg : string → string → string → option N;
  mkdirOk : string → bool;
  renameOk : string → string → bool;
  unlinkOk : string → bool
}.

Record Stat := {
  mtimeMs : Qc;
  birthtimeMs : Qc;
  ctimeMs : Qc
}.

Record VideoFile := {
  abs : string;
  rel : string;
  stat : Stat
}.

(** A row of the [videos] table; every column but the key is nullable. *)
Record Row := {
  path : string;
  folder : string;
  name : string;
  duration : option Qc;
  createdAt : option Z;
  thumb : option string;
  updatedAt : option Z;
  thumbError : option Z
}.

Global Instance Row_eq_dec : EqDecision Row.
Proof. solve_decision. Defined.

(** The [videos] table keyed by its primary key, and the files of the cache
    area with their sizes. *)
Record State := {
  db : gmap string Row;
  fs : gmap string N
}.

(** The argument of [indexSingle]. *)
Record Task := {
  t_abs : string;
  t_rel : string;
  t_stat : Stat;
  t_updatedAt : Z;
  t_thumbRel : string
}.

Definition floor (q : Qc) : Z := Qfloor (this q).

(** Truthiness of a nullable number: neither [null] nor [0]. *)
Definition truthy (d : option Qc) : bool :=
  match d with
  | Some q => negb (bool_decide (q = 0%Qc))
  | None => false
  end.

(** [a || b] on numbers. *)
Definition orElse (a b : Qc) : Qc := if bool_decide (a = 0%Qc) then b else a.

Definition jsMax (a b : Qc) : Qc := if bool_decide (a < b)%Qc then b else a.
Definition jsMin (a b : Qc) : Qc := if bool_decide (b < a)%Qc then b else a.

(** [s.trim()] for ASCII white space. *)
Definition trim (s : string) : string :=
  String.rev (Js.skipSpace (String.rev (Js.skipSpace s))).

Definition getThumbRelPath (rt : Runtime) (relPath : string) : string :=
  Path.join2 "thumbs" (String.substring 0 16 (sha1hex rt relPath) +:+ ".jpg").

Definition fileExists (files : gmap string N) (p : string) : bool :=
  bool_decide (is_Some (files !! p)).

Definition probeDuration (rt : Runtime) (filePath : string) : option Qc :=
  match ffprobe rt filePath with
  | Some stdout =>
      match parseFloat rt (trim stdout) with
      | Finite v => Some v
      | _ => None
      end
  | None => None
  end.

(** *** Arithmetic on doubles *)

(** [2^x] for an integer [x]. *)
Definition pow2 (x : Z) : Qc :=
  if bool_decide (0 ≤ x) then Q2Qc (inject_Z (2 ^ x))
  else (/ Q2Qc (inject_Z (2 ^ (- x))))%Qc.

(** The largest [e] with [2^e ≤ q], for a positive [q]. *)
Definition ilog2 (q : Qc) : Z :=
  let k := Z.log2 (Qnum (this q)) - Z.log2 (Zpos (Qden (this q))) in
  if bool_decide (pow2 k ≤ q)%Qc then k else k - 1.

(** The integer nearest to [q], the even one on a tie. *)
Definition roundEven (q : Qc) : Z :=
  let f := floor q in
  let r := (q - Q2Qc (inject_Z f))%Qc in
  if bool_decide (r < Q2Qc (1 # 2))%Qc then f
  else if bool_decide (Q2Qc (1 # 2) < r)%Qc then f + 1
  else if Z.even f then f else f + 1.

(** The double nearest to [q], the one with the even significand on a tie:
    the multiple of the unit in the last place nearest to [q], that unit
    being [2^(e - 52)] for [2^e ≤ |q| < 2^(e + 1)] and [2^-1074] below
    [2^-1022].  The results of the sources stay below the largest double: a
    product with a ratio below 1, a difference with 0.2. *)
Definition double (q : Qc) : Qc :=
  if bool_decide (q = 0%Qc) then 0%Qc
  else
    let a := if bool_decide (q < 0)%Qc then (- q)%Qc else q in
    let ulp := pow2 (Z.max (ilog2 a) (-1022) - 52) in
    (Q2Qc (inject_Z (roundEven (q / ulp)%Qc)) * ulp)%Qc.

Definition clampTime (value duration : Qc) : Qc :=
  if bool_decide (duration ≤ 0)%Qc then 1%Qc
  else
    let min := 1%Qc in
    let max := jsMax 1%Qc (double (duration - double (Q2Qc (1 # 5))))%Qc in
    jsMin (jsMax value min) max.

(** [Array.from({ length: 5 }, (_, i) => (i + 0.5) / 5)]. *)
Definition picks : list Qc :=
  (λ i : nat, double ((Q2Qc (inject_Z (Z.of_nat i)) + Q2Qc (1 # 2)) / Q2Qc 5)%Qc)
  <$> seq 0 5.

(** The seek positions of the five candidates. *)
Definition candidateTimes (duration : Qc) : list Qc :=
  (λ ratio, clampTime (double (duration * ratio)%Qc) duration) <$> picks.

Definition pad3 (n : Z) : string :=
  (if bool_decide (n < 10) then "00" else if bool_decide (n < 100) then "0" else "")
  +:+ pretty n.

(** [x.toFixed(3)] on the double of exact value [x]: the sign, then the
    nearest multiple of 1/1000 of the absolute value, the larger one on a tie,
    with three decimals; from 10^21 on, where a double is an integer, the
    rendering of [toString]. *)
Definition fixed3 (x : Qc) : string :=
  if bool_decide (Q2Qc (inject_Z (10 ^ 21)) ≤ x)%Qc then Js.toString (Js.Fin (floor x))
  else
    let n := floor (x * Q2Qc 1000 + Q2Qc (1 # 2))%Qc in
    pretty (n / 1000) +:+ "." +:+ pad3 (n mod 1000).

Definition toFixed3 (x : Qc) : string :=
  if bool_decide (x < 0)%Qc then "-" +:+ fixed3 (- x)%Qc else fixed3 x.

Record Candidate := { c_path : string; c_size : N }.

Definition tmpPath (outputPath : string) (index : nat) : string :=
  outputPath +:+ ".tmp-" +:+ pretty index +:+ ".jpg".

(** One callback of [picks.map]: the extraction, then [fs.stat] of the
    temporary file.  The file system after it, and the candidate unless the
    callback rejected. *)
Definition extractCandidate (rt : Runtime) (inputPath outputPath : string) (duration : Qc)
    (files : gmap string N) (index : nat) (ratio : Qc)
  : gmap string N * option Candidate :=
  let time := clampTime (double (duration * ratio)%Qc) duration in
  let tmp := tmpPath outputPath index in
  match ffmpeg rt (toFixed3 time) inputPath tmp with
  | Some size =>
      let files' := <[tmp := size]> files in
      (files', (λ n, {| c_path := tmp; c_size := n |}) <$> files' !! tmp)
  | None => (files, None)
  end.

(** All five callbacks run; their results in the order of [picks]. *)
Fixpoint extractAll (rt : Runtime) (inputPath outputPath : string) (duration : Qc)
    (files : gmap string N) (index : nat) (ratios : list Qc)
  : gmap string N * list (option Candidate) :=
  match ratios with
  | [] => (files, [])
  | ratio :: rest =>
      let '(files1, c) := extractCandidate rt inputPath outputPath duration files index ratio in
      let '(files2, cs) := extractAll rt inputPath outputPath duration files1 (S index) rest in
      (files2, c :: cs)
  end.

(** [Promise.all]: every result, or rejection as soon as one rejected. *)
Definition promiseAll {A} (results : list (option A)) : option (list A) :=
  mapM id results.

(** [candidates.reduce((prev, current) => current.size > prev.size ? current : prev)]. *)
Definition pickBest (candidates : list Candidate) : option Candidate :=
  match candidates with
  | [] => None
  | first :: rest =>
      Some (foldl (λ prev current,
                     if bool_decide (c_size prev < c_size current)%N then current else prev)
                  first rest)
  end.

(** [fs.unlink(p).catch(() => undefined)]. *)
Definition unlinkQuietly (rt : Runtime) (files : gmap string N) (p : string) : gmap string N :=
  if unlinkOk rt p then delete p files else files.

(** [makeThumbnail]: [true] when the promise is fulfilled, [false] when it is
    rejected, and the files of the cache area afterwards. *)
Definition makeThumbnail (cfg : Config) (rt : Runtime)
    (inputPath outputPath : string) (duration : option Qc) (files : gmap string N)
  : bool * gmap string N :=
  if negb (mkdirOk rt (Path.dirname outputPath)) then (false, files)
  else
    let hasDuration :=
      match duration with
      | Some d => truthy duration && bool_decide (0 < d)%Qc
      | None => false
      end in
    if negb hasDuration || negb (smartThumb cfg) then
      match ffmpeg rt "00:00:01" inputPath outputPath with
      | Some size => (true, <[outputPath := size]> files)
      | None => (false, files)
      end
    else
      let '(files1, results) :=
        extractAll rt inputPath outputPath (default 0%Qc duration) files 0 picks in
      match promiseAll results with
      | None => (false, files1)
      | Some candidates =>
          match pickBest candidates with
          | None => (false, files1)
          | Some best =>
              if renameOk rt (c_path best) outputPath then
                let files2 := <[outputPath := c_size best]> (delete (c_path best) files1) in
                let others :=
                  List.filter (λ item, negb (bool_decide (c_path item = c_path best)))
                              candidates in
                (true, foldl (unlinkQuietly rt) files2 (c_path <$> others))
              else (false, files1)
          end
      end.

(** [INSERT ... ON CONFLICT(path) DO UPDATE SET ...]: [excluded] is the row
    of the [VALUES] clause, [update old excluded] the row left by the [SET]
    list when a row with this key exists. *)
Definition insertOnConflict (update : Row → Row → Row) (excluded : Row)
    (d : gmap string Row) : gmap string Row :=
  match d !! path excluded with
  | Some old => <[path excluded := update old excluded]> d
  | None => <[path excluded := excluded]> d
  end.

(** The statement of the [try] block: every column is taken from [excluded]
    (the row in conflict has the path of [excluded]). *)
Definition upsertSuccess (excluded : Row) (d : gmap string Row) : gmap string Row :=
  insertOnConflict
    (λ old ex,
       {| path := path ex; folder := folder ex; name := name ex;
          duration := duration ex; createdAt := createdAt ex; thumb := thumb ex;
          updatedAt := updatedAt ex; thumbError := thumbError ex |})
    excluded d.

(** The statement of the [catch] block: the [SET] list names [updatedAt],
    [thumbError] and [thumb] only. *)
Definition upsertFailure (relPath folderName baseName : string) (updated : Z)
    (d : gmap string Row) : gmap string Row :=
  insertOnConflict
    (λ old ex,
       {| path := path ex; folder := folder old; name := name old;
          duration := duration old; createdAt := createdAt old; thumb := thumb ex;
          updatedAt := updatedAt ex; thumbError := thumbError ex |})
    {| path := relPath; folder := folderName; name := baseName;
       duration := None; createdAt := None; thumb := None;
       updatedAt := Some updated; thumbError := Some 1 |}
    d.

Definition folderOf (relPath : string) : string :=
  if bool_decide (Path.dirname relPath = ".") then "" else Path.dirname relPath.

(** How a promise settles, with the state it leaves. *)
Inductive Settled :=
  | Fulfilled (st : State)
  | Rejected (st : State).

Definition stateOf (s : Settled) : State :=
  match s with Fulfilled st | Rejected st => st end.

(** [indexSingle]: the [try] block up to the success statement, the [catch]
    block when [makeThumbnail] rejected. *)
Definition indexSingle (cfg : Config) (rt : Runtime) (t : Task) (st : State) : Settled :=
  let duration := probeDuration rt (t_abs t) in
  let createdAt :=
    floor (orElse (birthtimeMs (t_stat t))
                  (orElse (ctimeMs (t_stat t)) (Q2Qc (inject_Z (now rt))))) in
  let thumbAbs := Path.join2 (thumbsDir cfg) (t_thumbRel t) in
  match makeThumbnail cfg rt (t_abs t) thumbAbs duration (fs st) with
  | (true, files) =>
      Fulfilled
        {| db := upsertSuccess
                   {| path := t_rel t;
                      folder := folderOf (t_rel t);
                      name := Path.basename (t_abs t) (Path.extname (t_abs t));
                      duration := duration; createdAt := Some createdAt;
                      thumb := Some (t_thumbRel t);
                      updatedAt := Some (t_updatedAt t); thumbError := Some 0 |}
                   (db st);
           fs := files |}
  | (false, files) =>
      Fulfilled
        {| db := upsertFailure (t_rel t) (folderOf (t_rel t))
                   (Path.basename (t_rel t) (Path.extname (t_rel t)))
                   (t_updatedAt t) (db st);
           fs := files |}
  end.

(** The decision of the scan loop for one file; [rebuild] is the [--rebuild]
    flag of the batch tool and [false] in [buildIndex]. *)
Definition needsUpdate (rebuild : bool) (existing : option Row) (thumbExists : bool)
    (updated : Z) : bool :=
  let hasThumbError :=
    match existing with
    | Some e => bool_decide (thumbError e = Some 1)
    | None => false
    end in
  rebuild
  || match existing with
     | None => true
     | Some e =>
         (negb hasThumbError && (negb thumbExists || negb (truthy (duration e))))
         || bool_decide (default 0 (updatedAt e) < updated)
     end.

Definition taskOf (rt : Runtime) (file : VideoFile) : Task :=
  {| t_abs := abs file; t_rel := rel file; t_stat := stat file;
     t_updatedAt := floor (mtimeMs (stat file));
     t_thumbRel := getThumbRelPath rt (rel file) |}.

(** One turn of the scan loop: the task pushed for the file, if any. *)
Definition scanFile (cfg : Config) (rt : Runtime) (rebuild : bool) (st : State)
    (file : VideoFile) : option Task :=
  let t := taskOf rt file in
  let existing := db st !! rel file in
  let thumbAbs := Path.join2 (thumbsDir cfg) (t_thumbRel t) in
  let thumbExists := fileExists (fs st) thumbAbs in
  if needsUpdate rebuild existing thumbExists (t_updatedAt t) then Some t else None.

(** The work list built by the scan loop. *)
Definition scan (cfg : Config) (rt : Runtime) (rebuild : bool) (st : State)
    (files : list VideoFile) : list Task :=
  omap (scanFile cfg rt rebuild st) files.

Definition seen (files : list VideoFile) : gset string := list_to_set (rel <$> files).

(** The second loop: rows whose path was not seen are deleted. *)
Definition reconcile (files : list VideoFile) (d : gmap string Row) : gmap string Row :=
  filter (λ kv, kv.1 ∈ seen files) d.

(** [runWithConcurrency]: the workers take the tasks from the head of one
    queue; the tasks are run here in queue order, and a rejected task ends
    the run. *)
Fixpoint runWithConcurrency (cfg : Config) (rt : Runtime) (tasks : list Task) (st : State)
  : Settled :=
  match tasks with
  | [] => Fulfilled st
  | t :: rest =>
      match indexSingle cfg rt t st with
      | Fulfilled st' => runWithConcurrency cfg rt rest st'
      | Rejected st' => Rejected st'
      end
  end.

(** [buildIndex] from the result of [findVideos] on; the top level of the
    batch tool with its [rebuild] flag. *)
Definition buildIndex (cfg : Config) (rt : Runtime) (rebuild : bool)
    (files : list VideoFile) (st : State) : Settled :=
  let tasks := scan cfg rt rebuild st files in
  runWithConcurrency cfg rt tasks {| db := reconcile files (db st); fs := fs st |}.

(** *** Discovery *)

Definition VIDEO_EXTS : list string := [".mp4"; ".mov"; ".mkv"; ".webm"; ".avi"].

(** The tree below a directory as [readdir] and [stat] show it.  A file
    carries the answer of [fs.stat], a directory the answer of [fs.readdir];
    [None] is a rejection.  Whatever is not a directory for
    [Dirent.isDirectory] is a [File]. *)
#[warnings="-register-all"]
Inductive Entry :=
  | File (name : string) (st : option Stat)
  | Dir (name : string) (content : option (list Entry)).

Definition entryName (e : Entry) : string :=
  match e with File n _ | Dir n _ => n end.

(** One turn of the loop of [walk] in the directory [current]: the files
    pushed to [results], or [None] when a [readdir] or a [stat] rejected. *)
Fixpoint walkEntry (cfg : Config) (current : string) (e : Entry)
  : option (list VideoFile) :=
  let name := entryName e in
  if Js.startsWith name "." then Some []
  else if bool_decide (name = ".thumbs.db") then Some []
  else
    let fullPath := Path.joinAll [current; name] in
    match e with
    | Dir _ content =>
        entries ← content;
        mjoin <$> mapM (walkEntry cfg fullPath) entries
    | File _ st =>
        let ext := Js.toLowerCase (Path.extname name) in
        if bool_decide (ext ∈ VIDEO_EXTS) then
          s ← st;
          Some [{| abs := fullPath;
                   rel := Path.relative (cwd cfg) (targetDir cfg) fullPath;
                   stat := s |}]
        else Some []
    end.

Definition walk (cfg : Config) (current : string) (content : option (list Entry))
  : option (list VideoFile) :=
  entries ← content;
  mjoin <$> mapM (walkEntry cfg current) entries.

(** [findVideos(root)], [tree] being what is below [root]. *)
Definition findVideos (cfg : Config) (root : string) (tree : option (list Entry))
  : option (list VideoFile) :=
  walk cfg root tree.

(** *** Reading the Index *)

(** Truthiness of a nullable integer. *)
Definition truthyInt (n : option Z) : bool :=
  match n with
  | Some z => negb (bool_decide (z = 0))
  | None => false
  end.

(** [getThumbPath], once [ensureIndex] is settled with the table [d]: [None]
    is [null]. *)
Definition getThumbPath (cfg : Config) (d : gmap string Row) (relPath : string)
  : option string :=
  match d !! relPath with
  | Some row =>
      if negb (Js.truthyStr (thumb row)) || truthyInt (thumbError row) then None
      else Some (Path.joinAll [thumbsDir cfg; default "" (thumb row)])
  | None => None
  end.

(** [Math.round]: the nearest integer, the larger one on a tie. *)
Definition round (q : Qc) : Z := floor (q + Q2Qc (1 # 2))%Qc.

(** [formatDuration]; [None] is [null]. *)
Definition formatDuration (seconds : option JsNum) : string :=
  match seconds with
  | Some (Finite q) =>
      if bool_decide (q = 0%Qc) then "--:--"
      else
        let total := round q in
        let hrs := total / 3600 in
        let mins := Z.rem total 3600 / 60 in
        let secs := Z.rem total 60 in
        let pad := λ value : Z, Js.padStart 2 "0" (pretty value) in
        if bool_decide (0 < hrs) then
          pretty hrs +:+ ":" +:+ pad mins +:+ ":" +:+ pad secs
        else pretty mins +:+ ":" +:+ pad secs
  | _ => "--:--"
  end.

End VideoIndex.

(** ** [app/api/thumb/route.ts] *)

Module ThumbRoute.

(** [GET].  [index] is the table once [ensureIndex] is settled, [None] when
    it rejected; [statSize] is the file system as in the video route.  The
    outer [None] is a rejection of the handler. *)
Definition GET (cfg : Config) (index : option (gmap string VideoIndex.Row))
    (statSize : string → option N) (req : VideoRoute.Request)
  : option VideoRoute.Response :=
  match VideoRoute.pathParam req with
  | None | Some EmptyString =>
      Some {| VideoRoute.status := 400; VideoRoute.headers := [];
              VideoRoute.body := VideoRoute.BodyText "Missing path" |}
  | Some relPath =>
      match PathUtils.resolveSafePath cfg relPath with
      | None =>
          Some {| VideoRoute.status := 400; VideoRoute.headers := [];
                  VideoRoute.body := VideoRoute.BodyText "Invalid path" |}
      | Some _ =>
          d ← index;
          match VideoIndex.getThumbPath cfg d relPath with
          | None =>
              Some {| VideoRoute.status := 404; VideoRoute.headers := [];
                      VideoRoute.body := VideoRoute.BodyText "Not found" |}
          | Some thumbPath =>
              size ← statSize thumbPath;
              Some {| VideoRoute.status := 200;
                      VideoRoute.headers :=
                        [("Content-Type", "image/jpeg");
                         ("Content-Length", Js.toString (Js.roundInt (Z.of_N size)));
                         ("Cache-Control", "public, max-age=3600")];
                      VideoRoute.body := VideoRoute.BodyStream thumbPath None |}
          end
      end
  end.

End ThumbRoute.

(** ** Vocabulary of the statements *)

(** A string made of decimal digits only. *)
Definition allDigits (s : string) : Prop :=
  Forall (λ c, is_Some (Js.digit c)) (list_ascii_of_string s).

(** A string without a slash; a non-empty one; a path component as
    [normalizeString] leaves them. *)
Definition slashFree (s : string) : Prop := "/"%char ∉ list_ascii_of_string s.
Definition plain (s : string) : Prop := s ≠ "" ∧ slashFree s.
Definition component (s : string) : Prop := plain s ∧ s ≠ "." ∧ s ≠ "..".

Module Spec.

(** The value of a response header. *)
Definition header (n : string) (r : VideoRoute.Response) : option string :=
  VideoRoute.assoc n (VideoRoute.headers r).

(** The header value [bytes=start-end], [end] being optional. *)
Definition rangeValue (start : N) (end_ : option N) : string :=
  "bytes=" +:+ pretty start +:+ "-" +:+ (if end_ is Some e then pretty e else "").

(** The thumbnail artifact of a file is on disk. *)
Definition thumbArtifact (cfg : Config) (rt : VideoIndex.Runtime)
    (st : VideoIndex.State) (file : VideoIndex.VideoFile) : Prop :=
  is_Some (VideoIndex.fs st
             !! Path.join2 (thumbsDir cfg)
                           (VideoIndex.getThumbRelPath rt (VideoIndex.rel file))).

(** The scan loop of [buildIndex] pushes a task for the file. *)
Definition marked (cfg : Config) (rt : VideoIndex.Runtime)
    (st : VideoIndex.State) (file : VideoIndex.VideoFile) : Prop :=
  is_Some (VideoIndex.scanFile cfg rt false st file).

(** The modification time of the file is past the watermark of the row; a
    null watermark is read as 0, as the source does. *)
Definition stale (e : VideoIndex.Row) (file : VideoIndex.VideoFile) : Prop :=
  default 0 (VideoIndex.updatedAt e)
  < VideoIndex.floor (VideoIndex.mtimeMs (VideoIndex.stat file)).

(** The rule for (re)indexing in the words of the specification: no row, or a
    stale row, or a row without failure flag whose thumbnail is missing or
    whose duration is null. *)
Definition ruleAsSpecified (cfg : Config) (rt : VideoIndex.Runtime)
    (st : VideoIndex.State) (file : VideoIndex.VideoFile) : Prop :=
  VideoIndex.db st !! VideoIndex.rel file = None
  ∨ ∃ e, VideoIndex.db st !! VideoIndex.rel file = Some e
      ∧ (stale e file
         ∨ (VideoIndex.thumbError e ≠ Some 1
            ∧ (¬ thumbArtifact cfg rt st file ∨ VideoIndex.duration e = None))).

(** The settlement of one smart-mode callback: the candidate when the
    extraction at seek position [toFixed3 time] wrote the temporary file of
    [index]. *)
Definition attempt (rt : VideoIndex.Runtime) (inputPath outputPath : string)
    (index : nat) (time : Qc) : option VideoIndex.Candidate :=
  (λ n, {| VideoIndex.c_path := VideoIndex.tmpPath outputPath index;
           VideoIndex.c_size := n |})
  <$> VideoIndex.ffmpeg rt (VideoIndex.toFixed3 time) inputPath
        (VideoIndex.tmpPath outputPath index).

(** [n] is the integer nearest to [q], the larger one when two are as
    near. *)
Definition nearest (n : Z) (q : Qc) : Prop :=
  (Q2Qc (inject_Z n) - Q2Qc (1 # 2) ≤ q)%Qc ∧ (q < Q2Qc (inject_Z n) + Q2Qc (1 # 2))%Qc.

Definition digitChar (d : Z) : ascii := ascii_of_nat (48 + Z.to_nat d).

(** The numeral of [n] thousandths, [n] being a natural number: the whole
    part, a dot and three decimals. *)
Definition thousandths (n : Z) : string :=
  let m := n mod 1000 in
  pretty (n / 1000) +:+ "."
  +:+ String (digitChar (m / 100))
        (String (digitChar (m / 10 mod 10)) (String (digitChar (m mod 10)) "")).

(** The numeral of two digits of a number from 0 to 99. *)
Definition twoDigits (n : Z) : string :=
  String (digitChar (n / 10)) (String (digitChar (n mod 10)) "").

(** The temporary files left by the callbacks that succeeded. *)
Definition written (files : gmap string N) (results : list (option VideoIndex.Candidate))
  : gmap string N :=
  foldl (λ f r, match r with
                | Some c => <[VideoIndex.c_path c := VideoIndex.c_size c]> f
                | None => f
                end) files results.

(** The absolute path of the thumbnail of a file, from its relative path. *)
Definition thumbAbsOf (cfg : Config) (rt : VideoIndex.Runtime) (relPath : string) : string :=
  Path.join2 (thumbsDir cfg) (VideoIndex.getThumbRelPath rt relPath).

(** The thumbnail of a task can be made: the settlement of [makeThumbnail]
    does not depend on the files already in the cache area. *)
Definition thumbOk (cfg : Config) (rt : VideoIndex.Runtime) (t : VideoIndex.Task) : bool :=
  fst (VideoIndex.makeThumbnail cfg rt (VideoIndex.t_abs t)
         (Path.join2 (thumbsDir cfg) (VideoIndex.t_thumbRel t))
         (VideoIndex.probeDuration rt (VideoIndex.t_abs t)) ∅).

(** The row written by the [try] block of [indexSingle]. *)
Definition successRow (rt : VideoIndex.Runtime) (t : VideoIndex.Task) : VideoIndex.Row :=
  {| VideoIndex.path := VideoIndex.t_rel t;
     VideoIndex.folder := VideoIndex.folderOf (VideoIndex.t_rel t);
     VideoIndex.name :=
       Path.basename (VideoIndex.t_abs t) (Path.extname (VideoIndex.t_abs t));
     VideoIndex.duration := VideoIndex.probeDuration rt (VideoIndex.t_abs t);
     VideoIndex.createdAt :=
       Some (VideoIndex.floor
               (VideoIndex.orElse (VideoIndex.birthtimeMs (VideoIndex.t_stat t))
                  (VideoIndex.orElse (VideoIndex.ctimeMs (VideoIndex.t_stat t))
                     (Q2Qc (inject_Z (VideoIndex.now rt))))));
     VideoIndex.thumb := Some (VideoIndex.t_thumbRel t);
     VideoIndex.updatedAt := Some (VideoIndex.t_updatedAt t);
     VideoIndex.thumbError := Some 0 |}.

(** The row left for a task by [indexSingle]: the success row, or a failure
    row with the watermark of the task. *)
Definition rowWritten (cfg : Config) (rt : VideoIndex.Runtime) (t : VideoIndex.Task)
    (r : VideoIndex.Row) : Prop :=
  if thumbOk cfg rt t then r = successRow rt t
  else VideoIndex.thumbError r = Some 1
       ∧ VideoIndex.updatedAt r = Some (VideoIndex.t_updatedAt t).

(** The same runtime at another reading of the clock. *)
Definition atTime (n : Z) (rt : VideoIndex.Runtime) : VideoIndex.Runtime :=
  {| VideoIndex.parseFloat := VideoIndex.parseFloat rt;
     VideoIndex.sha1hex := VideoIndex.sha1hex rt;
     VideoIndex.now := n;
     VideoIndex.ffprobe := VideoIndex.ffprobe rt;
     VideoIndex.ffmpeg := VideoIndex.ffmpeg rt;
     VideoIndex.mkdirOk := VideoIndex.mkdirOk rt;
     VideoIndex.renameOk := VideoIndex.renameOk rt;
     VideoIndex.unlinkOk := VideoIndex.unlinkOk rt |}.

(** The invariant of the specification on failure rows. *)
Definition failureWipesDerived (d : gmap string VideoIndex.Row) : Prop :=
  ∀ p r, d !! p = Some r → VideoIndex.thumbError r = Some 1 →
    VideoIndex.duration r = None ∧ VideoIndex.createdAt r = None
    ∧ VideoIndex.thumb r = None.

(** A row as the indexer leaves them: it is keyed by its path and bears a
    watermark, and it is either a success row, with a thumbnail path and a
    creation time, or a failure row, without thumbnail path. *)
Definition rowWellFormed (p : string) (r : VideoIndex.Row) : Prop :=
  VideoIndex.path r = p
  ∧ is_Some (VideoIndex.updatedAt r)
  ∧ ((VideoIndex.thumbError r = Some 0
      ∧ (∃ s, VideoIndex.thumb r = Some s ∧ s ≠ "")
      ∧ is_Some (VideoIndex.createdAt r))
     ∨ (VideoIndex.thumbError r = Some 1 ∧ VideoIndex.thumb r = None)).

Definition tableWellFormed (d : gmap string VideoIndex.Row) : Prop :=
  ∀ p r, d !! p = Some r → rowWellFormed p r.

(** The entries of a directory as a file system has them: a name is not
    empty and holds no slash, and no two entries of a directory bear the same
    name. *)
#[warnings="-register-all"]
Inductive wellFormed : VideoIndex.Entry → Prop :=
  | wellFormed_file name st :
      plain name → wellFormed (VideoIndex.File name st)
  | wellFormed_dir name content :
      plain name →
      (∀ entries, content = Some entries →
         Forall wellFormed entries ∧ NoDup (VideoIndex.entryName <$> entries)) →
      wellFormed (VideoIndex.Dir name content).

(** The paths of a file discovered below the directory of components [dir],
    itself [below] the root: they are given by the names from that directory
    down to the file, of which [first] is the first; none begins with a dot,
    and the last one has a video extension. *)
Definition found (dir below : list string) (first : string)
    (f : VideoIndex.VideoFile) : Prop :=
  ∃ names,
    Forall component names
    ∧ Forall (λ s, Js.startsWith s "." = false) names
    ∧ head names = Some first
    ∧ VideoIndex.abs f = Path.render (dir ++ names)
    ∧ VideoIndex.rel f = Js.join "/" (below ++ names)
    ∧ Js.toLowerCase (Path.extname (List.last names "")) ∈ VideoIndex.VIDEO_EXTS.

(** The tables that the two write statements can produce from an empty one. *)
Inductive reachable : gmap string VideoIndex.Row → Prop :=
  | reach_empty : reachable ∅
  | reach_success excluded d :
      VideoIndex.thumbError excluded = Some 0 →
      reachable d → reachable (VideoIndex.upsertSuccess excluded d)
  | reach_failure relPath folderName baseName updated d :
      reachable d →
      reachable (VideoIndex.upsertFailure relPath folderName baseName updated d).

End Spec.

(** ** Sample worlds for the closed statements *)

Module Sample.

Definition cfg : Config :=
  {| cwd := "/app"; rawTarget := "/srv/videos"; smartThumb := true |}.

Definition request : VideoRoute.Request :=
  {| VideoRoute.pathParam := Some "films/a.mkv";
     VideoRoute.rangeHeader := Some "bytes=200-299" |}.

Definition requestPast : VideoRoute.Request :=
  {| VideoRoute.pathParam := Some "films/a.mkv";
     VideoRoute.rangeHeader := Some "bytes=500-5000" |}.

Definition statSize (p : string) : option N := Some 1000%N.

(** A stand-in for SHA-1 with digests of 40 characters. *)
Definition digest (s : string) : string :=
  String.substring 0 40
    (pretty (String.length s) +:+ "0000000000000000000000000000000000000000").

Definition newline : string := String "010"%char "".

(** A runtime in which [ffprobe] prints 12.5 seconds, except for
    [zero.mp4] (0 seconds) and [noprobe.mp4] (no answer), and in which every
    frame extraction succeeds except on [corrupt.mp4]. *)
Definition rt : VideoIndex.Runtime :=
  {| VideoIndex.parseFloat := λ s,
       if decide (s = "12.5") then VideoIndex.Finite (Q2Qc (25 # 2))
       else if decide (s = "0.000000") then VideoIndex.Finite (Q2Qc 0)
       else VideoIndex.NaN;
     VideoIndex.sha1hex := digest;
     VideoIndex.now := 1700000000000;
     VideoIndex.ffprobe := λ p,
       if decide (p = "/srv/videos/noprobe.mp4") then None
       else if decide (p = "/srv/videos/zero.mp4") then Some ("0.000000" +:+ newline)
       else Some ("12.5" +:+ newline);
     VideoIndex.ffmpeg := λ ss input output,
       if decide (input = "/srv/videos/corrupt.mp4") then None else Some 10%N;
     VideoIndex.mkdirOk := λ _, true;
     VideoIndex.renameOk := λ _ _, true;
     VideoIndex.unlinkOk := λ _, true |}.

(** The same runtime after the media has gone bad: no extraction succeeds. *)
Definition rtBroken : VideoIndex.Runtime :=
  {| VideoIndex.parseFloat := VideoIndex.parseFloat rt;
     VideoIndex.sha1hex := digest;
     VideoIndex.now := 1700000000000;
     VideoIndex.ffprobe := VideoIndex.ffprobe rt;
     VideoIndex.ffmpeg := λ _ _ _, None;
     VideoIndex.mkdirOk := λ _, true;
     VideoIndex.renameOk := λ _ _, true;
     VideoIndex.unlinkOk := λ _, true |}.

Definition fileAt (name : string) (mtime : Z) : VideoIndex.VideoFile :=
  {| VideoIndex.abs := "/srv/videos/" +:+ name;
     VideoIndex.rel := name;
     VideoIndex.stat :=
       {| VideoIndex.mtimeMs := Q2Qc (inject_Z mtime);
          VideoIndex.birthtimeMs := Q2Qc 0;
          VideoIndex.ctimeMs := Q2Qc (inject_Z 1600000000000) |} |}.

(** An output path for thumbnails. *)
Definition thumbOut : string := "/srv/videos/.thumbs.db/thumbs/0123456789abcdef.jpg".

(** The smart-mode extractions towards [thumbOut] all succeed but the one of
    index 2. *)
Definition rtPartial : VideoIndex.Runtime :=
  {| VideoIndex.parseFloat := VideoIndex.parseFloat rt;
     VideoIndex.sha1hex := digest;
     VideoIndex.now := 1700000000000;
     VideoIndex.ffprobe := VideoIndex.ffprobe rt;
     VideoIndex.ffmpeg := λ ss input output,
       if decide (output = VideoIndex.tmpPath thumbOut 2) then None else Some 10%N;
     VideoIndex.mkdirOk := λ _, true;
     VideoIndex.renameOk := λ _ _, true;
     VideoIndex.unlinkOk := λ _, true |}.

(** A video of 1.625 seconds.  The extractor answers the five requests that
    [makeThumbnail] makes for it towards [thumbOut], at the seek positions
    1.000, 1.000, 1.000, 1.137 and 1.425, with frames of the sizes 10, 40, 25,
    40 and 5, and fails on any other request.  No temporary file can be
    deleted. *)
Definition rtSeek : VideoIndex.Runtime :=
  {| VideoIndex.parseFloat := VideoIndex.parseFloat rt;
     VideoIndex.sha1hex := digest;
     VideoIndex.now := 1700000000000;
     VideoIndex.ffprobe := VideoIndex.ffprobe rt;
     VideoIndex.ffmpeg := λ ss input output,
       if decide (ss = "1.000" ∧ output = VideoIndex.tmpPath thumbOut 0) then Some 10%N
       else if decide (ss = "1.000" ∧ output = VideoIndex.tmpPath thumbOut 1) then Some 40%N
       else if decide (ss = "1.000" ∧ output = VideoIndex.tmpPath thumbOut 2) then Some 25%N
       else if decide (ss = "1.137" ∧ output = VideoIndex.tmpPath thumbOut 3) then Some 40%N
       else if decide (ss = "1.425" ∧ output = VideoIndex.tmpPath thumbOut 4) then Some 5%N
       else None;
     VideoIndex.mkdirOk := λ _, true;
     VideoIndex.renameOk := λ _ _, true;
     VideoIndex.unlinkOk := λ _, false |}.

Definition candidates : list VideoIndex.Candidate :=
  (λ '(i, n), {| VideoIndex.c_path := VideoIndex.tmpPath thumbOut i;
                 VideoIndex.c_size := n |})
  <$> [(0%nat, 10%N); (1%nat, 40%N); (2%nat, 25%N); (3%nat, 40%N); (4%nat, 5%N)].

(** A database file made by the [initDb] of [lib/db.ts], with one row. *)
Definition oldStore : Db.database :=
  {| Db.videos :=
       Some {| Db.columns := Db.schemaOld;
               Db.rows := [[Db.VText "a.mp4"; Db.VText ""; Db.VText "a";
                            Db.VReal (Q2Qc (25 # 2)); Db.VInt 1600000000000;
                            Db.VText "thumbs/0123456789abcdef.jpg"; Db.VInt 100]] |};
     Db.indexes := ["idx_videos_folder"] |}.

Definition emptyState : VideoIndex.State :=
  {| VideoIndex.db := ∅; VideoIndex.fs := ∅ |}.

(** What is below the root: two videos at the top, one of them hidden, a text
    file that cannot be examined, the cache directory, which cannot be read,
    and a directory of videos with a directory inside. *)
Definition tree : list VideoIndex.Entry :=
  let st := Some (VideoIndex.stat (fileAt "" 100)) in
  [VideoIndex.File "a.mp4" st;
   VideoIndex.File ".hidden.mp4" st;
   VideoIndex.File "notes.txt" None;
   VideoIndex.Dir ".thumbs.db" None;
   VideoIndex.Dir "films"
     (Some [VideoIndex.File "B.MKV" st;
            VideoIndex.Dir "x" (Some [VideoIndex.File "c.webm" st])])].

End Sample.


(** ** Machine doubles

    The seek times and the conversion of an integer written once more, on the
    binary64 numbers of the kernel, to compare [VideoIndex.double] and
    [Js.roundInt] with the arithmetic the program runs on. *)
Module Machine.

(** The exact value of a finite double. *)
Definition valueOf (f : float) : option Q :=
  match Prim2SF f with
  | S754_zero _ => Some 0%Q
  | S754_finite negative m e =>
      let v := this (Q2Qc (inject_Z (Zpos m)) * VideoIndex.pow2 e)%Qc in
      Some (if negative then (- v)%Q else v)
  | _ => None
  end.

(** [Math.max] and [Math.min] away from NaN and the zeros. *)
Definition max (a b : float) : float := if (a <? b)%float then b else a.
Definition min (a b : float) : float := if (b <? a)%float then b else a.

#[warnings="-inexact-float"]
Definition clampTime (value duration : float) : float :=
  if (duration <=? 0)%float then 1%float
  else
    let min_ := 1%float in
    let max_ := max 1 (duration - 0.2)%float in
    min (max value min_) max_.

Definition picks : list float :=
  (λ i : float, ((i + 0.5) / 5)%float) <$> [0; 1; 2; 3; 4]%float.

Definition candidateTimes (duration : float) : list float :=
  (λ ratio, clampTime (duration * ratio)%float duration) <$> picks.

(** The double nearest to an integer below 2^63. *)
Definition ofInt (n : Z) : float := PrimFloat.of_uint63 (Uint63.of_Z n).

Definition valueOfNum (n : Js.Num) : option Q :=
  match n with Js.Fin z => Some (inject_Z z) | _ => None end.

End Machine.
(** * Properties *)

(** ** Strings and numbers *)

Section JsFacts.
Import Js.

Lemma append_cons (c : ascii) (s t : string) : String c s +:+ t = String c (s +:+ t).
Proof. reflexivity. Qed.

Lemma strip_prefix_app (p s : string) : strip_prefix p (p +:+ s) = Some s.
Proof.
  induction p as [|c p IH]; [done|].
  rewrite append_cons. simpl. by rewrite decide_True.
Qed.

Lemma replaceFirst_prefix (pat rep s : string) :
  replaceFirst pat rep (pat +:+ s) = rep +:+ s.
Proof.
  destruct pat as [|c pat]; [by destruct s|].
  rewrite append_cons. unfold replaceFirst; fold replaceFirst.
  change (String c (pat +:+ s)) with (String c pat +:+ s).
  by rewrite strip_prefix_app.
Qed.

Lemma digit_not_dash (c : ascii) : is_Some (digit c) → c ≠ "-"%char.
Proof. intros [d Hd] ->. discriminate Hd. Qed.

Lemma split_digits_dash (s r : string) :
  allDigits s → split "-" (s +:+ String "-" r) = s :: split "-" r.
Proof.
  unfold allDigits. induction s as [|c s IH]; intros Hs.
  - change ("" +:+ String "-" r) with (String "-" r). done.
  - inversion_clear Hs as [|? ? Hc Hs']. rewrite append_cons. simpl.
    rewrite decide_False by by apply digit_not_dash.
    by rewrite IH.
Qed.

Lemma split_digits (s : string) : allDigits s → split "-" s = [s].
Proof.
  unfold allDigits. induction s as [|c s IH]; simpl; intros Hs; [done|].
  inversion_clear Hs as [|? ? Hc Hs'].
  rewrite decide_False by by apply digit_not_dash.
  by rewrite IH.
Qed.

Lemma digit_pretty_N_char (d : N) :
  (d < 10)%N → digit (pretty_N_char d) = Some (Z.of_N d).
Proof.
  intros Hd.
  assert (Hcases : d ∈ [0; 1; 2; 3; 4; 5; 6; 7; 8; 9]%N).
  { rewrite !elem_of_cons. lia. }
  rewrite !elem_of_cons, elem_of_nil in Hcases.
  destruct Hcases as [->|[->|[->|[->|[->|[->|[->|[->|[->|[->|[]]]]]]]]]]]; reflexivity.
Qed.

Lemma parseDigits_pretty_N_go (x : N) :
  (0 < x)%N →
  ∃ k : Z, 0 ≤ k ∧ ∀ acc s,
    parseDigits acc (pretty_N_go x s)
    = parseDigits (Some (from_option id 0 acc * 10 ^ k + Z.of_N x)) s.
Proof.
  induction x as [x IH] using (well_founded_induction N.lt_wf_0). intros Hx.
  assert (Hmod : (x `mod` 10 < 10)%N) by (apply N.mod_lt; lia).
  destruct (decide (x `div` 10 = 0)%N) as [Hdiv|Hdiv].
  - exists 1. split; [lia|]. intros acc s.
    rewrite pretty_N_go_step, Hdiv, pretty_N_go_0 by done. simpl.
    rewrite digit_pretty_N_char by done.
    f_equal. f_equal.
    assert (Hx10 : Z.of_N x = Z.of_N (x `mod` 10)).
    { rewrite (N.div_mod x 10) at 1 by lia. by rewrite Hdiv. }
    rewrite Hx10. change (10 ^ 1) with 10. clear.
    generalize (Z.of_N (x `mod` 10)). intros m.
    destruct acc; simpl; lia.
  - destruct (IH (x `div` 10)%N) as (k & Hk & IHk).
    { apply N.div_lt; lia. }
    { by apply N.neq_0_lt_0. }
    exists (k + 1). split; [lia|]. intros acc s.
    rewrite pretty_N_go_step, IHk by done. simpl.
    rewrite digit_pretty_N_char by done. f_equal. f_equal.
    rewrite Z.pow_add_r by lia. change (10 ^ 1) with 10.
    assert (Hx10 : Z.of_N x = 10 * Z.of_N (x `div` 10) + Z.of_N (x `mod` 10)).
    { rewrite (N.div_mod x 10) at 1 by lia. by rewrite N2Z.inj_add, N2Z.inj_mul. }
    rewrite Hx10. clear.
    generalize (Z.of_N (x `div` 10)) (Z.of_N (x `mod` 10)) (10 ^ k). intros q m p.
    destruct acc; simpl; lia.
Qed.

Lemma allDigits_pretty_N_go (x : N) (s : string) :
  allDigits s → allDigits (pretty_N_go x s).
Proof.
  revert s. induction x as [x IH] using (well_founded_induction N.lt_wf_0). intros s Hs.
  destruct (decide (x = 0)%N) as [->|Hx]; [by rewrite pretty_N_go_0|].
  rewrite pretty_N_go_step by lia. apply IH.
  - apply N.div_lt; lia.
  - constructor; [|done]. rewrite digit_pretty_N_char; [done|]. apply N.mod_lt. lia.
Qed.

Lemma allDigits_pretty (n : N) : allDigits (pretty n).
Proof.
  unfold pretty, pretty_N. case_decide.
  - repeat constructor. done.
  - apply allDigits_pretty_N_go. constructor.
Qed.

Lemma digit_not_space_sign (c : ascii) :
  is_Some (digit c) → Ascii.is_space c = false ∧ c ≠ "-"%char ∧ c ≠ "+"%char.
Proof.
  intros [d Hd].
  destruct c as [[] [] [] [] [] [] [] []]; (discriminate Hd || done).
Qed.

Lemma parseInt_digits (s : string) :
  allDigits s → parseInt s = from_option roundInt NaN (parseDigits None s).
Proof.
  destruct s as [|c r]; [done|]. intros Hs. inversion_clear Hs as [|? ? Hc _].
  destruct (digit_not_space_sign c Hc) as (Hsp & Hm & Hp).
  unfold parseInt. simpl. rewrite Hsp.
  destruct c as [[] [] [] [] [] [] [] []]; done.
Qed.

(** A decimal numeral is read as the double nearest to the number. *)
Lemma parseInt_pretty (n : N) : parseInt (pretty n) = roundInt (Z.of_N n).
Proof.
  rewrite parseInt_digits by apply allDigits_pretty.
  unfold pretty, pretty_N. case_decide as Hn; [by subst|].
  destruct (parseDigits_pretty_N_go n) as (k & _ & Hk); [lia|].
  rewrite Hk. simpl. f_equal.
Qed.

(** An integer of magnitude below 2^53 is a double. *)
Lemma roundInt_safe (z : Z) : - 2 ^ 53 < z < 2 ^ 53 → roundInt z = Fin z.
Proof.
  intros Hz. unfold roundInt, roundNat. case_bool_decide as Hneg.
  - rewrite bool_decide_true by lia. cbn [neg]. f_equal. lia.
  - by rewrite bool_decide_true by lia.
Qed.

(** The conversion agrees with the one of machine doubles, here around 2^53,
    at ties to both sides, and up to 2^63 - 1. *)
Example roundInt_machine :
  (λ z, Machine.valueOf (Machine.ofInt z))
  <$> [0; 1; 9007199254740991; 9007199254740992; 9007199254740993;
       9007199254740994; 9007199254740995; 18014398509481986;
       18014398509481990; 123456789012345678; 9223372036854775807]
  = (λ z, Machine.valueOfNum (roundInt z))
    <$> [0; 1; 9007199254740991; 9007199254740992; 9007199254740993;
         9007199254740994; 9007199254740995; 18014398509481986;
         18014398509481990; 123456789012345678; 9223372036854775807].
Proof. vm_compute. reflexivity. Qed.

(** From 2^53 on, the nearest double is at least 2^53. *)
Lemma roundInt_large (z : Z) :
  2 ^ 53 ≤ z → roundInt z = Inf false ∨ ∃ v, roundInt z = Fin v ∧ 2 ^ 53 ≤ v.
Proof.
  intros Hz. unfold roundInt, roundNat.
  assert (H53 : 0 < 2 ^ 53) by done.
  rewrite bool_decide_false by lia. rewrite bool_decide_false by lia.
  set (e := Z.log2 z - 52).
  assert (Hlog : 53 ≤ Z.log2 z) by (apply Z.log2_le_pow2; lia).
  assert (He : 1 ≤ e) by (subst e; lia).
  assert (Hpow : 2 ^ 52 * 2 ^ e ≤ z).
  { rewrite <-Z.pow_add_r by lia. replace (52 + e) with (Z.log2 z) by (subst e; lia).
    apply Z.log2_spec. lia. }
  assert (H2e : 2 ≤ 2 ^ e).
  { change 2 with (2 ^ 1) at 1. apply Z.pow_le_mono_r; lia. }
  assert (Hq : 2 ^ 52 ≤ z / 2 ^ e) by (apply Z.div_le_lower_bound; lia).
  set (q := z / 2 ^ e) in *.
  match goal with
  | |- context [if ?b then q + 1 else q] => set (q' := if b then q + 1 else q)
  end.
  assert (Hq' : q ≤ q').
  { subst q'. match goal with |- context [if ?b then _ else _] => destruct b end; lia. }
  case_bool_decide; [|by left]. right. eexists. split; [done|].
  change (2 ^ 53) with (2 ^ 52 * 2). change (2 ^ 52) with 4503599627370496 in *. nia.
Qed.

(** A natural number up to 2^53 prints its digits. *)
Lemma toString_safe (z : Z) : 0 ≤ z ≤ 2 ^ 53 → toString (Fin z) = pretty z.
Proof.
  intros Hz. unfold toString, digitsOf.
  rewrite bool_decide_false by lia. by rewrite bool_decide_true by lia.
Qed.

Lemma pretty_Z_of_N (n : N) : pretty (Z.of_N n) = pretty n.
Proof. by destruct n. Qed.

Lemma pretty_N_go_nonempty (x : N) (s : string) : s ≠ "" → pretty_N_go x s ≠ "".
Proof.
  revert s. induction x as [x IH] using (well_founded_induction N.lt_wf_0). intros s Hs.
  destruct (decide (x = 0)%N) as [->|Hx]; [by rewrite pretty_N_go_0|].
  rewrite pretty_N_go_step by lia. apply IH; [apply N.div_lt; lia|done].
Qed.

Lemma truthy_pretty (n : N) : truthyStr (Some (pretty n)) = true.
Proof.
  assert (pretty n ≠ "") as Hne.
  { unfold pretty, pretty_N. case_decide; [done|].
    rewrite pretty_N_go_step by lia. by apply pretty_N_go_nonempty. }
  simpl. by destruct (pretty n).
Qed.

End JsFacts.

(** ** The video route *)

Section RouteFacts.
Import Js VideoRoute Spec.

Lemma readSpan_lookup {A} (content : list A) (start last : Z) (i : nat) :
  0 ≤ start →
  readSpan content start last !! i
  = if bool_decide (Z.of_nat i ≤ last - start) then content !! (Z.to_nat start + i)%nat
    else None.
Proof.
  intros Hs. unfold readSpan. case_bool_decide as Hi.
  - rewrite lookup_take_lt by lia. by rewrite lookup_drop.
  - apply lookup_take_ge. lia.
Qed.

Lemma range_parts (start : N) (end_ : option N) :
  split "-" (replaceFirst "bytes=" "" (default "" (Some (rangeValue start end_))))
  = [pretty start; if end_ is Some e then pretty e else ""].
Proof.
  unfold rangeValue, default, from_option, id. rewrite replaceFirst_prefix.
  change ("" +:+ ?s) with s.
  change ("-" +:+ ?s) with (String "-" s).
  rewrite split_digits_dash by apply allDigits_pretty. f_equal.
  destruct end_ as [e|]; [|done].
  apply split_digits, allDigits_pretty.
Qed.

(** The answer to a well-formed [Range] header, in closed form, for a
    file and an [end] below 2^53. *)
Lemma respond_range (absPath : string) (size start : N) (end_ : option N) :
  (size < 2 ^ 53)%N → (default 0%N end_ < 2 ^ 53)%N →
  let last := default (Z.of_N size - 1) (Z.of_N <$> end_) in
  respond absPath (roundInt (Z.of_N size)) (Some (rangeValue start end_))
  = Some
      (if bool_decide (Z.of_N start < Z.of_N size ∧ Z.of_N start ≤ last) then
         {| status := 206;
            headers :=
              [("Content-Range",
                 "bytes " +:+ pretty start +:+ "-" +:+ pretty last +:+ "/" +:+ pretty size);
               ("Accept-Ranges", "bytes");
               ("Content-Length", pretty (last - Z.of_N start + 1));
               ("Content-Type",
                 default "video/mp4" (assoc (toLowerCase (Path.extname absPath)) MIME))];
            body := BodyStream absPath (Some (Z.of_N start, Some last)) |}
       else
         {| status := 416;
            headers := [("Content-Range", "bytes */" +:+ pretty size)];
            body := BodyNull |}).
Proof.
  intros Hsize Hend last. unfold respond.
  assert (H53 : Z.of_N (2 ^ 53) = 2 ^ 53) by done.
  rewrite range_parts. change (truthyStr (Some (rangeValue start end_))) with true.
  cbn [lookup list_lookup default from_option id].
  rewrite parseInt_pretty, (roundInt_safe (Z.of_N size)) by lia.
  assert ((if truthyStr (Some (if end_ is Some e then pretty e else ""))
           then parseInt (if end_ is Some e then pretty e else "")
           else sub (Fin (Z.of_N size)) (Fin 1)) = Fin last) as ->.
  { subst last. destruct end_ as [e|]; cbn [default from_option id fmap option_fmap option_map] in *.
    - rewrite truthy_pretty, parseInt_pretty. apply roundInt_safe. lia.
    - change (truthyStr (Some "")) with false. cbn iota.
      unfold sub, neg, add. change (Z.of_N size + - (1)) with (Z.of_N size - 1).
      apply roundInt_safe. lia. }
  assert (Hlast : -1 ≤ last < 2 ^ 53).
  { subst last. destruct end_ as [e|]; cbn [default from_option id fmap option_fmap option_map] in *; lia. }
  rewrite (toString_safe (Z.of_N size)), pretty_Z_of_N by lia.
  destruct (decide (Z.of_N start < 2 ^ 53)) as [Hstart|Hstart].
  - rewrite (roundInt_safe (Z.of_N start)) by lia.
    cbn [isNaN ge lt orb].
    destruct (decide (Z.of_N start < Z.of_N size ∧ Z.of_N start ≤ last)) as [Hok|Hok].
    + destruct Hok as [Hlt Hle].
      rewrite (bool_decide_true (_ ∧ _)) by done.
      rewrite (bool_decide_true (Z.of_N start < Z.of_N size)) by done.
      rewrite (bool_decide_false (last < Z.of_N start)) by lia. cbn [negb orb].
      unfold createReadStream, validateInteger, MAX_SAFE_INTEGER.
      rewrite (bool_decide_true (0 ≤ Z.of_N start ≤ 2 ^ 53 - 1)) by lia.
      rewrite (bool_decide_true (0 ≤ last ≤ 2 ^ 53 - 1)) by lia.
      cbn [mbind option_bind].
      rewrite (bool_decide_false (last < Z.of_N start)) by lia. cbn [mbind option_bind].
      assert (sub (Fin last) (Fin (Z.of_N start)) = Fin (last - Z.of_N start)) as ->.
      { unfold sub, neg, add. replace (last + - Z.of_N start) with (last - Z.of_N start) by lia.
        apply roundInt_safe. lia. }
      assert (add (Fin (last - Z.of_N start)) (Fin 1) = Fin (last - Z.of_N start + 1)) as ->.
      { unfold add, roundInt, roundNat. rewrite bool_decide_false by lia.
        case_bool_decide; [done|].
        assert (last - Z.of_N start + 1 = 2 ^ 53) as -> by lia. reflexivity. }
      rewrite !toString_safe, pretty_Z_of_N by lia. done.
    + rewrite (bool_decide_false (_ ∧ _)) by done.
      destruct (bool_decide (Z.of_N start < Z.of_N size)) eqn:Hlt; cbn [negb orb]; [|done].
      apply bool_decide_eq_true in Hlt.
      rewrite (bool_decide_true (last < Z.of_N start)) by lia. done.
  - rewrite (bool_decide_false (_ ∧ _)) by lia.
    destruct (roundInt_large (Z.of_N start)) as [->|(v & -> & Hv)]; [lia| |].
    + done.
    + cbn [isNaN ge lt orb]. by rewrite (bool_decide_false (v < Z.of_N size)) by lia.
Qed.

(** Once the path is accepted and [stat] has answered, [GET] is [respond]. *)
Lemma GET_respond (cfg : Config) (statSize : string → option N) (req : Request)
    (relPath absPath : string) (size : N) :
  pathParam req = Some relPath → relPath ≠ "" →
  PathUtils.resolveSafePath cfg relPath = Some absPath →
  statSize absPath = Some size →
  GET cfg statSize req = respond absPath (roundInt (Z.of_N size)) (rangeHeader req).
Proof.
  intros Hp Hne Hsafe Hstat. unfold GET. rewrite Hp.
  destruct relPath; [done|]. by rewrite Hsafe, Hstat.
Qed.

(** C5.  A video fetch of a file of [size] bytes, sizes and offsets being
    below 2^53.  Without a [Range] header the answer is 200 with
    [Content-Length: size] and [Accept-Ranges: bytes], and the body is the
    whole file.  With [Range: bytes=start-end] ([end] optional, the last byte
    of the file by default), when [start < size] and [start ≤ end] the answer
    is 206 with [Content-Range: bytes start-end/size] and
    [Content-Length: end-start+1], and the body is made of the bytes of the
    file at the positions [start] to [end]; otherwise it is 416 with
    [Content-Range: bytes */size] and no body. *)
Theorem C5_video_fetch (cfg : Config) (statSize : string → option N) (req : Request)
    (relPath absPath : string) (size : N) :
  pathParam req = Some relPath → relPath ≠ "" →
  PathUtils.resolveSafePath cfg relPath = Some absPath →
  statSize absPath = Some size →
  (size < 2 ^ 53)%N →
  (rangeHeader req = None →
     ∃ resp, GET cfg statSize req = Some resp
       ∧ status resp = 200
       ∧ header "Content-Length" resp = Some (pretty size)
       ∧ header "Accept-Ranges" resp = Some "bytes"
       ∧ ∀ content : list Byte.byte, bodyBytes content (body resp) = content)
  ∧ (∀ (start : N) (end_ : option N),
       rangeHeader req = Some (rangeValue start end_) →
       (default 0%N end_ < 2 ^ 53)%N →
       let last := default (Z.of_N size - 1) (Z.of_N <$> end_) in
       ∃ resp, GET cfg statSize req = Some resp
         ∧ if bool_decide (Z.of_N start < Z.of_N size ∧ Z.of_N start ≤ last) then
             status resp = 206
             ∧ header "Content-Range" resp
               = Some ("bytes " +:+ pretty start +:+ "-" +:+ pretty last
                       +:+ "/" +:+ pretty size)
             ∧ header "Content-Length" resp = Some (pretty (last - Z.of_N start + 1))
             ∧ ∀ (content : list Byte.byte) (i : nat),
                 bodyBytes content (body resp) !! i
                 = if bool_decide (Z.of_nat i ≤ last - Z.of_N start)
                   then content !! (N.to_nat start + i)%nat else None
           else
             status resp = 416
             ∧ header "Content-Range" resp = Some ("bytes */" +:+ pretty size)
             ∧ body resp = BodyNull).
Proof.
  intros Hp Hne Hsafe Hstat Hsize.
  rewrite (GET_respond cfg statSize req relPath absPath size) by done.
  assert (H53 : Z.of_N (2 ^ 53) = 2 ^ 53) by done.
  split.
  - intros ->. unfold respond. cbn [truthyStr].
    rewrite roundInt_safe, toString_safe, pretty_Z_of_N by lia.
    eexists. split; [reflexivity|]. by repeat split.
  - intros start end_ -> Hend last. rewrite respond_range by done. fold last.
    eexists. split; [reflexivity|].
    case_bool_decide as Hok; [|done].
    repeat split. intros content i. simpl.
    rewrite readSpan_lookup by lia.
    by replace (Z.to_nat (Z.of_N start)) with (N.to_nat start) by lia.
Qed.

Lemma C5_video_fetch_witness :
  ∃ resp, GET Sample.cfg Sample.statSize Sample.request = Some resp
    ∧ status resp = 206
    ∧ header "Content-Range" resp = Some "bytes 200-299/1000"
    ∧ header "Content-Length" resp = Some "100".
Proof.
  destruct (C5_video_fetch Sample.cfg Sample.statSize Sample.request
              "films/a.mkv" "/srv/videos/films/a.mkv" 1000%N)
    as (_ & Hrange); [reflexivity|discriminate|reflexivity|reflexivity|reflexivity|].
  destruct (Hrange 200%N (Some 299%N) eq_refl eq_refl) as (resp & Hget & Hst & Hcr & Hcl & _).
  exists resp. exact (conj Hget (conj Hst (conj Hcr Hcl))).
Defined.

(** The figures of the specification, for a file of 1000 bytes. *)
Example range_200_299 (absPath : string) :
  ∃ resp, respond absPath (Fin 1000) (Some "bytes=200-299") = Some resp
    ∧ status resp = 206 ∧ header "Content-Length" resp = Some "100"
    ∧ header "Content-Range" resp = Some "bytes 200-299/1000".
Proof. by eexists. Qed.

Example range_2000_open (absPath : string) :
  ∃ resp, respond absPath (Fin 1000) (Some "bytes=2000-") = Some resp
    ∧ status resp = 416 ∧ header "Content-Range" resp = Some "bytes */1000"
    ∧ body resp = BodyNull.
Proof. by eexists. Qed.

Example no_range (absPath : string) :
  ∃ resp, respond absPath (Fin 1000) None = Some resp
    ∧ status resp = 200 ∧ header "Content-Length" resp = Some "1000".
Proof. by eexists. Qed.

(** Past 2^53 - 1 the bound is needed.  The numeral 9007199254740993 is read
    as the double 9007199254740992, which the read stream refuses as [end]:
    the handler rejects, with neither 206 nor 416.  A numeral too long for a
    double is read as [Infinity], which the read stream takes for the end of
    the file. *)
Example range_end_unsafe (absPath : string) :
  parseInt "9007199254740993" = Fin 9007199254740992
  ∧ respond absPath (Fin 1000) (Some "bytes=0-9007199254740993") = None
  ∧ respond absPath (Fin 1000) (Some "bytes=0-x") = None.
Proof. by vm_compute. Qed.

(** C10.  A range whose [end] lies at or past the end of the file (and below
    2^53) is served, not refused: 206, [Content-Range] with the [end] as
    sent, and a [Content-Length] of [end - start + 1], which is more than the
    [size - start] bytes the body can deliver. *)
Theorem C10_range_end_not_clamped (cfg : Config) (statSize : string → option N)
    (req : Request) (relPath absPath : string) (size start end_ : N) :
  pathParam req = Some relPath → relPath ≠ "" →
  PathUtils.resolveSafePath cfg relPath = Some absPath →
  statSize absPath = Some size →
  rangeHeader req = Some (rangeValue start (Some end_)) →
  (start < size)%N → (size ≤ end_)%N → (end_ < 2 ^ 53)%N →
  ∃ resp, GET cfg statSize req = Some resp
    ∧ status resp = 206
    ∧ header "Content-Range" resp
      = Some ("bytes " +:+ pretty start +:+ "-" +:+ pretty end_ +:+ "/" +:+ pretty size)
    ∧ header "Content-Length" resp = Some (pretty (Z.of_N end_ - Z.of_N start + 1))
    ∧ ∀ content : list Byte.byte,
        length content = N.to_nat size →
        length (bodyBytes content (body resp)) = N.to_nat (size - start)
        ∧ Z.of_N (size - start) < Z.of_N end_ - Z.of_N start + 1.
Proof.
  intros Hp Hne Hsafe Hstat Hrange Hlt Hle Hend.
  rewrite (GET_respond cfg statSize req relPath absPath size) by done.
  rewrite Hrange, respond_range by (done || lia). simpl default.
  rewrite bool_decide_true by lia. rewrite pretty_Z_of_N.
  eexists. split; [reflexivity|].
  repeat split; [|lia].
  simpl. unfold readSpan. rewrite length_take, length_drop. lia.
Qed.

Lemma C10_range_end_not_clamped_witness :
  ∃ resp, GET Sample.cfg Sample.statSize Sample.requestPast = Some resp
    ∧ status resp = 206
    ∧ header "Content-Range" resp = Some "bytes 500-5000/1000"
    ∧ header "Content-Length" resp = Some "4501".
Proof.
  destruct (C10_range_end_not_clamped Sample.cfg Sample.statSize Sample.requestPast
              "films/a.mkv" "/srv/videos/films/a.mkv" 1000%N 500%N 5000%N)
    as (resp & Hget & Hst & Hcr & Hcl & _);
    [reflexivity|discriminate|reflexivity|reflexivity|reflexivity|reflexivity|
     discriminate|reflexivity|].
  exists resp. exact (conj Hget (conj Hst (conj Hcr Hcl))).
Defined.

End RouteFacts.

(** ** The indexing orchestrator *)

Section IndexFacts.
Import VideoIndex Spec.

Lemma truthy_false (d : option Qc) : truthy d = false ↔ d = None ∨ d = Some 0%Qc.
Proof.
  destruct d as [q|]; simpl; [|by split; [left|]].
  case_bool_decide as Hq; simpl.
  - subst q. by split; [right|].
  - split; [done|]. intros [|[= ->]]; done.
Qed.

(** The decision of the scan loop, in closed form. *)
Lemma needsUpdate_spec (existing : option Row) (thumbExists : bool) (updated : Z) :
  needsUpdate false existing thumbExists updated = true
  ↔ existing = None
    ∨ ∃ e, existing = Some e
        ∧ (default 0 (updatedAt e) < updated
           ∨ (thumbError e ≠ Some 1 ∧ (thumbExists = false ∨ truthy (duration e) = false))).
Proof.
  unfold needsUpdate. destruct existing as [e|]; simpl; [|by split; [left|]].
  rewrite orb_true_iff, andb_true_iff, orb_true_iff, !negb_true_iff.
  rewrite bool_decide_eq_false, bool_decide_eq_true.
  split.
  - intros H. right. exists e. split; [done|]. tauto.
  - intros [|(e' & [= <-] & H)]; [done|]. tauto.
Qed.

Lemma marked_needsUpdate (cfg : Config) (rt : Runtime) (st : State) (file : VideoFile) :
  marked cfg rt st file
  ↔ needsUpdate false (db st !! rel file)
      (fileExists (fs st) (Path.join2 (thumbsDir cfg) (getThumbRelPath rt (rel file))))
      (floor (mtimeMs (stat file))) = true.
Proof.
  unfold marked, scanFile, taskOf. cbn [t_updatedAt t_thumbRel].
  match goal with |- context [needsUpdate ?a ?b ?c ?d] => destruct (needsUpdate a b c d) end;
    split; (done || by intros []).
Qed.

(** The rule applied by the scan loop. *)
Lemma marked_rule (cfg : Config) (rt : Runtime) (st : State) (file : VideoFile) :
  marked cfg rt st file
  ↔ db st !! rel file = None
    ∨ ∃ e, db st !! rel file = Some e
        ∧ (stale e file
           ∨ (thumbError e ≠ Some 1
              ∧ (¬ thumbArtifact cfg rt st file
                 ∨ duration e = None ∨ duration e = Some 0%Qc))).
Proof.
  assert (Hex : fileExists (fs st)
                  (Path.join2 (thumbsDir cfg) (getThumbRelPath rt (rel file))) = false
                ↔ ¬ thumbArtifact cfg rt st file).
  { unfold fileExists, thumbArtifact. apply bool_decide_eq_false. }
  rewrite marked_needsUpdate, needsUpdate_spec.
  setoid_rewrite Hex. setoid_rewrite truthy_false. done.
Qed.

(** C1, as amended.  A file met by the scan is marked for (re)indexing
    exactly when there is no row for its relative path, or its modification
    time in whole milliseconds exceeds the stored [updatedAt], or the row has
    no failure flag and either the thumbnail artifact is missing or the stored
    duration is null or 0.  For a row whose [thumbError] is set, only the
    modification time decides. *)
Theorem C1_needs_indexing (cfg : Config) (rt : Runtime) (st : State) (file : VideoFile) :
  (marked cfg rt st file
   ↔ db st !! rel file = None
     ∨ ∃ e, db st !! rel file = Some e
         ∧ (stale e file
            ∨ (thumbError e ≠ Some 1
               ∧ (¬ thumbArtifact cfg rt st file
                  ∨ duration e = None ∨ duration e = Some 0%Qc))))
  ∧ (∀ e, db st !! rel file = Some e → thumbError e = Some 1 →
       (marked cfg rt st file ↔ stale e file)).
Proof.
  split; [apply marked_rule|].
  intros e He Herr. rewrite marked_needsUpdate, needsUpdate_spec, He.
  unfold stale. split.
  - intros [|(e' & [= <-] & [|[]])]; done.
  - intros Hs. right. exists e. split; [done|]. by left.
Qed.

Lemma C1_needs_indexing_witness :
  let st := stateOf (buildIndex Sample.cfg Sample.rt false
                       [Sample.fileAt "corrupt.mp4" 100] Sample.emptyState) in
  (∃ e, db st !! "corrupt.mp4" = Some e ∧ thumbError e = Some 1)
  ∧ marked Sample.cfg Sample.rt st (Sample.fileAt "corrupt.mp4" 200)
  ∧ ¬ marked Sample.cfg Sample.rt st (Sample.fileAt "corrupt.mp4" 100).
Proof.
  intros st.
  assert (He : db st !! "corrupt.mp4"
               = Some {| path := "corrupt.mp4"; folder := ""; name := "corrupt";
                         duration := None; createdAt := None; thumb := None;
                         updatedAt := Some 100; thumbError := Some 1 |})
    by (vm_compute; reflexivity).
  split; [eexists; split; [exact He|reflexivity]|]. split.
  - apply (proj2 (C1_needs_indexing Sample.cfg Sample.rt st
                    (Sample.fileAt "corrupt.mp4" 200)) _ He eq_refl).
    reflexivity.
  - intros Hm.
    apply (proj2 (C1_needs_indexing Sample.cfg Sample.rt st
                    (Sample.fileAt "corrupt.mp4" 100)) _ He eq_refl) in Hm.
    vm_compute in Hm. discriminate Hm.
Defined.

(** The state met by the scan after a pass that indexed [zero.mp4], a file
    for which [ffprobe] reports 0 seconds. *)
Lemma C1_counterexample :
  let file := Sample.fileAt "zero.mp4" 100 in
  let st := stateOf (buildIndex Sample.cfg Sample.rt false [file] Sample.emptyState) in
  ¬ (marked Sample.cfg Sample.rt st file ↔ ruleAsSpecified Sample.cfg Sample.rt st file).
Proof.
  intros file st [Hmarked _].
  assert (Hm : marked Sample.cfg Sample.rt st file) by (vm_compute; eauto).
  destruct (Hmarked Hm) as [Hnone|(e & He & Hrule)].
  - vm_compute in Hnone. discriminate Hnone.
  - assert (Hrow : db st !! rel file
                   = Some {| path := "zero.mp4"; folder := ""; name := "zero";
                             duration := Some (Q2Qc 0); createdAt := Some 1600000000000;
                             thumb := Some (getThumbRelPath Sample.rt "zero.mp4");
                             updatedAt := Some 100; thumbError := Some 0 |})
      by (vm_compute; reflexivity).
    rewrite Hrow in He. injection He as <-.
    destruct Hrule as [Hstale|(_ & [Hthumb|Hdur])].
    + vm_compute in Hstale. discriminate Hstale.
    + apply Hthumb. vm_compute. eauto.
    + discriminate Hdur.
Qed.

(** *** The two write statements *)

Lemma insertOnConflict_lookup (update : Row → Row → Row) (excluded : Row)
    (d : gmap string Row) :
  insertOnConflict update excluded d !! path excluded
  = Some (match d !! path excluded with
          | Some old => update old excluded
          | None => excluded
          end).
Proof. unfold insertOnConflict. destruct (d !! path excluded); apply lookup_insert_eq. Qed.

Lemma insertOnConflict_lookup_ne (update : Row → Row → Row) (excluded : Row)
    (d : gmap string Row) (p : string) :
  p ≠ path excluded → insertOnConflict update excluded d !! p = d !! p.
Proof.
  intros Hp. unfold insertOnConflict.
  destruct (d !! path excluded); by apply lookup_insert_ne.
Qed.

(** The failure statement on a path that has a row: the watermark, the flag
    and the thumbnail path are replaced, every other column is kept. *)
Lemma upsertFailure_conflict (relPath folderName baseName : string) (updated : Z)
    (d : gmap string Row) (old : Row) :
  d !! relPath = Some old →
  upsertFailure relPath folderName baseName updated d !! relPath
  = Some {| path := relPath; folder := folder old; name := name old;
            duration := duration old; createdAt := createdAt old; thumb := None;
            updatedAt := Some updated; thumbError := Some 1 |}.
Proof.
  intros Hold. unfold upsertFailure.
  rewrite (insertOnConflict_lookup _ {| path := relPath |}). cbn [path].
  by rewrite Hold.
Qed.

(** The failure statement on a new path: the row of the [VALUES] clause. *)
Lemma upsertFailure_fresh (relPath folderName baseName : string) (updated : Z)
    (d : gmap string Row) :
  d !! relPath = None →
  upsertFailure relPath folderName baseName updated d !! relPath
  = Some {| path := relPath; folder := folderName; name := baseName;
            duration := None; createdAt := None; thumb := None;
            updatedAt := Some updated; thumbError := Some 1 |}.
Proof.
  intros Hnew. unfold upsertFailure.
  rewrite (insertOnConflict_lookup _ {| path := relPath |}). cbn [path].
  by rewrite Hnew.
Qed.

(** What does hold of failure rows in every reachable table: the thumbnail
    path is null. *)
Lemma reachable_failure_thumb (d : gmap string Row) :
  reachable d →
  ∀ p r, d !! p = Some r → thumbError r = Some 1 → thumb r = None.
Proof.
  induction 1 as [|excluded d Hzero _ IH|relPath folderName baseName updated d _ IH];
    intros p r Hr Herr.
  - by rewrite lookup_empty in Hr.
  - unfold upsertSuccess in Hr. destruct (decide (p = path excluded)) as [->|Hp].
    + rewrite insertOnConflict_lookup in Hr. injection Hr as <-.
      destruct (d !! path excluded); simpl in Herr; congruence.
    + rewrite insertOnConflict_lookup_ne in Hr by done. eauto.
  - unfold upsertFailure in Hr. destruct (decide (p = relPath)) as [->|Hp].
    + rewrite (insertOnConflict_lookup _ {| path := relPath |}) in Hr.
      injection Hr as <-. simpl. by destruct (d !! relPath).
    + rewrite (insertOnConflict_lookup_ne _ {| path := relPath |}) in Hr by done. eauto.
Qed.

(** C2 at its failing input: a success write for [a.mp4] followed by a
    failure write for the same path leaves a row with [thumbError = 1] that
    still carries the duration and the creation time of the success, so the
    invariant of the specification does not hold in this reachable table. *)
Theorem C2_failure_over_success :
  let good :=
    {| path := "a.mp4"; folder := ""; name := "a"; duration := Some (Q2Qc (25 # 2));
       createdAt := Some 1600000000000; thumb := Some "thumbs/0123456789abcdef.jpg";
       updatedAt := Some 100; thumbError := Some 0 |} in
  let d := upsertFailure "a.mp4" "" "a" 200 (upsertSuccess good ∅) in
  reachable d
  ∧ d !! "a.mp4"
    = Some {| path := "a.mp4"; folder := ""; name := "a";
              duration := Some (Q2Qc (25 # 2)); createdAt := Some 1600000000000;
              thumb := None; updatedAt := Some 200; thumbError := Some 1 |}
  ∧ ¬ failureWipesDerived d.
Proof.
  intros good d.
  assert (Hrow : d !! "a.mp4"
                 = Some {| path := "a.mp4"; folder := ""; name := "a";
                           duration := Some (Q2Qc (25 # 2));
                           createdAt := Some 1600000000000;
                           thumb := None; updatedAt := Some 200; thumbError := Some 1 |})
    by (vm_compute; reflexivity).
  split; [|split; [exact Hrow|]].
  - apply reach_failure, reach_success; [done|constructor].
  - intros Hinv. destruct (Hinv _ _ Hrow eq_refl) as [Hdur _]. discriminate Hdur.
Qed.

(** The same table arises from two passes of [buildIndex] over one file:
    indexed with success, then modified and indexed with failure. *)
Lemma failed_reindex_keeps_duration :
  let st1 := stateOf (buildIndex Sample.cfg Sample.rt false
                        [Sample.fileAt "a.mp4" 100] Sample.emptyState) in
  let st2 := stateOf (buildIndex Sample.cfg Sample.rtBroken false
                        [Sample.fileAt "a.mp4" 200] st1) in
  ∃ r, db st2 !! "a.mp4" = Some r
    ∧ thumbError r = Some 1 ∧ thumb r = None ∧ updatedAt r = Some 200
    ∧ duration r = Some (Q2Qc (25 # 2)) ∧ createdAt r = Some 1600000000000.
Proof. vm_compute. eexists. repeat split. Qed.

(** *** One task *)

Lemma probeDuration_none (rt : Runtime) (filePath : string) :
  probeDuration rt filePath = None
  ↔ ffprobe rt filePath = None
    ∨ ∃ out, ffprobe rt filePath = Some out ∧ ∀ q, parseFloat rt (trim out) ≠ Finite q.
Proof.
  unfold probeDuration. destruct (ffprobe rt filePath) as [out|]; [|by split; [left|]].
  split.
  - intros H. right. exists out. split; [done|]. intros q Hq. by rewrite Hq in H.
  - intros [|(out' & [= <-] & H)]; [done|].
    destruct (parseFloat rt (trim out)) as [q| |]; [|done..]. by destruct (H q).
Qed.

(** Without a duration the thumbnail is made in fixed mode. *)
Lemma makeThumbnail_fixed (cfg : Config) (rt : Runtime) (inputPath outputPath : string)
    (files : gmap string N) :
  makeThumbnail cfg rt inputPath outputPath None files
  = if mkdirOk rt (Path.dirname outputPath) then
      match ffmpeg rt "00:00:01" inputPath outputPath with
      | Some size => (true, <[outputPath := size]> files)
      | None => (false, files)
      end
    else (false, files).
Proof. unfold makeThumbnail. by destruct (mkdirOk rt _). Qed.

(** [indexSingle] never rejects, hence neither does a run of tasks. *)
Lemma indexSingle_fulfilled (cfg : Config) (rt : Runtime) (t : Task) (st : State) :
  ∃ st', indexSingle cfg rt t st = Fulfilled st'.
Proof. unfold indexSingle. destruct (makeThumbnail _ _ _ _ _ _) as [[] ?]; eauto. Qed.

Lemma runWithConcurrency_fulfilled (cfg : Config) (rt : Runtime) (tasks : list Task)
    (st : State) :
  ∃ st', runWithConcurrency cfg rt tasks st = Fulfilled st'.
Proof.
  revert st. induction tasks as [|t rest IH]; intros st; simpl; [eauto|].
  destruct (indexSingle_fulfilled cfg rt t st) as [st' ->]. apply IH.
Qed.

(** C4, as amended.  When the duration extraction of a file fails or yields a
    non-finite value, the duration is null and the thumbnail is made in fixed
    mode.  If that extraction succeeds the row is written by the success
    statement: [thumbError = 0], null duration.  If it fails the row is
    written by the failure statement: [thumbError = 1], null thumbnail, and a
    null duration when the row is new.  In both cases [indexSingle] is
    fulfilled and the run goes on with the remaining tasks. *)
Theorem C4_probe_failure (cfg : Config) (rt : Runtime) (t : Task) (st : State) :
  (ffprobe rt (t_abs t) = None
   ∨ ∃ out, ffprobe rt (t_abs t) = Some out
       ∧ ∀ q, parseFloat rt (trim out) ≠ Finite q) →
  let thumbAbs := Path.join2 (thumbsDir cfg) (t_thumbRel t) in
  let extracted :=
    mkdirOk rt (Path.dirname thumbAbs)
    && bool_decide (is_Some (ffmpeg rt "00:00:01" (t_abs t) thumbAbs)) in
  (∃ st' r, indexSingle cfg rt t st = Fulfilled st'
     ∧ db st' !! t_rel t = Some r
     ∧ updatedAt r = Some (t_updatedAt t)
     ∧ if extracted
       then thumbError r = Some 0 ∧ duration r = None ∧ thumb r = Some (t_thumbRel t)
       else thumbError r = Some 1 ∧ thumb r = None
            ∧ (db st !! t_rel t = None → duration r = None))
  ∧ ∀ rest, ∃ st'', runWithConcurrency cfg rt (t :: rest) st = Fulfilled st''.
Proof.
  intros Hprobe%probeDuration_none thumbAbs extracted.
  split; [|intros rest; apply runWithConcurrency_fulfilled].
  unfold indexSingle. rewrite Hprobe, makeThumbnail_fixed. fold thumbAbs.
  subst extracted. destruct (mkdirOk rt (Path.dirname thumbAbs)); cbn [andb].
  - destruct (ffmpeg rt "00:00:01" (t_abs t) thumbAbs) as [size|] eqn:Hff.
    + rewrite bool_decide_true by eauto.
      eexists _, _. split; [done|]. cbn [db]. unfold upsertSuccess.
      rewrite (insertOnConflict_lookup _ {| path := t_rel t |}).
      split; [done|]. cbn [path]. by destruct (db st !! t_rel t).
    + rewrite bool_decide_false by by intros [].
      eexists _, _. split; [done|]. cbn [db]. unfold upsertFailure.
      rewrite (insertOnConflict_lookup _ {| path := t_rel t |}).
      split; [done|]. cbn [path]. by destruct (db st !! t_rel t).
  - eexists _, _. split; [done|]. cbn [db]. unfold upsertFailure.
    rewrite (insertOnConflict_lookup _ {| path := t_rel t |}).
    split; [done|]. cbn [path]. by destruct (db st !! t_rel t).
Qed.

Lemma C4_probe_failure_witness :
  let t := taskOf Sample.rt (Sample.fileAt "noprobe.mp4" 100) in
  ∃ st' r, indexSingle Sample.cfg Sample.rt t Sample.emptyState = Fulfilled st'
    ∧ db st' !! "noprobe.mp4" = Some r
    ∧ thumbError r = Some 0 ∧ duration r = None.
Proof.
  intros t.
  destruct (C4_probe_failure Sample.cfg Sample.rt t Sample.emptyState) as [H _].
  { left. reflexivity. }
  destruct H as (st' & r & Hidx & Hrow & _ & Hcase).
  vm_compute in Hcase. destruct Hcase as (Herr & Hdur & _).
  exists st', r. exact (conj Hidx (conj Hrow (conj Herr Hdur))).
Defined.

(** C4 as written fails on [noprobe.mp4]: the probe gives nothing, the frame
    at one second is extracted, and the row is a success row. *)
Lemma C4_counterexample :
  let t := taskOf Sample.rt (Sample.fileAt "noprobe.mp4" 100) in
  probeDuration Sample.rt (t_abs t) = None
  ∧ ∃ r, db (stateOf (indexSingle Sample.cfg Sample.rt t Sample.emptyState))
           !! "noprobe.mp4" = Some r
      ∧ thumbError r = Some 0 ∧ thumbError r ≠ Some 1.
Proof.
  intros t. split; [reflexivity|].
  eexists. split; [vm_compute; reflexivity|]. by split.
Qed.

End IndexFacts.

(** ** The thumbnail generator *)

Section ThumbFacts.
Import VideoIndex Spec.
Local Open Scope Qc_scope.

Lemma jsMax_l (a b : Qc) : a ≤ jsMax a b.
Proof. unfold jsMax. case_bool_decide; [by apply Qclt_le_weak|done]. Qed.

Lemma jsMax_r (a b : Qc) : b ≤ jsMax a b.
Proof. unfold jsMax. case_bool_decide; [done|by apply Qcnot_lt_le]. Qed.

(** [clampTime] puts every value into [[1, max(1, duration - 0.2)]], the
    difference being the one of doubles: the values of that interval are left
    as they are, a smaller one becomes the lower end and a larger one the
    upper end. *)
Lemma clampTime_spec (value duration : Qc) :
  0 < duration →
  let hi := jsMax 1 (double (duration - double (Q2Qc (1 # 5)))) in
  (1 ≤ clampTime value duration ≤ hi)
  ∧ (1 ≤ value ≤ hi → clampTime value duration = value)
  ∧ (value < 1 → clampTime value duration = 1)
  ∧ (hi < value → clampTime value duration = hi).
Proof.
  intros Hd hi. unfold clampTime.
  rewrite bool_decide_false by by apply Qclt_not_le.
  fold hi. assert (H1 : 1 ≤ hi) by apply jsMax_l.
  set (t := jsMin (jsMax value 1) hi).
  assert (Ht : (value < 1 ∧ t = 1) ∨ (1 ≤ value ∧ hi < value ∧ t = hi)
               ∨ (1 ≤ value ≤ hi ∧ t = value)).
  { subst t. unfold jsMin, jsMax. destruct (decide (value < 1)) as [Hv|Hv].
    - left. split; [done|]. rewrite (bool_decide_true (value < 1)) by done.
      rewrite bool_decide_false; [done|]. by apply Qcle_not_lt.
    - right. rewrite (bool_decide_false (value < 1)) by done.
      apply Qcnot_lt_le in Hv. case_bool_decide as Hhi; [by left|].
      right. by apply Qcnot_lt_le in Hhi. }
  destruct Ht as [[Hv ->]|[(Hv & Hhi & ->)|([Hv Hhi] & ->)]].
  - repeat split; try done.
    + intros [Hlo _]. by destruct (Qcle_not_lt _ _ Hlo).
    + intros Hlt. destruct (Qcle_not_lt _ _ H1). by trans value.
  - repeat split; try done.
    + intros [_ Hle]. by destruct (Qcle_not_lt _ _ Hle).
    + intros Hlt. by destruct (Qcle_not_lt _ _ Hv).
  - repeat split; try done.
    + intros Hlt. by destruct (Qcle_not_lt _ _ Hv).
    + intros Hlt. by destruct (Qcle_not_lt _ _ Hhi).
Qed.

Lemma extractAll_eq (rt : Runtime) (inputPath outputPath : string) (duration : Qc)
    (files : gmap string N) (index : nat) (ratios : list Qc) :
  extractAll rt inputPath outputPath duration files index ratios
  = (written files
       (imap (λ k ratio, attempt rt inputPath outputPath (index + k)
                           (clampTime (double (duration * ratio)) duration)) ratios),
     imap (λ k ratio, attempt rt inputPath outputPath (index + k)
                        (clampTime (double (duration * ratio)) duration)) ratios).
Proof.
  revert files index. induction ratios as [|ratio rest IH]; intros files index; [done|].
  cbn [extractAll imap]. rewrite Nat.add_0_r.
  assert (Hext : imap ((λ k ratio', attempt rt inputPath outputPath (index + k)
                          (clampTime (double (duration * ratio')) duration)) ∘ S) rest
               = imap (λ k ratio', attempt rt inputPath outputPath (S index + k)
                          (clampTime (double (duration * ratio')) duration)) rest).
  { apply imap_ext. intros k ratio' _. simpl. by rewrite Nat.add_succ_r. }
  rewrite Hext. unfold extractCandidate, attempt at 1 3.
  destruct (ffmpeg rt _ inputPath (tmpPath outputPath index)) as [size|].
  - rewrite lookup_insert_eq, IH. done.
  - rewrite IH. done.
Qed.

(** The settlements of the five callbacks of a smart-mode run. *)
Lemma smart_results (rt : Runtime) (inputPath outputPath : string) (duration : Qc)
    (files : gmap string N) :
  snd (extractAll rt inputPath outputPath duration files 0 picks)
  = imap (attempt rt inputPath outputPath) (candidateTimes duration).
Proof.
  rewrite extractAll_eq. cbn [snd]. unfold candidateTimes. by rewrite imap_fmap.
Qed.

(** [makeThumbnail] in smart mode, in closed form. *)
Lemma makeThumbnail_smart (cfg : Config) (rt : Runtime) (inputPath outputPath : string)
    (duration : Qc) (files : gmap string N) :
  smartThumb cfg = true → 0 < duration →
  mkdirOk rt (Path.dirname outputPath) = true →
  let '(files1, results) := extractAll rt inputPath outputPath duration files 0 picks in
  makeThumbnail cfg rt inputPath outputPath (Some duration) files
  = match promiseAll results with
    | None => (false, files1)
    | Some candidates =>
        match pickBest candidates with
        | None => (false, files1)
        | Some best =>
            if renameOk rt (c_path best) outputPath then
              (true,
               foldl (unlinkQuietly rt)
                 (<[outputPath := c_size best]> (delete (c_path best) files1))
                 (c_path <$> List.filter
                               (λ item, negb (bool_decide (c_path item = c_path best)))
                               candidates))
            else (false, files1)
        end
    end.
Proof.
  intros Hsmart Hd Hmk. unfold makeThumbnail. rewrite Hmk, Hsmart.
  assert (truthy (Some duration) && bool_decide (0 < duration) = true) as ->.
  { rewrite bool_decide_true by done. unfold truthy.
    rewrite bool_decide_false; [done|]. intros ->. by apply (Qclt_not_eq _ _ Hd). }
  cbn [negb orb default from_option id].
  by destruct (extractAll rt inputPath outputPath duration files 0 picks).
Qed.

(** C3, as amended.  In smart mode thumbnail generation is fulfilled exactly
    when all five candidate extractions succeed: the failure of a single one
    rejects the whole operation, the others notwithstanding.  (The creation
    of the directory and the final rename are taken to succeed.) *)
Theorem C3_smart_all_or_nothing (cfg : Config) (rt : Runtime)
    (inputPath outputPath : string) (duration : Qc) (files : gmap string N) :
  smartThumb cfg = true → 0 < duration →
  mkdirOk rt (Path.dirname outputPath) = true →
  (∀ src, renameOk rt src outputPath = true) →
  let results := snd (extractAll rt inputPath outputPath duration files 0 picks) in
  length results = 5%nat
  ∧ (fst (makeThumbnail cfg rt inputPath outputPath (Some duration) files) = true
     ↔ Forall is_Some results).
Proof.
  intros Hsmart Hd Hmk Hren results.
  pose proof (makeThumbnail_smart cfg rt inputPath outputPath duration files
                Hsmart Hd Hmk) as Hmt.
  subst results.
  destruct (extractAll rt inputPath outputPath duration files 0 picks)
    as [files1 results] eqn:Hall.
  assert (Hlen : length results = 5%nat).
  { pose proof (f_equal snd Hall) as Hsnd. rewrite smart_results in Hsnd.
    cbn [snd] in Hsnd. subst results. by rewrite length_imap. }
  cbn [snd]. split; [done|]. rewrite Hmt.
  unfold promiseAll. destruct (mapM id results) as [candidates|] eqn:Hm.
  - assert (Hsome : Forall is_Some results).
    { apply (mapM_is_Some_1 id). eauto. }
    assert (length candidates = 5%nat) as Hlc.
    { apply length_mapM in Hm. lia. }
    destruct candidates as [|first rest]; [done|].
    cbn [pickBest]. rewrite Hren. done.
  - split; [done|]. intros Hsome. apply (mapM_is_Some_2 id) in Hsome.
    rewrite Hm in Hsome. by destruct Hsome.
Qed.


Lemma C3_smart_all_or_nothing_witness :
  fst (makeThumbnail Sample.cfg Sample.rt "/srv/videos/a.mp4" Sample.thumbOut
         (Some (Q2Qc (25 # 2))) ∅) = true.
Proof.
  destruct (C3_smart_all_or_nothing Sample.cfg Sample.rt "/srv/videos/a.mp4"
              Sample.thumbOut (Q2Qc (25 # 2)) ∅) as [_ Hiff];
    [reflexivity|reflexivity|reflexivity|intros src; reflexivity|].
  apply Hiff. vm_compute. repeat constructor; eexists; reflexivity.
Defined.

(** C3 as written fails when one extraction out of five fails: four
    candidates are there and the operation is rejected. *)
Lemma C3_counterexample :
  let results :=
    snd (extractAll Sample.rtPartial "/srv/videos/a.mp4" Sample.thumbOut
           (Q2Qc (25 # 2)) ∅ 0 picks) in
  length (List.filter (λ r, bool_decide (is_Some r)) results) = 4%nat
  ∧ Exists is_Some results
  ∧ fst (makeThumbnail Sample.cfg Sample.rtPartial "/srv/videos/a.mp4" Sample.thumbOut
           (Some (Q2Qc (25 # 2))) ∅) = false.
Proof.
  split; [vm_compute; reflexivity|]. split; [|vm_compute; reflexivity].
  vm_compute. constructor. eexists. reflexivity.
Qed.

Lemma length_append (a b : string) :
  String.length (a +:+ b) = (String.length a + String.length b)%nat.
Proof. induction a as [|c a IH]; [done|]. rewrite append_cons. simpl. by rewrite IH. Qed.

Lemma tmpPath_ne_output (outputPath : string) (index : nat) :
  tmpPath outputPath index ≠ outputPath.
Proof.
  intros Heq%(f_equal String.length). unfold tmpPath in Heq.
  rewrite !length_append in Heq. simpl in Heq. lia.
Qed.

Lemma digits_cancel (a b r r' : string) :
  allDigits a → allDigits b → a +:+ String "." r = b +:+ String "." r' → a = b.
Proof.
  unfold allDigits. revert b. induction a as [|c a IH]; intros [|c' b] Ha Hb Heq.
  - done.
  - rewrite append_cons in Heq. injection Heq as <- _.
    inversion_clear Hb as [|? ? [? Hc] _]. discriminate Hc.
  - rewrite append_cons in Heq. injection Heq as -> _.
    inversion_clear Ha as [|? ? [? Hc] _]. discriminate Hc.
  - rewrite !append_cons in Heq. injection Heq as -> Heq.
    inversion_clear Ha. inversion_clear Hb. f_equal. eauto.
Qed.

Lemma tmpPath_inj (outputPath : string) (i j : nat) :
  tmpPath outputPath i = tmpPath outputPath j → i = j.
Proof.
  unfold tmpPath. intros Heq%(inj _)%(inj _).
  apply (inj (pretty : nat → string)).
  apply (digits_cancel _ _ "jpg" "jpg");
    [apply (allDigits_pretty (N.of_nat i))|apply (allDigits_pretty (N.of_nat j))|exact Heq].
Qed.

(** [pickBest] returns the first candidate among those of largest size. *)
Lemma pickBest_spec (candidates : list Candidate) (best : Candidate) :
  pickBest candidates = Some best →
  ∃ b, candidates !! b = Some best
    ∧ (∀ c, c ∈ candidates → (c_size c ≤ c_size best)%N)
    ∧ (∀ j c, (j < b)%nat → candidates !! j = Some c → (c_size c < c_size best)%N).
Proof.
  destruct candidates as [|first rest]; [done|]. cbn [pickBest]. intros [= <-].
  induction rest as [|x rest IH] using rev_ind.
  - exists 0%nat. cbn [foldl]. split; [done|]. split.
    + intros c ->%list_elem_of_singleton. done.
    + intros j c Hj. lia.
  - rewrite foldl_snoc. destruct IH as (b & Hb & Hmax & Hfirst).
    set (prev := foldl _ first rest) in *.
    assert (Hblt : (b < length (first :: rest))%nat) by by eapply lookup_lt_Some.
    case_bool_decide as Hlt.
    + exists (length (first :: rest)). split; [|split].
      * change (first :: rest ++ [x]) with ((first :: rest) ++ [x]).
        by rewrite list_lookup_middle.
      * change (first :: rest ++ [x]) with ((first :: rest) ++ [x]).
        intros c [Hc| ->%list_elem_of_singleton]%elem_of_app; [|done].
        specialize (Hmax c Hc). lia.
      * change (first :: rest ++ [x]) with ((first :: rest) ++ [x]).
        intros j c Hj Hc. rewrite lookup_app_l in Hc by done.
        apply list_elem_of_lookup_2 in Hc. specialize (Hmax c Hc). lia.
    + exists b. split; [|split].
      * change (first :: rest ++ [x]) with ((first :: rest) ++ [x]).
        by rewrite lookup_app_l.
      * change (first :: rest ++ [x]) with ((first :: rest) ++ [x]).
        intros c [Hc| ->%list_elem_of_singleton]%elem_of_app; [by apply Hmax|lia].
      * change (first :: rest ++ [x]) with ((first :: rest) ++ [x]).
        intros j c Hj Hc. rewrite lookup_app_l in Hc by lia. eauto.
Qed.

Lemma unlink_fold_lookup (rt : Runtime) (paths : list string) (files : gmap string N)
    (p : string) :
  foldl (unlinkQuietly rt) files paths !! p
  = if bool_decide (p ∈ paths) && unlinkOk rt p then None else files !! p.
Proof.
  revert files. induction paths as [|q rest IH]; intros files; [done|].
  cbn [foldl]. rewrite IH. unfold unlinkQuietly.
  destruct (decide (p = q)) as [->|Hpq].
  - rewrite (bool_decide_true (q ∈ q :: rest)) by left.
    destruct (unlinkOk rt q); cbn [andb].
    + rewrite lookup_delete_eq. by destruct (bool_decide _).
    + by rewrite andb_false_r.
  - rewrite (bool_decide_ext (p ∈ q :: rest) (p ∈ rest)) by (rewrite elem_of_cons; tauto).
    destruct (bool_decide (p ∈ rest) && unlinkOk rt p); [done|].
    destruct (unlinkOk rt q); [by rewrite lookup_delete_ne|done].
Qed.

Lemma picks_lookup (i : nat) (ratio : Qc) :
  picks !! i = Some ratio →
  (i < 5)%nat
  ∧ ratio = double ((Q2Qc (inject_Z (Z.of_nat i)) + Q2Qc (1 # 2)) / Q2Qc 5)%Qc.
Proof.
  unfold picks. rewrite list_lookup_fmap.
  destruct (seq 0 5 !! i) as [k|] eqn:Hk; [|done].
  apply lookup_seq in Hk as [-> Hi]. by intros [= <-].
Qed.

Lemma candidates_of_results (rt : Runtime) (inputPath outputPath : string)
    (duration : Qc) (files : gmap string N) (candidates : list Candidate) :
  snd (extractAll rt inputPath outputPath duration files 0 picks) = Some <$> candidates →
  length candidates = 5%nat
  ∧ ∀ i c, candidates !! i = Some c →
      ∃ time, candidateTimes duration !! i = Some time
        ∧ c_path c = tmpPath outputPath i
        ∧ ffmpeg rt (toFixed3 time) inputPath (tmpPath outputPath i) = Some (c_size c).
Proof.
  rewrite smart_results. intros Hres. split.
  - apply (f_equal length) in Hres. rewrite length_imap, length_fmap in Hres.
    by rewrite <-Hres.
  - intros i c Hc. apply (f_equal (λ l, l !! i)) in Hres.
    rewrite list_lookup_imap, list_lookup_fmap, Hc in Hres.
    destruct (candidateTimes duration !! i) as [time|]; [|done].
    exists time. split; [done|]. cbn in Hres. injection Hres as Hres.
    unfold attempt in Hres.
    destruct (ffmpeg rt (toFixed3 time) inputPath (tmpPath outputPath i)); [|done].
    cbn in Hres. injection Hres as <-. done.
Qed.

(** *** The seek argument *)

Lemma pad3_digits (m : Z) :
  (0 ≤ m < 1000)%Z →
  pad3 m = String (digitChar (m / 100))
             (String (digitChar (m / 10 mod 10)) (String (digitChar (m mod 10)) "")).
Proof.
  intros Hm.
  assert (H : Forall (λ k : nat,
                pad3 (Z.of_nat k)
                = String (digitChar (Z.of_nat k / 100))
                    (String (digitChar (Z.of_nat k / 10 mod 10))
                       (String (digitChar (Z.of_nat k mod 10)) ""))) (seq 0 1000)).
  { apply (bool_decide_unpack _). vm_compute. exact I. }
  rewrite Forall_forall in H. specialize (H (Z.to_nat m)).
  rewrite Z2Nat.id in H by lia. apply H. apply elem_of_seq. lia.
Qed.

Lemma this_Q2Qc (x : Q) : (this (Q2Qc x) == x)%Q.
Proof. apply Qred_correct. Qed.

Lemma floor_nearest (q : Qc) : nearest (floor (q + Q2Qc (1 # 2))) q.
Proof.
  unfold nearest, floor.
  pose proof (Qfloor_le (this (q + Q2Qc (1 # 2)))) as Hlo.
  pose proof (Qlt_floor (this (q + Q2Qc (1 # 2)))) as Hhi.
  set (n := Qfloor (this (q + Q2Qc (1 # 2)))) in *.
  assert (Hx : (this (q + Q2Qc (1 # 2)) == this q + (1 # 2))%Q).
  { unfold Qcplus. by rewrite !this_Q2Qc. }
  rewrite Hx in Hlo, Hhi.
  rewrite inject_Z_plus in Hhi. change (inject_Z 1) with 1%Q in Hhi.
  split.
  - unfold Qcle, Qcminus, Qcplus, Qcopp. rewrite !this_Q2Qc.
    apply (Qplus_le_l _ _ (1 # 2)).
    eapply Qle_trans; [|exact Hlo]. 
    assert (Heq : (inject_Z n + - (1 # 2) + (1 # 2) == inject_Z n)%Q) by ring.
    rewrite Heq. apply Qle_refl.
  - unfold Qclt, Qcplus. rewrite !this_Q2Qc.
    apply (Qplus_lt_l _ _ (1 # 2)).
    eapply Qlt_le_trans; [exact Hhi|].
    assert (Heq : (inject_Z n + (1 # 2) + (1 # 2) == inject_Z n + 1)%Q) by ring.
    rewrite Heq. apply Qle_refl.
Qed.

(** [toFixed(3)] of a time from 0 to 10^21: the numeral, with three decimals,
    of the number of thousandths nearest to the time. *)
Lemma toFixed3_thousandths (x : Qc) :
  0 ≤ x → x < Q2Qc (inject_Z (10 ^ 21)) →
  ∃ n : Z, nearest n (x * Q2Qc 1000) ∧ toFixed3 x = thousandths n.
Proof.
  intros Hpos Hbig. exists (floor (x * Q2Qc 1000 + Q2Qc (1 # 2))).
  split; [apply floor_nearest|].
  unfold toFixed3, fixed3, thousandths.
  rewrite (bool_decide_false (x < 0)) by by apply Qcle_not_lt.
  rewrite (bool_decide_false (_ ≤ x)) by by apply Qclt_not_le.
  cbn zeta. rewrite pad3_digits; [done|]. by apply Z.mod_pos_bound.
Qed.

(** C7.  Smart mode with a positive duration, the five extractions having
    succeeded.  Candidate [i] was extracted at the position [(i + 0.5)/5] of
    the duration clamped into [[1, max(1, duration - 0.2)]], the quotient, the
    product and the difference being those of doubles, into the temporary file
    of index [i]; the seek argument handed to the extractor is the numeral,
    with three decimals, of the number of thousandths nearest to that time.
    The candidate installed as the thumbnail is the first one among those of
    largest size.  Its temporary file is gone, and so is every other temporary
    file whose deletion succeeds; a failing deletion leaves the operation
    fulfilled. *)
Theorem C7_smart_selection (cfg : Config) (rt : Runtime) (inputPath outputPath : string)
    (duration : Qc) (files : gmap string N) (candidates : list Candidate) :
  smartThumb cfg = true → 0 < duration →
  mkdirOk rt (Path.dirname outputPath) = true →
  (∀ src, renameOk rt src outputPath = true) →
  snd (extractAll rt inputPath outputPath duration files 0 picks) = Some <$> candidates →
  let hi := jsMax 1 (double (duration - double (Q2Qc (1 # 5)))) in
  (length candidates = 5%nat
   ∧ ∀ i c, candidates !! i = Some c →
       let ratio := double ((Q2Qc (inject_Z (Z.of_nat i)) + Q2Qc (1 # 2)) / Q2Qc 5) in
       let position := double (duration * ratio) in
       ∃ time,
         time = clampTime position duration
         ∧ (1 ≤ time ≤ hi)
         ∧ (1 ≤ position ≤ hi → time = position)
         ∧ (position < 1 → time = 1)
         ∧ (hi < position → time = hi)
         ∧ c_path c = tmpPath outputPath i
         ∧ ffmpeg rt (toFixed3 time) inputPath (tmpPath outputPath i) = Some (c_size c)
         ∧ (time < Q2Qc (inject_Z (10 ^ 21)) →
            ∃ n : Z, nearest n (time * Q2Qc 1000) ∧ toFixed3 time = thousandths n))
  ∧ ∃ b best files',
      candidates !! b = Some best
      ∧ (∀ c, c ∈ candidates → (c_size c ≤ c_size best)%N)
      ∧ (∀ j c, (j < b)%nat → candidates !! j = Some c → (c_size c < c_size best)%N)
      ∧ makeThumbnail cfg rt inputPath outputPath (Some duration) files = (true, files')
      ∧ files' !! outputPath = Some (c_size best)
      ∧ ∀ j, (j < 5)%nat →
          j = b ∨ unlinkOk rt (tmpPath outputPath j) = true →
          files' !! tmpPath outputPath j = None.
Proof.
  intros Hsmart Hd Hmk Hren Hres hi.
  destruct (candidates_of_results _ _ _ _ _ _ Hres) as [Hlen Hcand].
  split.
  { split; [done|]. intros i c Hc ratio position.
    destruct (Hcand i c Hc) as (time & Htime & Hpath & Hff).
    exists time. unfold candidateTimes in Htime. rewrite list_lookup_fmap in Htime.
    destruct (picks !! i) as [ratio'|] eqn:Hratio; [|done].
    apply picks_lookup in Hratio as [_ ->]. injection Htime as <-.
    fold ratio. fold position.
    destruct (clampTime_spec position duration Hd) as (Hin & Hmid & Hlow & Hhigh).
    split; [done|]. split; [exact Hin|]. split; [exact Hmid|]. split; [exact Hlow|].
    split; [exact Hhigh|]. split; [exact Hpath|]. split; [exact Hff|].
    intros Hbig. apply toFixed3_thousandths; [|done].
    destruct Hin as [H1 _]. by trans 1. }
  pose proof (makeThumbnail_smart cfg rt inputPath outputPath duration files
                Hsmart Hd Hmk) as Hmt.
  destruct (extractAll rt inputPath outputPath duration files 0 picks)
    as [files1 results]. cbn [snd] in Hres. subst results.
  assert (promiseAll (Some <$> candidates) = Some candidates) as Hall.
  { unfold promiseAll. apply mapM_fmap_Forall_Some. by apply Forall_true. }
  rewrite Hall in Hmt.
  destruct (pickBest candidates) as [best|] eqn:Hbest; [|by destruct candidates].
  rewrite Hren in Hmt.
  destruct (pickBest_spec _ _ Hbest) as (b & Hb & Hmax & Hfirst).
  destruct (Hcand b best Hb) as (tb & _ & Hbpath & _).
  assert (Hpaths : ∀ p,
            p ∈ c_path <$> List.filter
                   (λ item, negb (bool_decide (c_path item = c_path best))) candidates
            ↔ ∃ j, (j < 5)%nat ∧ j ≠ b ∧ p = tmpPath outputPath j).
  { intros p. rewrite list_elem_of_fmap. split.
    - intros (c & -> & Hc). apply list_elem_of_In, List.filter_In in Hc as [Hc Hne].
      apply negb_true_iff, bool_decide_eq_false in Hne.
      apply list_elem_of_In, list_elem_of_lookup in Hc as [j Hj].
      destruct (Hcand j c Hj) as (tj & _ & Hjpath & _).
      exists j. split; [apply lookup_lt_Some in Hj; lia|]. split; [|done].
      intros Hjb. rewrite Hjb, Hb in Hj. injection Hj as Hbc. apply Hne. by rewrite Hbc.
    - intros (j & Hj & Hjb & ->).
      destruct (lookup_lt_is_Some_2 candidates j) as [c Hc]; [lia|].
      destruct (Hcand j c Hc) as (tj & _ & Hjpath & _).
      exists c. split; [done|]. apply list_elem_of_In, List.filter_In.
      split; [by eapply list_elem_of_In, list_elem_of_lookup_2|].
      apply negb_true_iff, bool_decide_eq_false. rewrite Hjpath, Hbpath.
      by intros ?%tmpPath_inj. }
  eexists b, best, _. split; [done|]. split; [done|]. split; [done|].
  split; [exact Hmt|]. split.
  - rewrite unlink_fold_lookup, bool_decide_false; [apply lookup_insert_eq|].
    rewrite Hpaths. intros (j & _ & _ & Hj). by apply eq_sym, tmpPath_ne_output in Hj.
  - intros j Hj Hcase. rewrite unlink_fold_lookup.
    destruct (decide (j = b)) as [->|Hjb].
    + rewrite bool_decide_false.
      * rewrite lookup_insert_ne by (apply not_eq_sym, tmpPath_ne_output).
        rewrite <-Hbpath. apply lookup_delete_eq.
      * rewrite Hpaths. intros (j' & _ & Hne & ?%tmpPath_inj). done.
    + destruct Hcase as [|Hok]; [done|]. rewrite Hok, bool_decide_true; [done|].
      rewrite Hpaths. eauto.
Qed.

(** The figures of the specification: of the sizes 10, 40, 25, 40 and 5 the
    candidate of index 1 is chosen. *)
Example pickBest_sizes :
  pickBest Sample.candidates
  = Some {| c_path := tmpPath Sample.thumbOut 1; c_size := 40 |}.
Proof. reflexivity. Qed.

(** The seek arguments for a video of 1.625 seconds: the product with 0.7 is
    the double just below 1.1375, and the upper end of the interval is the
    double just above 1.425. *)
Example seek_arguments :
  toFixed3 <$> candidateTimes (Q2Qc (13 # 8))
  = ["1.000"; "1.000"; "1.000"; "1.137"; "1.425"].
Proof. vm_compute. reflexivity. Qed.

(** The seek times agree with the ones computed on machine doubles, here for
    durations of 1.625 s, 12.5 s, 100.125 s, two hours, 0.75 s, 2.375 s, a
    duration with a full mantissa and the double nearest to pi. *)
Example candidateTimes_machine :
  (λ d, Machine.valueOf <$> Machine.candidateTimes d)
  <$> [1.625; 12.5; 100.125; 7203.0625; 0.75; 0x1.3p+1; 0x1.fffffffffffffp+12;
       0x1.921fb54442d18p+1]%float
  = (λ d, (Some ∘ this) <$> candidateTimes (Q2Qc d))
    <$> [13 # 8; 25 # 2; 801 # 8; 115249 # 16; 3 # 4; 19 # 8;
         9007199254740991 # 1099511627776; 884279719003555 # 281474976710656].
Proof. vm_compute. reflexivity. Qed.

Lemma C7_smart_selection_witness :
  ∃ files',
    makeThumbnail Sample.cfg Sample.rtSeek "/srv/videos/a.mp4" Sample.thumbOut
      (Some (Q2Qc (13 # 8))) ∅ = (true, files')
    ∧ files' !! Sample.thumbOut = Some 40%N
    ∧ files' !! tmpPath Sample.thumbOut 1 = None.
Proof.
  destruct (C7_smart_selection Sample.cfg Sample.rtSeek "/srv/videos/a.mp4"
              Sample.thumbOut (Q2Qc (13 # 8)) ∅ Sample.candidates)
    as (_ & b & best & files' & Hb & Hmax & Hfirst & Hmt & Hout & Hgone);
    [reflexivity|reflexivity|reflexivity|intros src; reflexivity
    |vm_compute; reflexivity|].
  assert (Hb1 : b = 1%nat).
  { assert (Hlt : (b < 5)%nat) by (apply lookup_lt_Some in Hb; exact Hb).
    assert (H40 : (40 ≤ c_size best)%N).
    { apply (Hmax {| c_path := tmpPath Sample.thumbOut 1; c_size := 40 |}).
      right. left. }
    destruct b as [|[|[|[|[|b]]]]]; [| |  | |  |lia].
    - injection Hb as <-. simpl in H40. lia.
    - reflexivity.
    - injection Hb as <-. simpl in H40. lia.
    - specialize (Hfirst 1%nat _ ltac:(lia) eq_refl).
      injection Hb as <-. simpl in Hfirst. lia.
    - injection Hb as <-. simpl in H40. lia. }
  subst b. injection Hb as <-.
  exists files'. split; [exact Hmt|]. split; [exact Hout|].
  apply (Hgone 1%nat); [lia|by left].
Defined.

End ThumbFacts.

(** ** Two passes in a row *)

Section PassFacts.
Import VideoIndex Spec.

Lemma attempt_path (rt : Runtime) (inputPath outputPath : string) (index : nat)
    (time : Qc) (c : Candidate) :
  attempt rt inputPath outputPath index time = Some c → c_path c = tmpPath outputPath index.
Proof.
  unfold attempt. destruct (ffmpeg rt _ _ _); [|done]. by intros [= <-].
Qed.

Lemma written_preserves (files : gmap string N) (results : list (option Candidate))
    (q : string) :
  is_Some (files !! q) → is_Some (written files results !! q).
Proof.
  unfold written. revert files. induction results as [|[c|] rest IH]; intros files Hq;
    cbn [foldl]; [done| |by apply IH].
  apply IH. destruct (decide (c_path c = q)) as [->|Hne].
  - rewrite lookup_insert_eq. eauto.
  - by rewrite lookup_insert_ne.
Qed.

Lemma promiseAll_paths (rt : Runtime) (inputPath outputPath : string) (times : list Qc)
    (candidates : list Candidate) :
  promiseAll (imap (attempt rt inputPath outputPath) times) = Some candidates →
  ∀ c, c ∈ candidates → ∃ j, c_path c = tmpPath outputPath j.
Proof.
  unfold promiseAll. intros Hall%mapM_Some_1 c Hc.
  apply list_elem_of_lookup in Hc as [k Hk].
  destruct (Forall2_lookup_r _ _ _ _ _ Hall Hk) as (r & Hr & Hrc).
  rewrite list_lookup_imap in Hr.
  destruct (times !! k) as [time|]; [|done]. cbn in Hr. injection Hr as <-.
  exists k. by eapply attempt_path.
Qed.

(** [makeThumbnail] with the smart branch in closed form. *)
Lemma makeThumbnail_unfold (cfg : Config) (rt : Runtime) (inputPath outputPath : string)
    (duration : option Qc) (files : gmap string N) :
  makeThumbnail cfg rt inputPath outputPath duration files
  = if negb (mkdirOk rt (Path.dirname outputPath)) then (false, files)
    else if negb (match duration with
                  | Some d => truthy duration && bool_decide (0 < d)%Qc
                  | None => false
                  end) || negb (smartThumb cfg)
    then match ffmpeg rt "00:00:01" inputPath outputPath with
         | Some size => (true, <[outputPath := size]> files)
         | None => (false, files)
         end
    else
      let results :=
        imap (attempt rt inputPath outputPath) (candidateTimes (default 0%Qc duration)) in
      let files1 := written files results in
      match promiseAll results with
      | None => (false, files1)
      | Some candidates =>
          match pickBest candidates with
          | None => (false, files1)
          | Some best =>
              if renameOk rt (c_path best) outputPath then
                (true,
                 foldl (unlinkQuietly rt)
                   (<[outputPath := c_size best]> (delete (c_path best) files1))
                   (c_path <$> List.filter
                      (λ item, negb (bool_decide (c_path item = c_path best)))
                      candidates))
              else (false, files1)
          end
      end.
Proof.
  unfold makeThumbnail. rewrite extractAll_eq. cbn [Nat.add].
  unfold candidateTimes. rewrite imap_fmap. done.
Qed.

(** Whether [makeThumbnail] is fulfilled does not depend on the files
    present. *)
Lemma makeThumbnail_ok_indep (cfg : Config) (rt : Runtime) (inputPath outputPath : string)
    (duration : option Qc) (files files' : gmap string N) :
  fst (makeThumbnail cfg rt inputPath outputPath duration files)
  = fst (makeThumbnail cfg rt inputPath outputPath duration files').
Proof.
  rewrite !makeThumbnail_unfold.
  destruct (negb (mkdirOk rt _)); [done|].
  destruct (negb _ || negb _).
  - by destruct (ffmpeg rt "00:00:01" inputPath outputPath).
  - cbn zeta. destruct (promiseAll _) as [candidates|]; [|done].
    destruct (pickBest candidates) as [best|]; [|done].
    by destruct (renameOk rt (c_path best) outputPath).
Qed.

(** A file that is not one of the temporary files of this run stays. *)
Lemma makeThumbnail_preserves (cfg : Config) (rt : Runtime) (inputPath outputPath : string)
    (duration : option Qc) (files : gmap string N) (q : string) :
  (∀ j, q ≠ tmpPath outputPath j) →
  is_Some (files !! q) →
  is_Some (snd (makeThumbnail cfg rt inputPath outputPath duration files) !! q).
Proof.
  intros Hq Hfiles. rewrite makeThumbnail_unfold.
  destruct (negb (mkdirOk rt _)); [done|].
  destruct (negb _ || negb _).
  - destruct (ffmpeg rt "00:00:01" inputPath outputPath) as [size|]; [|done].
    cbn [snd]. destruct (decide (outputPath = q)) as [->|Hne].
    + rewrite lookup_insert_eq. eauto.
    + by rewrite lookup_insert_ne.
  - cbn zeta.
    pose proof (written_preserves files
                  (imap (attempt rt inputPath outputPath)
                     (candidateTimes (default 0%Qc duration))) q Hfiles) as Hw.
    destruct (promiseAll _) as [candidates|] eqn:Hall; [|done].
    destruct (pickBest candidates) as [best|] eqn:Hbest; [|done].
    destruct (renameOk rt (c_path best) outputPath); [|done].
    cbn [snd]. rewrite unlink_fold_lookup, bool_decide_false.
    + destruct (pickBest_spec _ _ Hbest) as (b & Hb & _).
      destruct (promiseAll_paths _ _ _ _ _ Hall best) as [j Hj];
        [by eapply list_elem_of_lookup_2|].
      destruct (decide (outputPath = q)) as [->|Hne].
      * rewrite lookup_insert_eq. eauto.
      * rewrite lookup_insert_ne by done. rewrite lookup_delete_ne; [done|].
        rewrite Hj. apply not_eq_sym, Hq.
    + intros (c & -> & Hc)%list_elem_of_fmap.
      apply list_elem_of_In, List.filter_In in Hc as [Hc%list_elem_of_In _].
      destruct (promiseAll_paths _ _ _ _ _ Hall c Hc) as [j Hj]. by apply (Hq j).
Qed.

(** A fulfilled [makeThumbnail] leaves the thumbnail at the output path. *)
Lemma makeThumbnail_output (cfg : Config) (rt : Runtime) (inputPath outputPath : string)
    (duration : option Qc) (files : gmap string N) :
  fst (makeThumbnail cfg rt inputPath outputPath duration files) = true →
  is_Some (snd (makeThumbnail cfg rt inputPath outputPath duration files) !! outputPath).
Proof.
  rewrite makeThumbnail_unfold.
  destruct (negb (mkdirOk rt _)); [done|].
  destruct (negb _ || negb _).
  - destruct (ffmpeg rt "00:00:01" inputPath outputPath) as [size|]; [|done].
    intros _. cbn [snd]. rewrite lookup_insert_eq. eauto.
  - cbn zeta. destruct (promiseAll _) as [candidates|] eqn:Hall; [|done].
    destruct (pickBest candidates) as [best|] eqn:Hbest; [|done].
    destruct (renameOk rt (c_path best) outputPath); [|done].
    intros _. cbn [snd]. rewrite unlink_fold_lookup, bool_decide_false.
    + rewrite lookup_insert_eq. eauto.
    + intros (c & Hpath & Hc)%list_elem_of_fmap.
      apply list_elem_of_In, List.filter_In in Hc as [Hc%list_elem_of_In _].
      destruct (promiseAll_paths _ _ _ _ _ Hall c Hc) as [j Hj].
      rewrite Hj in Hpath. by apply eq_sym, tmpPath_ne_output in Hpath.
Qed.

Lemma indexSingle_eq (cfg : Config) (rt : Runtime) (t : Task) (st : State) :
  indexSingle cfg rt t st
  = Fulfilled
      {| db := if thumbOk cfg rt t then upsertSuccess (successRow rt t) (db st)
               else upsertFailure (t_rel t) (folderOf (t_rel t))
                      (Path.basename (t_rel t) (Path.extname (t_rel t)))
                      (t_updatedAt t) (db st);
         fs := snd (makeThumbnail cfg rt (t_abs t)
                      (Path.join2 (thumbsDir cfg) (t_thumbRel t))
                      (probeDuration rt (t_abs t)) (fs st)) |}.
Proof.
  unfold indexSingle, thumbOk.
  rewrite (makeThumbnail_ok_indep cfg rt _ _ _ ∅ (fs st)).
  by destruct (makeThumbnail cfg rt _ _ _ (fs st)) as [[] files].
Qed.

Lemma substring_length (n : nat) (s : string) :
  String.length (String.substring 0 n s) = (n `min` String.length s)%nat.
Proof.
  revert s. induction n as [|n IH]; intros [|c s]; simpl; try done.
  by rewrite IH.
Qed.

Lemma thumbAbsOf_length (cfg : Config) (rt : Runtime) (relPath : string) :
  (∀ s, String.length (sha1hex rt s) = 40%nat) →
  String.length (thumbAbsOf cfg rt relPath) = (String.length (thumbsDir cfg) + 28)%nat.
Proof.
  intros Hsha. unfold thumbAbsOf, getThumbRelPath, Path.join2.
  rewrite !length_append, substring_length, Hsha. simpl. lia.
Qed.

Lemma thumbAbsOf_not_tmp (cfg : Config) (rt : Runtime) (g f : string) (j : nat) :
  (∀ s, String.length (sha1hex rt s) = 40%nat) →
  thumbAbsOf cfg rt g ≠ tmpPath (thumbAbsOf cfg rt f) j.
Proof.
  intros Hsha Heq%(f_equal String.length). unfold tmpPath in Heq.
  rewrite !length_append, !thumbAbsOf_length in Heq by done. simpl in Heq. lia.
Qed.

Lemma run_spec (cfg : Config) (rt : Runtime) (tasks : list Task) (st : State) :
  (∀ s, String.length (sha1hex rt s) = 40%nat) →
  NoDup (t_rel <$> tasks) →
  (∀ t, t ∈ tasks → t_thumbRel t = getThumbRelPath rt (t_rel t)) →
  ∃ st', runWithConcurrency cfg rt tasks st = Fulfilled st'
    ∧ (∀ p, p ∉ t_rel <$> tasks → db st' !! p = db st !! p)
    ∧ (∀ t, t ∈ tasks → ∃ r, db st' !! t_rel t = Some r ∧ rowWritten cfg rt t r)
    ∧ (∀ g, is_Some (fs st !! thumbAbsOf cfg rt g) → is_Some (fs st' !! thumbAbsOf cfg rt g))
    ∧ (∀ t, t ∈ tasks → thumbOk cfg rt t = true →
         is_Some (fs st' !! thumbAbsOf cfg rt (t_rel t))).
Proof.
  intros Hsha. revert st. induction tasks as [|t rest IH]; intros st Hnd Hwf.
  { exists st. split; [done|]. repeat split; try done; by intros ? ?%elem_of_nil. }
  cbn [runWithConcurrency]. rewrite indexSingle_eq.
  rewrite fmap_cons in Hnd. apply NoDup_cons in Hnd as [Hfresh Hnd].
  set (st1 := {| db := _; fs := _ |}).
  destruct (IH st1 Hnd) as (st' & Hrun & Hother & Hrows & Hmono & Hthumbs).
  { intros t' Ht'. apply Hwf. by right. }
  assert (Hout : Path.join2 (thumbsDir cfg) (t_thumbRel t) = thumbAbsOf cfg rt (t_rel t)).
  { unfold thumbAbsOf. rewrite (Hwf t); [done|left]. }
  assert (Hmono1 : ∀ g, is_Some (fs st !! thumbAbsOf cfg rt g)
                        → is_Some (fs st1 !! thumbAbsOf cfg rt g)).
  { intros g Hg. subst st1. cbn [fs]. apply makeThumbnail_preserves; [|done].
    intros j. rewrite Hout. by apply thumbAbsOf_not_tmp. }
  assert (Hrow1 : ∃ r, db st1 !! t_rel t = Some r ∧ rowWritten cfg rt t r).
  { subst st1. cbn [db]. unfold rowWritten. destruct (thumbOk cfg rt t).
    - unfold upsertSuccess. rewrite (insertOnConflict_lookup _ (successRow rt t)).
      eexists. split; [done|]. by destruct (db st !! _).
    - unfold upsertFailure. rewrite (insertOnConflict_lookup _ {| path := t_rel t |}).
      eexists. split; [done|]. cbn [path]. by destruct (db st !! _). }
  assert (Hother1 : ∀ p, p ≠ t_rel t → db st1 !! p = db st !! p).
  { intros p Hp. subst st1. cbn [db]. destruct (thumbOk cfg rt t).
    - unfold upsertSuccess. by rewrite (insertOnConflict_lookup_ne _ (successRow rt t)).
    - unfold upsertFailure.
      by rewrite (insertOnConflict_lookup_ne _ {| path := t_rel t |}). }
  exists st'. split; [done|]. split; [|split; [|split]].
  - intros p Hp. rewrite fmap_cons, not_elem_of_cons in Hp. destruct Hp as [Hp1 Hp2].
    rewrite Hother by done. by apply Hother1.
  - intros t' [->|Ht']%elem_of_cons; [|by apply Hrows].
    rewrite Hother by done. done.
  - intros g Hg. by apply Hmono, Hmono1.
  - intros t' [->|Ht']%elem_of_cons Hok; [|by apply Hthumbs].
    apply Hmono. subst st1. cbn [fs]. rewrite <-Hout.
    apply makeThumbnail_output.
    rewrite (makeThumbnail_ok_indep cfg rt _ _ _ _ ∅). exact Hok.
Qed.

(** Tasks whose success row is already in the table leave the table as it
    is. *)
Lemma run_noop (cfg : Config) (rt : Runtime) (tasks : list Task) (st : State) :
  (∀ t, t ∈ tasks → thumbOk cfg rt t = true ∧ db st !! t_rel t = Some (successRow rt t)) →
  ∃ st', runWithConcurrency cfg rt tasks st = Fulfilled st' ∧ db st' = db st.
Proof.
  revert st. induction tasks as [|t rest IH]; intros st Hall; [by exists st|].
  cbn [runWithConcurrency]. rewrite indexSingle_eq.
  destruct (Hall t) as [Hok Hrow]; [left|]. rewrite Hok.
  assert (Hsame : upsertSuccess (successRow rt t) (db st) = db st).
  { unfold upsertSuccess, insertOnConflict. cbn [successRow path]. rewrite Hrow.
    by apply insert_id. }
  rewrite Hsame.
  destruct (IH {| db := db st; fs := snd (makeThumbnail cfg rt (t_abs t)
                      (Path.join2 (thumbsDir cfg) (t_thumbRel t))
                      (probeDuration rt (t_abs t)) (fs st)) |})
    as (st' & Hrun & Hdb).
  { intros t' Ht'. apply Hall. by right. }
  exists st'. by split.
Qed.

Lemma scanFile_some (cfg : Config) (rt : Runtime) (st : State) (f : VideoFile) (t : Task) :
  scanFile cfg rt false st f = Some t → t = taskOf rt f ∧ marked cfg rt st f.
Proof.
  intros Hs. split; [|by unfold marked; rewrite Hs].
  unfold scanFile in Hs. by destruct (needsUpdate _ _ _ _); simplify_eq.
Qed.

Lemma scan_elem (cfg : Config) (rt : Runtime) (st : State) (files : list VideoFile)
    (t : Task) :
  t ∈ scan cfg rt false st files
  ↔ ∃ f, f ∈ files ∧ marked cfg rt st f ∧ t = taskOf rt f.
Proof.
  unfold scan. rewrite list_elem_of_omap. split.
  - intros (f & Hf & [-> Hm]%scanFile_some). eauto.
  - intros (f & Hf & [t' Hm] & ->). exists f. split; [done|].
    by destruct (scanFile_some _ _ _ _ _ Hm) as [<- _].
Qed.

Lemma scan_rels_NoDup (cfg : Config) (rt : Runtime) (st : State) (files : list VideoFile) :
  NoDup (rel <$> files) → NoDup (t_rel <$> scan cfg rt false st files).
Proof.
  unfold scan. induction files as [|f rest IH]; [done|].
  rewrite fmap_cons. intros [Hfresh Hnd]%NoDup_cons. cbn [omap list_omap].
  destruct (scanFile cfg rt false st f) as [t|] eqn:Hs; [|by apply IH].
  rewrite fmap_cons. apply NoDup_cons. split; [|by apply IH].
  apply scanFile_some in Hs as [-> _]. cbn [taskOf t_rel].
  intros (t' & Hrel & Ht')%list_elem_of_fmap.
  apply (scan_elem cfg rt st rest) in Ht' as (f' & Hf' & _ & ->).
  apply Hfresh. rewrite Hrel. cbn [taskOf t_rel]. by apply list_elem_of_fmap_2.
Qed.

Lemma NoDup_rel_inj (files : list VideoFile) (f f' : VideoFile) :
  NoDup (rel <$> files) → f ∈ files → f' ∈ files → rel f = rel f' → f = f'.
Proof.
  intros Hnd [i Hi]%list_elem_of_lookup [j Hj]%list_elem_of_lookup Hrel.
  assert (i = j) as ->.
  { eapply NoDup_lookup; [exact Hnd| |].
    - by rewrite list_lookup_fmap, Hi.
    - by rewrite list_lookup_fmap, Hj, Hrel. }
  congruence.
Qed.

Lemma reconcile_lookup (files : list VideoFile) (d : gmap string Row) (p : string) :
  reconcile files d !! p = if bool_decide (p ∈ seen files) then d !! p else None.
Proof.
  unfold reconcile. case_bool_decide as Hp.
  - destruct (d !! p) as [r|] eqn:Hr.
    + by apply map_lookup_filter_Some.
    + apply map_lookup_filter_None. left. done.
  - apply map_lookup_filter_None. right. intros r _. done.
Qed.

Lemma seen_elem (files : list VideoFile) (f : VideoFile) : f ∈ files → rel f ∈ seen files.
Proof. intros Hf. unfold seen. apply elem_of_list_to_set. by apply list_elem_of_fmap_2. Qed.

(** The state after one pass. *)
Lemma buildIndex_spec (cfg : Config) (rt : Runtime) (files : list VideoFile) (st0 : State) :
  (∀ s, String.length (sha1hex rt s) = 40%nat) →
  NoDup (rel <$> files) →
  ∃ st1, buildIndex cfg rt false files st0 = Fulfilled st1
    ∧ (∀ p, is_Some (db st1 !! p) → p ∈ seen files)
    ∧ ∀ f, f ∈ files →
        ∃ r, db st1 !! rel f = Some r
          ∧ ¬ stale r f
          ∧ (thumbError r = Some 1 ∨ thumbArtifact cfg rt st1 f)
          ∧ (if bool_decide (marked cfg rt st0 f) then rowWritten cfg rt (taskOf rt f) r
             else thumbError r = Some 1 ∨ truthy (duration r) = true).
Proof.
  intros Hsha Hnd. unfold buildIndex.
  destruct (run_spec cfg rt (scan cfg rt false st0 files)
              {| db := reconcile files (db st0); fs := fs st0 |} Hsha)
    as (st1 & Hrun & Hother & Hrows & Hmono & Hthumbs).
  { by apply scan_rels_NoDup. }
  { intros t (f & _ & _ & ->)%scan_elem. done. }
  exists st1. split; [done|]. cbn [db fs] in *. split.
  - intros p Hp. destruct (decide (p ∈ t_rel <$> scan cfg rt false st0 files)) as [Hin|Hout].
    + apply list_elem_of_fmap in Hin as (t & -> & (f & Hf & _ & ->)%scan_elem).
      by apply seen_elem.
    + rewrite Hother, reconcile_lookup in Hp by done.
      case_bool_decide; [done|by destruct Hp].
  - intros f Hf. case_bool_decide as Hm.
    + destruct (Hrows (taskOf rt f)) as (r & Hr & Hw); [apply scan_elem; eauto|].
      exists r. split; [done|]. unfold rowWritten in Hw |- *.
      destruct (thumbOk cfg rt (taskOf rt f)) eqn:Hok.
      * subst r. split; [unfold stale; cbn; lia|]. split; [|done].
        right. apply (Hthumbs (taskOf rt f)); [apply scan_elem; eauto|done].
      * destruct Hw as [Herr Hupd]. split; [unfold stale; rewrite Hupd; cbn; lia|].
        split; [by left|done].
    + assert (Hnot : rel f ∉ t_rel <$> scan cfg rt false st0 files).
      { intros (t & Hrel & (f' & Hf' & Hm' & ->)%scan_elem)%list_elem_of_fmap.
        cbn [taskOf t_rel] in Hrel.
        by rewrite (NoDup_rel_inj files f f' Hnd Hf Hf' Hrel) in Hm. }
      rewrite Hother, reconcile_lookup, bool_decide_true by (done || by apply seen_elem).
      rewrite marked_needsUpdate in Hm. apply not_true_is_false in Hm.
      unfold needsUpdate in Hm. cbn [orb] in Hm.
      destruct (db st0 !! rel f) as [r|]; [|done].
      exists r. split; [done|].
      apply orb_false_iff in Hm as [Hm Hstale]. apply bool_decide_eq_false in Hstale.
      split; [exact Hstale|].
      destruct (decide (thumbError r = Some 1)) as [Herr|Herr]; [by split; left|].
      rewrite (bool_decide_false _ Herr) in Hm. cbn [negb andb] in Hm.
      apply orb_false_iff in Hm as [Hex Htr]. apply negb_false_iff in Hex, Htr.
      split; [right|by right].
      apply Hmono. unfold fileExists in Hex. by apply bool_decide_eq_true in Hex.
Qed.

Lemma scan_atTime (cfg : Config) (rt : Runtime) (n : Z) (st : State) (files : list VideoFile) :
  scan cfg (atTime n rt) false st files = scan cfg rt false st files.
Proof. reflexivity. Qed.

Lemma extractAll_atTime (rt : Runtime) (n : Z) (inputPath outputPath : string)
    (duration : Qc) (files : gmap string N) (index : nat) (ratios : list Qc) :
  extractAll (atTime n rt) inputPath outputPath duration files index ratios
  = extractAll rt inputPath outputPath duration files index ratios.
Proof.
  revert files index. induction ratios as [|ratio rest IH]; intros files index; [done|].
  cbn [extractAll].
  change (extractCandidate (atTime n rt)) with (extractCandidate rt).
  destruct (extractCandidate rt _ _ _ _ _ _) as [files1 c]. by rewrite IH.
Qed.

Lemma makeThumbnail_atTime (cfg : Config) (rt : Runtime) (n : Z)
    (inputPath outputPath : string) (duration : option Qc) (files : gmap string N) :
  makeThumbnail cfg (atTime n rt) inputPath outputPath duration files
  = makeThumbnail cfg rt inputPath outputPath duration files.
Proof. unfold makeThumbnail. by rewrite extractAll_atTime. Qed.

Lemma thumbOk_atTime (cfg : Config) (rt : Runtime) (n : Z) (t : Task) :
  thumbOk cfg (atTime n rt) t = thumbOk cfg rt t.
Proof. unfold thumbOk. by rewrite makeThumbnail_atTime. Qed.

Lemma successRow_atTime (rt : Runtime) (n : Z) (t : Task) :
  birthtimeMs (t_stat t) ≠ 0%Qc ∨ ctimeMs (t_stat t) ≠ 0%Qc →
  successRow (atTime n rt) t = successRow rt t.
Proof.
  intros Hstat. unfold successRow. cbn [now atTime]. f_equal. f_equal. f_equal.
  unfold orElse. destruct Hstat as [Hb|Hc].
  - by rewrite (bool_decide_false (birthtimeMs (t_stat t) = 0%Qc)).
  - by rewrite (bool_decide_false (ctimeMs (t_stat t) = 0%Qc)).
Qed.

(** C6, as amended.  Two passes in a row over the same files, the second one
    at a later time, with the same behaviour of the external programs.  The
    second pass leaves the Index as the first one made it, so no [updatedAt]
    changes; but it dispatches a task again for every file whose row has
    [thumbError = 0] and a null or zero duration, and for no other file.  When
    there is no such row, the second pass dispatches nothing and changes
    nothing. *)
Theorem C6_second_pass (cfg : Config) (rt : Runtime) (later : Z)
    (files : list VideoFile) (st0 : State) :
  (∀ s, String.length (sha1hex rt s) = 40%nat) →
  NoDup (rel <$> files) →
  (∀ f, f ∈ files → birthtimeMs (stat f) ≠ 0%Qc ∨ ctimeMs (stat f) ≠ 0%Qc) →
  ∃ st1 st2,
    buildIndex cfg rt false files st0 = Fulfilled st1
    ∧ buildIndex cfg (atTime later rt) false files st1 = Fulfilled st2
    ∧ db st2 = db st1
    ∧ (∀ f, f ∈ files →
         (marked cfg (atTime later rt) st1 f
          ↔ ∃ r, db st1 !! rel f = Some r ∧ thumbError r = Some 0
                 ∧ (duration r = None ∨ duration r = Some 0%Qc)))
    ∧ ((∀ f r, f ∈ files → db st1 !! rel f = Some r → thumbError r = Some 0 →
          duration r ≠ None ∧ duration r ≠ Some 0%Qc) →
       scan cfg (atTime later rt) false st1 files = [] ∧ st2 = st1).
Proof.
  intros Hsha Hnd Hstat.
  destruct (buildIndex_spec cfg rt files st0 Hsha Hnd) as (st1 & Hb1 & Hdom & Hfiles).
  assert (Hmarked : ∀ f, f ∈ files →
            (marked cfg rt st1 f
             ↔ ∃ r, db st1 !! rel f = Some r ∧ thumbError r = Some 0
                    ∧ (duration r = None ∨ duration r = Some 0%Qc))).
  { intros f Hf. destruct (Hfiles f Hf) as (r & Hr & Hstale & Hthumb & Hrow).
    rewrite marked_rule, Hr.
    split.
    - intros [|(r' & [= <-] & [|(Herr & Hcase)])]; [done..|].
      destruct Hthumb as [|Hthumb]; [done|]. destruct Hcase as [|Hdur]; [done|].
      exists r. split; [done|]. split; [|done].
      case_bool_decide.
      + unfold rowWritten in Hrow. destruct (thumbOk cfg rt (taskOf rt f)).
        * by subst r.
        * by destruct Hrow.
      + destruct Hrow as [|Htr]; [done|].
        apply truthy_false in Hdur. congruence.
    - intros (r' & [= <-] & Herr & Hdur). right. exists r. split; [done|]. right.
      split; [congruence|by right]. }
  assert (Hrec : reconcile files (db st1) = db st1).
  { apply map_eq. intros p. rewrite reconcile_lookup. case_bool_decide as Hp; [done|].
    destruct (db st1 !! p) eqn:Hr; [|done]. destruct Hp. apply Hdom. eauto. }
  destruct (run_noop cfg (atTime later rt) (scan cfg rt false st1 files)
              {| db := db st1; fs := fs st1 |}) as (st2 & Hrun & Hdb).
  { intros t (f & Hf & Hm & ->)%scan_elem.
    destruct (Hfiles f Hf) as (r & Hr & Hstale & Hthumb & Hrow).
    apply (Hmarked f Hf) in Hm as (r' & Hr' & Herr & Hdur).
    rewrite Hr in Hr'. injection Hr' as <-. cbn [db taskOf t_rel].
    rewrite thumbOk_atTime, successRow_atTime by (apply Hstat, Hf).
    case_bool_decide.
    - unfold rowWritten in Hrow. destruct (thumbOk cfg rt (taskOf rt f)).
      + by subst r.
      + destruct Hrow. congruence.
    - destruct Hrow as [|Htr]; [congruence|].
      apply truthy_false in Hdur. congruence. }
  exists st1, st2. split; [done|]. split.
  { unfold buildIndex. by rewrite scan_atTime, Hrec. }
  split; [done|]. split; [exact Hmarked|].
  intros Hnone. rewrite scan_atTime.
  assert (Hscan : scan cfg rt false st1 files = []).
  { destruct (scan cfg rt false st1 files) as [|t rest] eqn:Hs; [done|].
    assert (Ht : t ∈ scan cfg rt false st1 files) by (rewrite Hs; left).
    apply scan_elem in Ht as (f & Hf & Hm & _).
    apply (Hmarked f Hf) in Hm as (r & Hr & Herr & Hdur).
    destruct (Hnone f r Hf Hr Herr) as [H1 H2]. by destruct Hdur. }
  split; [done|]. rewrite Hscan in Hrun. cbn in Hrun. injection Hrun as <-.
  by destruct st1.
Qed.

Lemma C6_second_pass_witness :
  ∃ st1 st2,
    buildIndex Sample.cfg Sample.rt false
      [Sample.fileAt "a.mp4" 100; Sample.fileAt "corrupt.mp4" 100] Sample.emptyState
    = Fulfilled st1
    ∧ buildIndex Sample.cfg (atTime 1700000009999 Sample.rt) false
        [Sample.fileAt "a.mp4" 100; Sample.fileAt "corrupt.mp4" 100] st1
      = Fulfilled st2
    ∧ db st2 = db st1.
Proof.
  destruct (C6_second_pass Sample.cfg Sample.rt 1700000009999
              [Sample.fileAt "a.mp4" 100; Sample.fileAt "corrupt.mp4" 100]
              Sample.emptyState)
    as (st1 & st2 & H1 & H2 & Hdb & _).
  - intros s. unfold Sample.rt, Sample.digest. cbn [sha1hex].
    rewrite substring_length, length_append. apply Nat.min_l.
    change (String.length "0000000000000000000000000000000000000000") with 40%nat. lia.
  - apply (bool_decide_unpack _). vm_compute. exact I.
  - intros f Hf. right.
    apply list_elem_of_In in Hf. destruct Hf as [<-|[<-|[]]]; discriminate.
  - exists st1, st2. exact (conj H1 (conj H2 Hdb)).
Defined.

(** C6 as written fails on a file that [ffprobe] cannot read while the frame
    at one second can be extracted: the first pass stores a null duration
    with [thumbError = 0] and the second pass dispatches the file again. *)
Lemma C6_counterexample :
  let files := [Sample.fileAt "noprobe.mp4" 100] in
  let st1 := stateOf (buildIndex Sample.cfg Sample.rt false files Sample.emptyState) in
  (∃ r, db st1 !! "noprobe.mp4" = Some r ∧ duration r = None ∧ thumbError r = Some 0)
  ∧ scan Sample.cfg Sample.rt false st1 files ≠ [].
Proof.
  intros files st1. split.
  - eexists. split; [vm_compute; reflexivity|]. by split.
  - vm_compute. discriminate.
Qed.

End PassFacts.

(** ** The path safety resolver *)

Section PathFacts.
Import Js Path.


Lemma split_slashFree (s : string) : slashFree s → split "/" s = [s].
Proof.
  unfold slashFree. induction s as [|c s IH]; [done|]. simpl.
  rewrite not_elem_of_cons. intros [Hc Hs].
  rewrite decide_False by done. by rewrite IH.
Qed.

Lemma split_nonempty (sep : ascii) (s : string) : split sep s ≠ [].
Proof.
  destruct s as [|c s]; [done|]. simpl.
  destruct (decide (c = sep)); [done|]. by destruct (split sep s).
Qed.

Lemma split_app_sep (a b : string) :
  split "/" (a +:+ String "/" b) = split "/" a ++ split "/" b.
Proof.
  induction a as [|c a IH].
  - done.
  - rewrite append_cons. simpl. destruct (decide (c = "/"%char)) as [->|Hc].
    + by rewrite IH.
    + rewrite IH. pose proof (split_nonempty "/" a). by destruct (split "/" a).
Qed.

Lemma split_pieces_slashFree (s : string) : Forall slashFree (split "/" s).
Proof.
  induction s as [|c s IH]; simpl.
  - constructor; [|done]. unfold slashFree. simpl. apply not_elem_of_nil.
  - destruct (decide (c = "/"%char)) as [->|Hc].
    + constructor; [|done]. unfold slashFree. simpl. apply not_elem_of_nil.
    + pose proof (split_nonempty "/" s) as Hne.
      destruct (split "/" s) as [|h t]; [done|]. inversion_clear IH as [|? ? Hh Ht].
      constructor; [|done]. unfold slashFree in *. simpl.
      rewrite not_elem_of_cons. by split; [apply not_eq_sym|].
Qed.

Lemma segments_app_sep (a b : string) :
  segments (a +:+ String "/" b) = segments a ++ segments b.
Proof. unfold segments. by rewrite split_app_sep, List.filter_app. Qed.

Lemma segments_pieces (p : string) :
  Forall (λ s, s ≠ "" ∧ slashFree s) (segments p).
Proof.
  unfold segments, sep.
  induction (split_pieces_slashFree p) as [|s l Hs _ IH]; simpl; [constructor|].
  destruct s; simpl; [exact IH|]. by constructor.
Qed.

Lemma segments_join (segs : list string) :
  Forall (λ s, s ≠ "" ∧ slashFree s) segs → segments (join "/" segs) = segs.
Proof.
  induction 1 as [|s rest [Hne Hsf] Hrest IH]; [done|].
  destruct rest as [|s' rest'].
  - simpl. unfold segments. rewrite split_slashFree by done. simpl. by destruct s.
  - change (join "/" (s :: s' :: rest')) with (s +:+ String "/" (join "/" (s' :: rest'))).
    rewrite segments_app_sep, IH. unfold segments. rewrite split_slashFree by done.
    simpl. by destruct s.
Qed.

Lemma segments_render (segs : list string) :
  Forall (λ s, s ≠ "" ∧ slashFree s) segs → segments (render segs) = segs.
Proof.
  intros Hsegs. unfold render. change ("/" +:+ ?s) with ("" +:+ String "/" s).
  by rewrite segments_app_sep, segments_join.
Qed.


Lemma normalizeSegs_components (acc segs : list string) :
  Forall component acc → Forall plain segs → Forall component (normalizeSegs acc segs).
Proof.
  revert acc. induction segs as [|s rest IH]; intros acc Hacc Hsegs; simpl.
  - by apply Forall_rev.
  - inversion_clear Hsegs as [|? ? Hs Hrest].
    destruct (decide (s = ".")); [by apply IH|].
    destruct (decide (s = "..")).
    + apply IH; [|done]. destruct acc; [done|]. by inversion_clear Hacc.
    + apply IH; [|done]. by constructor.
Qed.

Lemma normalizeSegs_id (acc segs : list string) :
  Forall component segs → normalizeSegs acc segs = rev acc ++ segs.
Proof.
  revert acc. induction segs as [|s rest IH]; intros acc Hsegs; simpl.
  - by rewrite app_nil_r.
  - inversion_clear Hsegs as [|? ? (_ & Hdot & Hdots) Hrest].
    rewrite !decide_False by done. rewrite IH by done.
    simpl. by rewrite <-app_assoc.
Qed.

Lemma resolveSegs_components (cwd : string) (args : list string) :
  Forall component (resolveSegs cwd args).
Proof.
  unfold resolveSegs. destruct (resolveRaw args) as [absolute glued].
  apply normalizeSegs_components; [done|apply segments_pieces].
Qed.

Lemma components_plain (segs : list string) : Forall component segs → Forall plain segs.
Proof. intros H. eapply Forall_impl; [exact H|]. by intros s [? _]. Qed.

(** Resolving a rendered canonical path gives its components back. *)
Lemma resolveSegs_render (cwd : string) (segs : list string) :
  Forall component segs → resolveSegs cwd [render segs] = segs.
Proof.
  intros Hsegs. unfold resolveSegs, resolveRaw.
  change (nonEmpty (render segs)) with true. change (isAbsolute (render segs)) with true.
  cbn iota. change (render segs +:+ "/" +:+ "") with (render segs +:+ String "/" "").
  rewrite segments_app_sep, segments_render by by apply components_plain.
  change (segments "") with (@nil string). rewrite app_nil_r.
  by rewrite normalizeSegs_id.
Qed.

Lemma render_inj (a b : list string) :
  Forall plain a → Forall plain b → render a = render b → a = b.
Proof.
  intros Ha Hb Heq%(f_equal segments). by rewrite !segments_render in Heq.
Qed.

Lemma commonPrefixLen_le (a b : list string) : (commonPrefixLen a b ≤ length a)%nat.
Proof.
  revert b. induction a as [|x a IH]; intros [|y b]; simpl; try lia.
  destruct (decide (x = y)); [|lia]. specialize (IH b). lia.
Qed.

Lemma commonPrefixLen_full (a b : list string) :
  commonPrefixLen a b = length a ↔ a `prefix_of` b.
Proof.
  revert b. induction a as [|x a IH]; intros b; simpl.
  - split; [intros _; apply prefix_nil|by destruct b].
  - destruct b as [|y b].
    + split; [done|]. by intros ?%prefix_nil_not.
    + destruct (decide (x = y)) as [->|Hne].
      * split.
        -- intros [= Hk]. apply prefix_cons. by apply IH.
        -- intros Hp%prefix_cons_inv_2. f_equal. by apply IH.
      * split; [done|]. by intros ?%prefix_cons_inv_1.
Qed.

Lemma commonPrefixLen_refl (a : list string) : commonPrefixLen a a = length a.
Proof. by apply commonPrefixLen_full. Qed.

Lemma relative_render (cwd : string) (R A : list string) :
  Forall component R → Forall component A →
  relative cwd (render R) (render A)
  = join "/" (replicate (length R - commonPrefixLen R A) ".." ++ drop (commonPrefixLen R A) A).
Proof.
  intros HR HA. unfold relative. destruct (decide (render R = render A)) as [Heq|Hne].
  - apply render_inj in Heq; [|by apply components_plain..]. subst A.
    by rewrite commonPrefixLen_refl, Nat.sub_diag, drop_all.
  - by rewrite !resolveSegs_render.
Qed.

Lemma startsWith_join_head (s : string) (rest : list string) :
  component s →
  startsWith (join "/" (s :: rest)) ".." = startsWith s ".."
  ∧ isAbsolute (join "/" (s :: rest)) = false.
Proof.
  intros ([Hne Hsf] & Hdot & Hdots).
  destruct s as [|c1 s1]; [done|].
  assert (Hc1 : c1 ≠ "/"%char).
  { intros ->. apply Hsf. simpl. left. }
  destruct rest as [|s' rest'].
  - split; [done|]. unfold isAbsolute, startsWith. simpl. by rewrite decide_False.
  - change (join "/" (String c1 s1 :: s' :: rest'))
      with (String c1 (s1 +:+ String "/" (join "/" (s' :: rest')))).
    split.
    + unfold startsWith. simpl.
      destruct (decide ("."%char = c1)) as [<-|]; [|done].
      destruct s1 as [|c2 s2]; [done|].
      rewrite append_cons. simpl. by destruct (decide ("."%char = c2)).
    + unfold isAbsolute, startsWith. simpl. by rewrite decide_False.
Qed.

(** [resolveSafePath] in closed form, on the components of the root and of
    the resolved path. *)
Lemma resolveSafePath_closed (cfg : Config) (relPath : string) :
  let R := resolveSegs (cwd cfg) [rawTarget cfg] in
  let A := resolveSegs (cwd cfg) [targetDir cfg; relPath] in
  PathUtils.resolveSafePath cfg relPath
  = if decide (R `prefix_of` A) then
      match drop (length R) A with
      | s :: _ => if startsWith s ".." then None else Some (render A)
      | [] => Some (render A)
      end
    else None.
Proof.
  intros R A. unfold PathUtils.resolveSafePath.
  assert (HR : Forall component R) by apply resolveSegs_components.
  assert (HA : Forall component A) by apply resolveSegs_components.
  change (targetDir cfg) with (render R).
  change (resolve (cwd cfg) [render R; relPath]) with (render A).
  rewrite relative_render by done.
  pose proof (commonPrefixLen_le R A) as Hle.
  destruct (decide (R `prefix_of` A)) as [Hpre|Hpre].
  - apply commonPrefixLen_full in Hpre as Hk. rewrite Hk, Nat.sub_diag. cbn [replicate app].
    destruct (drop (length R) A) as [|s rest] eqn:Hdrop; [done|].
    assert (Hs : component s).
    { assert (Hd : Forall component (drop (length R) A)) by by apply Forall_drop.
      rewrite Hdrop in Hd. by inversion_clear Hd. }
    destruct (startsWith_join_head s rest Hs) as [-> ->].
    rewrite orb_false_r. done.
  - assert (commonPrefixLen R A ≠ length R) as Hk by by rewrite commonPrefixLen_full.
    destruct (length R - commonPrefixLen R A)%nat as [|n] eqn:Hn; [lia|].
    cbn [replicate app].
    assert (startsWith (join "/" (".." :: replicate n ".." ++ drop (commonPrefixLen R A) A))
              ".." = true) as ->; [|done].
    by destruct (replicate n ".." ++ drop (commonPrefixLen R A) A).
Qed.

Lemma insideRoot_segs (cfg : Config) (relPath : string) :
  PathUtils.insideRoot cfg (resolve (cwd cfg) [targetDir cfg; relPath])
  ↔ resolveSegs (cwd cfg) [rawTarget cfg]
      `prefix_of` resolveSegs (cwd cfg) [targetDir cfg; relPath].
Proof.
  unfold PathUtils.insideRoot, targetDir, resolve.
  by rewrite !segments_render by apply components_plain, resolveSegs_components.
Qed.

(** What [resolveSafePath] returns is the canonical path, and it lies inside
    the root. *)
Lemma resolveSafePath_sound (cfg : Config) (relPath abs : string) :
  PathUtils.resolveSafePath cfg relPath = Some abs →
  abs = resolve (cwd cfg) [targetDir cfg; relPath] ∧ PathUtils.insideRoot cfg abs.
Proof.
  rewrite resolveSafePath_closed. cbn zeta. intros Hsafe.
  destruct (decide (_ `prefix_of` _)) as [Hpre|]; [|done].
  assert (abs = resolve (cwd cfg) [targetDir cfg; relPath]) as ->.
  { destruct (drop _ _) as [|s rest]; [by injection Hsafe|].
    destruct (startsWith s ".."); [done|by injection Hsafe]. }
  split; [done|]. by apply insideRoot_segs.
Qed.

(** A path that resolves outside the root is refused. *)
Lemma resolveSafePath_outside (cfg : Config) (relPath : string) :
  ¬ PathUtils.insideRoot cfg (resolve (cwd cfg) [targetDir cfg; relPath]) →
  PathUtils.resolveSafePath cfg relPath = None.
Proof.
  rewrite insideRoot_segs, resolveSafePath_closed. cbn zeta. intros Hout.
  by rewrite decide_False.
Qed.

(** Inside the root, the only paths refused are those whose first component
    below the root begins with two dots. *)
Lemma resolveSafePath_inside (cfg : Config) (relPath : string) :
  PathUtils.insideRoot cfg (resolve (cwd cfg) [targetDir cfg; relPath]) →
  (PathUtils.resolveSafePath cfg relPath = None
   ↔ ∃ s rest,
       segments (resolve (cwd cfg) [targetDir cfg; relPath])
       = segments (targetDir cfg) ++ s :: rest
       ∧ startsWith s ".." = true).
Proof.
  intros Hin. pose proof Hin as Hin'. rewrite insideRoot_segs in Hin'.
  rewrite resolveSafePath_closed. cbn zeta. rewrite decide_True by done.
  assert (Hroot : segments (targetDir cfg) = resolveSegs (cwd cfg) [rawTarget cfg]).
  { unfold targetDir, resolve.
    by rewrite segments_render by apply components_plain, resolveSegs_components. }
  assert (Habs : segments (resolve (cwd cfg) [targetDir cfg; relPath])
                 = resolveSegs (cwd cfg) [targetDir cfg; relPath]).
  { unfold resolve.
    by rewrite segments_render by apply components_plain, resolveSegs_components. }
  rewrite Hroot, Habs.
  destruct Hin' as [below Hbelow]. rewrite Hbelow, drop_app_length.
  split.
  - destruct below as [|s rest]; [done|]. destruct (startsWith s "..") eqn:Hs; [|done].
    intros _. by exists s, rest.
  - intros (s & rest & ->%app_inv_head & Hs). by rewrite Hs.
Qed.

(** C8 at its failing input: [..foo] is a name, not a traversal.  The
    canonical path [/srv/videos/..foo] lies inside the root [/srv/videos], and
    [resolveSafePath] throws all the same, as it does for the traversal and
    for the absolute path outside the root. *)
Theorem C8_dotdot_name_refused :
  resolve (cwd Sample.cfg) [targetDir Sample.cfg; "..foo"] = "/srv/videos/..foo"
  ∧ PathUtils.insideRoot Sample.cfg "/srv/videos/..foo"
  ∧ PathUtils.resolveSafePath Sample.cfg "..foo" = None
  ∧ PathUtils.resolveSafePath Sample.cfg "../../etc/passwd" = None
  ∧ PathUtils.resolveSafePath Sample.cfg "/etc/passwd" = None
  ∧ PathUtils.resolveSafePath Sample.cfg "films/../clips/./a.mp4"
    = Some "/srv/videos/clips/a.mp4".
Proof.
  split; [reflexivity|]. split; [by exists ["..foo"]|]. by repeat split.
Qed.

End PathFacts.

(** ** Opening the store *)

Section DbFacts.
Import Db.

Lemma createIndex_videos (name : string) (d : database) :
  videos (createIndexIfNotExists name d) = videos d.
Proof. unfold createIndexIfNotExists. by case_bool_decide. Qed.

(** Neither revision of the [initDb] of the server touches a table that
    exists. *)
Lemma initDb_lib_keeps_table (d : database) (t : table) :
  videos d = Some t →
  videos (initDb_lib d) = Some t ∧ videos (initDb_lib2 d) = Some t.
Proof.
  intros Ht. unfold initDb_lib, initDb_lib2. rewrite !createIndex_videos.
  unfold createTableIfNotExists. by rewrite Ht.
Qed.

Lemma indexOf_none (n : string) (cols : list column) :
  n ∉ colName <$> cols → indexOf n cols = None.
Proof.
  induction cols as [|c cols IH]; [done|]. rewrite fmap_cons, not_elem_of_cons.
  intros [Hne Hrest]. cbn [indexOf]. rewrite decide_False by done. by rewrite IH.
Qed.

(** A query that names [thumbError] fails on a table without that column. *)
Lemma select_missing_column (d : database) (t : table) :
  videos d = Some t → "thumbError" ∉ colName <$> columns t →
  select existingRowsQuery d = None.
Proof.
  intros Ht Hmiss. unfold select. rewrite Ht. cbn [mbind option_bind].
  assert (mapM (λ n, indexOf n (columns t)) existingRowsQuery = None) as ->; [|done].
  apply mapM_None. unfold existingRowsQuery.
  do 4 apply Exists_cons_tl. apply Exists_cons_hd. by apply indexOf_none.
Qed.

(** The [initDb] of the server leaves a store of the old schema without the
    column, so the first query of [buildIndex] fails on it. *)
Lemma server_initDb_no_migration (d : database) (t : table) :
  videos d = Some t → "thumbError" ∉ colName <$> columns t →
  select existingRowsQuery (initDb_lib d) = None
  ∧ select existingRowsQuery (initDb_lib2 d) = None.
Proof.
  intros Ht Hmiss. destruct (initDb_lib_keeps_table d t Ht) as [H1 H2].
  split; by eapply select_missing_column.
Qed.

(** The [initDb] of the batch tool adds the column to a table that lacks it:
    the columns and the values of every row are kept, the new column comes
    last and reads 0. *)
Lemma tool_initDb_migrates (d : database) (t : table) :
  videos d = Some t → "thumbError" ∉ colName <$> columns t →
  videos (initDb_tool d)
  = Some {| columns := columns t ++ [thumbErrorCol];
            rows := (λ r, r ++ [VInt 0]) <$> rows t |}.
Proof.
  intros Ht Hmiss. unfold initDb_tool.
  set (d1 := createIndexIfNotExists _ _).
  assert (Hd1 : videos d1 = Some t).
  { subst d1. rewrite createIndex_videos. unfold createTableIfNotExists. by rewrite Ht. }
  rewrite bool_decide_false.
  - unfold addColumn. by rewrite Hd1.
  - unfold tableInfo. by rewrite Hd1.
Qed.

(** Opening a fresh file with the tool gives the new schema at once. *)
Lemma tool_initDb_fresh :
  videos (initDb_tool emptyDb) = Some {| columns := schemaNew; rows := [] |}.
Proof. reflexivity. Qed.

(** C9 at its failing input: a store made by the old schema, holding one
    row.  Opened by the [initDb] of the server, in either revision, it has no
    [thumbError] column and the query of [buildIndex] that selects it fails;
    opened by the [initDb] of the batch tool it is migrated, the row is kept
    and reads [thumbError = 0]. *)
Theorem C9_server_open_leaves_old_schema :
  select existingRowsQuery (initDb_lib Sample.oldStore) = None
  ∧ select existingRowsQuery (initDb_lib2 Sample.oldStore) = None
  ∧ select existingRowsQuery (initDb_tool Sample.oldStore)
    = Some [[VText "a.mp4"; VInt 100; VText "thumbs/0123456789abcdef.jpg";
             VReal (Q2Qc (25 # 2)); VInt 0]]
  ∧ select ["path"; "folder"; "name"; "duration"; "createdAt"; "thumb"; "updatedAt"]
      (initDb_tool Sample.oldStore)
    = Some (rows (default {| columns := []; rows := [] |} (videos Sample.oldStore))).
Proof. repeat split; vm_compute; reflexivity. Qed.

End DbFacts.

Section MoreRouteFacts.
Import Js Path VideoRoute Spec.

Lemma createReadStream_file (absPath : string) (start end_ : Num) (b : Body) :
  createReadStream absPath start end_ = Some b → ∃ span, b = BodyStream absPath span.
Proof.
  unfold createReadStream. destruct (validateInteger start) as [st|]; [|done].
  cbn [mbind option_bind].
  destruct end_ as [|[]|e]; cbn [validateInteger mbind option_bind]; try done.
  - intros [= <-]. eauto.
  - case_bool_decide; [|done]. cbn [mbind option_bind].
    case_bool_decide; [done|]. intros [= <-]. eauto.
Qed.

Lemma respond_stream (absPath : string) (fileSize : Num) (range : option string)
    (resp : Response) (file : string) (span : option (Z * option Z)) :
  respond absPath fileSize range = Some resp →
  body resp = BodyStream file span → file = absPath.
Proof.
  unfold respond. destruct (truthyStr range).
  - match goal with |- context [if ?b then _ else _] => destruct b end.
    + by intros [= <-].
    + destruct (createReadStream _ _ _) as [b|] eqn:Hb; [|done].
      cbn [mbind option_bind]. intros [= <-]. cbn [body].
      apply createReadStream_file in Hb as [span' ->]. by intros [= <- _].
  - intros [= <-]. by intros [= <- _].
Qed.

(** X1.  Whatever the request and the files of the machine, a read stream the
    video route answers with is opened on the canonical path of the [path]
    parameter, and that path lies inside the root. *)
Theorem X1_video_stream_inside_root (cfg : Config) (statSize : string → option N)
    (req : Request) (resp : Response) (file : string) (span : option (Z * option Z)) :
  GET cfg statSize req = Some resp →
  body resp = BodyStream file span →
  PathUtils.insideRoot cfg file
  ∧ ∃ relPath, pathParam req = Some relPath
      ∧ file = resolve (cwd cfg) [targetDir cfg; relPath].
Proof.
  unfold GET. destruct (pathParam req) as [[|c relPath]|]; [by intros [= <-]| |by intros [= <-]].
  destruct (PathUtils.resolveSafePath cfg (String c relPath)) as [absPath|] eqn:Hsafe;
    [|by intros [= <-]].
  destruct (statSize absPath) as [size|]; [|done].
  intros Hresp Hbody. apply (respond_stream _ _ _ _ _ _ Hresp) in Hbody as ->.
  apply resolveSafePath_sound in Hsafe as [-> Hin]. split; [done|]. eauto.
Qed.

Lemma X1_video_stream_inside_root_witness :
  PathUtils.insideRoot Sample.cfg "/srv/videos/films/a.mkv".
Proof.
  destruct (X1_video_stream_inside_root Sample.cfg Sample.statSize Sample.request
              {| status := 206;
                 headers := [("Content-Range", "bytes 200-299/1000");
                             ("Accept-Ranges", "bytes"); ("Content-Length", "100");
                             ("Content-Type", "video/x-matroska")];
                 body := BodyStream "/srv/videos/films/a.mkv" (Some (200, Some 299)) |}
              "/srv/videos/films/a.mkv" (Some (200, Some 299)))
    as [Hin _]; [reflexivity|reflexivity|exact Hin].
Defined.



(** X3.  A suffix range, [bytes=-n], is not served: the part before the dash
    is empty, [Number.parseInt] gives [NaN], and the answer is 416 whatever
    follows the dash and whatever the size of the file. *)
Theorem X3_suffix_range_refused (absPath : string) (fileSize : Num) (rest : string) :
  respond absPath fileSize (Some ("bytes=-" +:+ rest))
  = Some {| status := 416;
            headers := [("Content-Range", "bytes */" +:+ toString fileSize)];
            body := BodyNull |}.
Proof.
  unfold respond. change (truthyStr (Some ("bytes=-" +:+ rest))) with true. cbn iota.
  cbn [default from_option id].
  change ("bytes=-" +:+ rest) with ("bytes=" +:+ String "-" rest).
  rewrite (replaceFirst_prefix "bytes=" "" (String "-" rest)).
  change ("" +:+ String "-" rest) with (String "-" rest).
  change (split "-" (String "-" rest)) with ("" :: split "-" rest).
  cbn [lookup list_lookup default from_option id].
  change (parseInt "") with NaN. done.
Qed.

End MoreRouteFacts.

Section MorePathFacts.
Import Js Path.

Lemma targetDir_segments (cfg : Config) :
  segments (targetDir cfg) = resolveSegs (cwd cfg) [rawTarget cfg].
Proof.
  unfold targetDir, resolve.
  by rewrite segments_render by apply components_plain, resolveSegs_components.
Qed.

Lemma resolve_segments (cwd : string) (args : list string) :
  segments (resolve cwd args) = resolveSegs cwd args.
Proof.
  unfold resolve.
  by rewrite segments_render by apply components_plain, resolveSegs_components.
Qed.

(** X4.  [resolveSafePath] characterised: it returns [abs] exactly when [abs]
    is the canonical path of the argument below the root, lies inside the
    root, and its first component below the root does not begin with two
    dots; in every other case it throws. *)
Theorem X4_resolveSafePath_characterised (cfg : Config) (relPath abs : string) :
  PathUtils.resolveSafePath cfg relPath = Some abs
  ↔ abs = resolve (cwd cfg) [targetDir cfg; relPath]
    ∧ PathUtils.insideRoot cfg abs
    ∧ ∀ s rest, segments abs = segments (targetDir cfg) ++ s :: rest →
        startsWith s ".." = false.
Proof.
  split.
  - intros Hsafe. destruct (resolveSafePath_sound cfg relPath abs Hsafe) as [-> Hin].
    split; [done|]. split; [done|]. intros s rest Hsegs.
    destruct (startsWith s "..") eqn:Hs; [|done].
    assert (PathUtils.resolveSafePath cfg relPath = None) as Hnone.
    { apply resolveSafePath_inside; [done|]. by exists s, rest. }
    by rewrite Hnone in Hsafe.
  - intros (-> & Hin & Hfirst).
    destruct (PathUtils.resolveSafePath cfg relPath) as [abs|] eqn:Hsafe.
    + by apply resolveSafePath_sound in Hsafe as [-> _].
    + apply resolveSafePath_inside in Hsafe as (s & rest & Hsegs & Hs); [|done].
      by rewrite (Hfirst s rest Hsegs) in Hs.
Qed.

Lemma join_nonEmpty (s : string) (rest : list string) :
  s ≠ "" → nonEmpty (join "/" (s :: rest)) = true.
Proof. intros Hs. destruct s; [done|]. by destruct rest. Qed.

(** The canonical path of a relative path made of names, below a canonical
    directory. *)
Lemma resolveSegs_below (cwd : string) (dir names : list string) :
  Forall component dir → Forall component names → names ≠ [] →
  resolveSegs cwd [render dir; join "/" names] = dir ++ names.
Proof.
  intros Hdir Hnames Hne. destruct names as [|s rest]; [done|].
  assert (Hs : component s) by by inversion_clear Hnames.
  destruct (startsWith_join_head s rest Hs) as [_ Habs].
  unfold resolveSegs, resolveRaw.
  rewrite join_nonEmpty by by destruct Hs as [[? _] _].
  rewrite Habs. change (nonEmpty (render dir)) with true.
  change (isAbsolute (render dir)) with true. cbn iota.
  change (render dir +:+ "/" +:+ join "/" (s :: rest) +:+ "/" +:+ "")
    with (render dir +:+ String "/" (join "/" (s :: rest) +:+ String "/" "")).
  rewrite !segments_app_sep, segments_render, segments_join
    by by apply components_plain.
  change (segments "") with (@nil string). rewrite app_nil_r.
  rewrite normalizeSegs_id; [done|]. by apply Forall_app.
Qed.

Lemma resolveSafePath_names (cfg : Config) (names : list string) :
  Forall component names → names ≠ [] →
  (∀ s rest, names = s :: rest → startsWith s ".." = false) →
  PathUtils.resolveSafePath cfg (join "/" names)
  = Some (render (segments (targetDir cfg) ++ names)).
Proof.
  intros Hnames Hne Hfirst.
  rewrite resolveSafePath_closed. cbn zeta. rewrite targetDir_segments.
  assert (HR : Forall component (resolveSegs (cwd cfg) [rawTarget cfg]))
    by apply resolveSegs_components.
  change (targetDir cfg) with (render (resolveSegs (cwd cfg) [rawTarget cfg])).
  rewrite resolveSegs_below by done.
  rewrite decide_True by by apply prefix_app_r.
  rewrite drop_app_length. destruct names as [|s rest]; [done|].
  by rewrite (Hfirst s rest eq_refl).
Qed.

(** X5.  A relative path made of ordinary names, separated by slashes, is
    accepted and resolved below the root, unless its first name begins with
    two dots.  Names that begin with one dot are ordinary here: the resolver
    does not refuse the cache directory [.thumbs.db] nor what is inside. *)
Theorem X5_plain_paths_accepted (cfg : Config) (names : list string) :
  Forall component names → names ≠ [] →
  (∀ s rest, names = s :: rest → startsWith s ".." = false) →
  PathUtils.resolveSafePath cfg (join "/" names)
  = Some (render (segments (targetDir cfg) ++ names)).
Proof. apply resolveSafePath_names. Qed.

Lemma X5_plain_paths_accepted_witness :
  PathUtils.resolveSafePath Sample.cfg ".thumbs.db/index.sqlite"
  = Some "/srv/videos/.thumbs.db/index.sqlite".
Proof.
  apply (X5_plain_paths_accepted Sample.cfg [".thumbs.db"; "index.sqlite"]).
  - repeat constructor; (done || by apply (bool_decide_unpack _)).
  - done.
  - by intros s rest [= <- _].
Defined.

(** X6.  What [resolveSafePath] returns is accepted as it is: an absolute
    path inside the root is a valid argument, and it resolves to itself. *)
Theorem X6_resolveSafePath_idempotent (cfg : Config) (relPath abs : string) :
  PathUtils.resolveSafePath cfg relPath = Some abs →
  PathUtils.resolveSafePath cfg abs = Some abs.
Proof.
  intros Hsafe. pose proof Hsafe as Hsafe'. revert Hsafe.
  rewrite !resolveSafePath_closed. cbn zeta.
  set (R := resolveSegs (cwd cfg) [rawTarget cfg]).
  set (A := resolveSegs (cwd cfg) [targetDir cfg; relPath]).
  assert (HA : Forall component A) by apply resolveSegs_components.
  assert (Habs : abs = render A).
  { by apply resolveSafePath_sound in Hsafe' as [-> _]. }
  assert (HA' : resolveSegs (cwd cfg) [targetDir cfg; abs] = A).
  { rewrite Habs. unfold resolveSegs, resolveRaw.
    change (nonEmpty (render A)) with true. change (isAbsolute (render A)) with true.
    cbn iota. change (render A +:+ "/" +:+ "") with (render A +:+ String "/" "").
    rewrite segments_app_sep, segments_render by by apply components_plain.
    change (segments "") with (@nil string). rewrite app_nil_r.
    by rewrite normalizeSegs_id. }
  rewrite HA'. subst abs. done.
Qed.

Lemma X6_resolveSafePath_idempotent_witness :
  PathUtils.resolveSafePath Sample.cfg "/srv/videos/clips/a.mp4"
  = Some "/srv/videos/clips/a.mp4".
Proof.
  apply (X6_resolveSafePath_idempotent Sample.cfg "films/../clips/./a.mp4"). reflexivity.
Defined.

Lemma append_assoc (a b c : string) : (a +:+ b) +:+ c = a +:+ (b +:+ c).
Proof. induction a as [|x a IH]; [done|]. by rewrite !append_cons, IH. Qed.

Lemma append_empty_r (a : string) : a +:+ "" = a.
Proof. induction a as [|x a IH]; [done|]. by rewrite append_cons, IH. Qed.

Lemma rev_snoc (s : string) (c : ascii) :
  String.rev (s +:+ String c "") = String c (String.rev s).
Proof.
  unfold String.rev.
  assert (H : ∀ acc, String.rev_app (s +:+ String c "") acc
                     = String c (String.rev_app s acc)); [|apply H].
  induction s as [|a s IH]; intros acc; [done|].
  rewrite append_cons. cbn [String.rev_app]. apply IH.
Qed.

Lemma string_snoc (s : string) :
  s ≠ "" → ∃ s' c, s = s' +:+ String c "" ∧ c ∈ list_ascii_of_string s.
Proof.
  induction s as [|a s IH]; [done|]. intros _. destruct s as [|b s].
  - exists "", a. split; [done|]. left.
  - destruct IH as (s' & c & Hs & Hc); [done|].
    exists (String a s'), c. rewrite append_cons, <-Hs. split; [done|]. by right.
Qed.

(** A string that ends with a non-empty piece without slash does not end
    with a slash. *)
Lemma endsWith_slash_app (a b : string) :
  b ≠ "" → slashFree b → endsWith (a +:+ b) "/" = false.
Proof.
  intros Hne Hsf. destruct (string_snoc b Hne) as (b' & c & -> & Hc).
  unfold endsWith. rewrite <-append_assoc, rev_snoc. unfold startsWith. cbn.
  rewrite decide_False; [done|]. intros <-. by apply Hsf.
Qed.

Lemma join_snoc (front : list string) (l : string) :
  ∃ a, join "/" (front ++ [l]) = a +:+ l.
Proof.
  induction front as [|s front IH]; [by exists ""|].
  destruct IH as [a Ha]. destruct front as [|s' front'].
  - exists (s +:+ "/"). cbn. by rewrite append_assoc.
  - exists (s +:+ "/" +:+ a).
    change (join "/" ((s :: s' :: front') ++ [l]))
      with (s +:+ "/" +:+ join "/" ((s' :: front') ++ [l])).
    rewrite Ha. by rewrite !append_assoc.
Qed.

Lemma join_ne (names : list string) :
  Forall component names → names ≠ [] → join "/" names ≠ "".
Proof.
  intros Hnames Hne. destruct names as [|s rest]; [done|].
  inversion_clear Hnames as [|? ? [[Hs _] _] _].
  destruct s; [done|]. by destruct rest.
Qed.

(** [path.join] of a canonical directory and a relative path made of names:
    the names are appended. *)
Lemma joinAll_render (dir names : list string) :
  Forall component dir → Forall component names → names ≠ [] →
  joinAll [render dir; join "/" names] = render (dir ++ names).
Proof.
  intros Hdir Hnames Hne. unfold joinAll. cbn [List.filter].
  change (nonEmpty (render dir)) with true. cbn iota.
  assert (Hj : nonEmpty (join "/" names) = true).
  { pose proof (join_ne names Hnames Hne). by destruct (join "/" names). }
  rewrite Hj. cbn [join].
  change (render dir +:+ "/" +:+ join "/" names)
    with (render dir +:+ String "/" (join "/" names)).
  unfold normalize. change (nonEmpty (render dir +:+ String "/" (join "/" names))) with true.
  change (isAbsolute (render dir +:+ String "/" (join "/" names))) with true. cbn iota.
  rewrite segments_app_sep, segments_render, segments_join by by apply components_plain.
  rewrite normalizeSegs_id by by apply Forall_app. cbn [rev app].
  assert (Hend : endsWith (render dir +:+ String "/" (join "/" names)) "/" = false).
  { destruct (exists_last Hne) as (front & l & ->).
    destruct (join_snoc front l) as [a ->].
    change (String "/" (a +:+ l)) with (String "/" a +:+ l). rewrite <-append_assoc.
    apply Forall_app in Hnames as [_ Hl]. inversion_clear Hl as [|? ? [[Hl1 Hl2] _] _].
    by apply endsWith_slash_app. }
  rewrite Hend.
  destruct (dir ++ names) as [|s rest] eqn:Hdn.
  - by destruct dir, names.
  - unfold render. by rewrite append_empty_r.
Qed.

End MorePathFacts.

Section MoreIndexFacts.
Import VideoIndex Spec.

Lemma indexSingle_lookup (cfg : Config) (rt : Runtime) (t : Task) (st : State) (p : string) :
  db (stateOf (indexSingle cfg rt t st)) !! p
  = if decide (p = t_rel t) then
      Some (if thumbOk cfg rt t then successRow rt t
            else match db st !! t_rel t with
                 | Some old =>
                     {| path := t_rel t; folder := folder old; name := name old;
                        duration := duration old; createdAt := createdAt old;
                        thumb := None; updatedAt := Some (t_updatedAt t);
                        thumbError := Some 1 |}
                 | None =>
                     {| path := t_rel t; folder := folderOf (t_rel t);
                        name := Path.basename (t_rel t) (Path.extname (t_rel t));
                        duration := None; createdAt := None; thumb := None;
                        updatedAt := Some (t_updatedAt t); thumbError := Some 1 |}
                 end)
    else db st !! p.
Proof.
  rewrite indexSingle_eq. cbn [stateOf db].
  destruct (decide (p = t_rel t)) as [->|Hp].
  - destruct (thumbOk cfg rt t).
    + unfold upsertSuccess. rewrite (insertOnConflict_lookup _ (successRow rt t)).
      cbn [successRow path]. by destruct (db st !! t_rel t).
    + unfold upsertFailure. rewrite (insertOnConflict_lookup _ {| path := t_rel t |}).
      cbn [path]. by destruct (db st !! t_rel t).
  - destruct (thumbOk cfg rt t).
    + unfold upsertSuccess. by rewrite (insertOnConflict_lookup_ne _ (successRow rt t)).
    + unfold upsertFailure.
      by rewrite (insertOnConflict_lookup_ne _ {| path := t_rel t |}).
Qed.

Lemma run_step (cfg : Config) (rt : Runtime) (t : Task) (rest : list Task) (st : State) :
  runWithConcurrency cfg rt (t :: rest) st
  = runWithConcurrency cfg rt rest (stateOf (indexSingle cfg rt t st)).
Proof. cbn [runWithConcurrency]. by rewrite indexSingle_eq. Qed.

Lemma run_paths (cfg : Config) (rt : Runtime) (tasks : list Task) (st : State) (p : string) :
  is_Some (db (stateOf (runWithConcurrency cfg rt tasks st)) !! p)
  ↔ is_Some (db st !! p) ∨ p ∈ t_rel <$> tasks.
Proof.
  revert st. induction tasks as [|t rest IH]; intros st.
  - cbn. rewrite elem_of_nil. tauto.
  - rewrite run_step, IH, indexSingle_lookup, fmap_cons, elem_of_cons.
    destruct (decide (p = t_rel t)) as [->|Hp].
    + split; [tauto|]. intros _. left. eauto.
    + tauto.
Qed.

Lemma scan_rebuild_elem (cfg : Config) (rt : Runtime) (rebuild : bool) (st : State)
    (files : list VideoFile) (p : string) :
  p ∈ t_rel <$> scan cfg rt rebuild st files
  ↔ ∃ f, f ∈ files ∧ rel f = p ∧ is_Some (scanFile cfg rt rebuild st f).
Proof.
  unfold scan. rewrite list_elem_of_fmap. setoid_rewrite list_elem_of_omap. split.
  - intros (t & -> & f & Hf & Hs). exists f. split; [done|]. split; [|eauto].
    unfold scanFile in Hs. destruct (needsUpdate _ _ _ _); by simplify_eq.
  - intros (f & Hf & <- & [t Hs]). exists t. split; [|eauto].
    unfold scanFile in Hs. destruct (needsUpdate _ _ _ _); by simplify_eq.
Qed.

(** X7.  After a pass, whatever the flag and whatever the table before, the
    paths of the Index are exactly the relative paths of the files that were
    discovered: the rows of files that are gone are deleted, and every file
    met has a row, be it a failure row. *)
Theorem X7_index_paths_are_discovered (cfg : Config) (rt : Runtime) (rebuild : bool)
    (files : list VideoFile) (st : State) (p : string) :
  is_Some (db (stateOf (buildIndex cfg rt rebuild files st)) !! p)
  ↔ ∃ f, f ∈ files ∧ rel f = p.
Proof.
  unfold buildIndex. rewrite run_paths. cbn [db]. rewrite reconcile_lookup, scan_rebuild_elem.
  split.
  - intros [Hrow|(f & Hf & Hrel & _)]; [|eauto].
    case_bool_decide as Hseen; [|by destruct Hrow].
    unfold seen in Hseen. rewrite elem_of_list_to_set in Hseen.
    apply list_elem_of_fmap in Hseen as (f & -> & Hf). eauto.
  - intros (f & Hf & <-).
    destruct (scanFile cfg rt rebuild st f) as [t|] eqn:Hs; [right; exists f; rewrite Hs; eauto|].
    left. rewrite bool_decide_true by by apply seen_elem.
    unfold scanFile, needsUpdate in Hs.
    destruct (db st !! rel f); [eauto|]. by rewrite orb_true_r in Hs.
Qed.


Lemma getThumbRelPath_nonempty (rt : Runtime) (relPath : string) :
  getThumbRelPath rt relPath ≠ "".
Proof. done. Qed.

Lemma run_wellFormed (cfg : Config) (rt : Runtime) (tasks : list Task) (st : State) :
  (∀ t, t ∈ tasks → t_thumbRel t ≠ "") →
  tableWellFormed (db st) →
  tableWellFormed (db (stateOf (runWithConcurrency cfg rt tasks st))).
Proof.
  revert st. induction tasks as [|t rest IH]; intros st Hthumbs Hwf; [done|].
  rewrite run_step. apply IH; [intros t' Ht'; apply Hthumbs; by right|].
  intros p r. rewrite indexSingle_lookup.
  destruct (decide (p = t_rel t)) as [->|Hp]; [|apply Hwf].
  intros [= <-]. destruct (thumbOk cfg rt t).
  - split; [done|]. split; [by eexists|]. left. split; [done|]. split; [|by eexists].
    exists (t_thumbRel t). split; [done|]. apply Hthumbs. left.
  - destruct (db st !! t_rel t); (split; [done|]); (split; [by eexists|]); by right.
Qed.

(** X8.  A pass keeps the table well formed, whatever the flag and whatever
    the extractor does: every row is keyed by its path and bears a watermark,
    and it is either a success row ([thumbError = 0], a thumbnail path, a
    creation time) or a failure row ([thumbError = 1], no thumbnail path). *)
Theorem X8_pass_keeps_rows_well_formed (cfg : Config) (rt : Runtime) (rebuild : bool)
    (files : list VideoFile) (st : State) :
  tableWellFormed (db st) →
  tableWellFormed (db (stateOf (buildIndex cfg rt rebuild files st))).
Proof.
  intros Hwf. unfold buildIndex. apply run_wellFormed.
  - intros t Ht. unfold scan in Ht. apply list_elem_of_omap in Ht as (f & _ & Hs).
    unfold scanFile in Hs. destruct (needsUpdate _ _ _ _); [|done].
    injection Hs as <-. apply getThumbRelPath_nonempty.
  - cbn [db]. intros p r Hr. apply Hwf.
    rewrite reconcile_lookup in Hr. by case_bool_decide.
Qed.

Lemma X8_pass_keeps_rows_well_formed_witness :
  tableWellFormed
    (db (stateOf (buildIndex Sample.cfg Sample.rt false
                    [Sample.fileAt "a.mp4" 100; Sample.fileAt "corrupt.mp4" 100]
                    Sample.emptyState))).
Proof.
  apply (X8_pass_keeps_rows_well_formed Sample.cfg Sample.rt false
           [Sample.fileAt "a.mp4" 100; Sample.fileAt "corrupt.mp4" 100] Sample.emptyState).
  intros p r Hr. unfold Sample.emptyState in Hr. cbn [db] in Hr.
  rewrite lookup_empty in Hr. discriminate Hr.
Defined.

End MoreIndexFacts.

Section MoreThumbFacts.
Import VideoIndex Spec.
Local Open Scope Qc_scope.

Lemma written_snoc (files : gmap string N) (results : list (option Candidate))
    (r : option Candidate) :
  written files (results ++ [r])
  = match r with
    | Some c => <[c_path c := c_size c]> (written files results)
    | None => written files results
    end.
Proof. unfold written. by rewrite foldl_snoc. Qed.

(** The callbacks write their own temporary files only. *)
Lemma written_lookup_other (rt : Runtime) (inputPath outputPath : string) (times : list Qc)
    (files : gmap string N) (q : string) :
  (∀ k, (k < length times)%nat → q ≠ tmpPath outputPath k) →
  written files (imap (attempt rt inputPath outputPath) times) !! q = files !! q.
Proof.
  induction times as [|time times IH] using rev_ind; [done|]. intros Hq.
  rewrite imap_app. cbn [imap]. rewrite written_snoc, Nat.add_0_r.
  rewrite length_app in Hq. cbn [length] in Hq.
  assert (IH' : written files (imap (attempt rt inputPath outputPath) times) !! q
                = files !! q).
  { apply IH. intros k Hk. apply Hq. lia. }
  destruct (attempt rt inputPath outputPath (length times) time) as [c|] eqn:Hc; [|done].
  rewrite lookup_insert_ne; [done|].
  rewrite (attempt_path _ _ _ _ _ _ Hc). apply not_eq_sym, Hq. lia.
Qed.

(** The temporary file of a callback that succeeded is there after the five
    callbacks. *)
Lemma written_lookup_tmp (rt : Runtime) (inputPath outputPath : string) (times : list Qc)
    (files : gmap string N) (k : nat) (time : Qc) (c : Candidate) :
  times !! k = Some time →
  attempt rt inputPath outputPath k time = Some c →
  written files (imap (attempt rt inputPath outputPath) times) !! c_path c
  = Some (c_size c).
Proof.
  induction times as [|time' times IH] using rev_ind; [done|]. intros Hk Hc.
  rewrite imap_app. cbn [imap]. rewrite written_snoc, Nat.add_0_r.
  destruct (decide (k = length times)) as [->|Hne].
  - rewrite list_lookup_middle in Hk by done. injection Hk as ->.
    rewrite Hc. apply lookup_insert_eq.
  - assert (Hlt : (k < length times)%nat).
    { apply lookup_lt_Some in Hk. rewrite length_app in Hk. cbn in Hk. lia. }
    rewrite lookup_app_l in Hk by done.
    destruct (attempt rt inputPath outputPath (length times) time') as [c'|] eqn:Hc';
      [|by apply IH].
    rewrite lookup_insert_ne; [by apply IH|].
    rewrite (attempt_path _ _ _ _ _ _ Hc'), (attempt_path _ _ _ _ _ _ Hc).
    intros Heq%tmpPath_inj. lia.
Qed.

Lemma candidateTimes_length (duration : Qc) : length (candidateTimes duration) = 5%nat.
Proof. done. Qed.

Lemma promiseAll_paths_lt (rt : Runtime) (inputPath outputPath : string) (times : list Qc)
    (candidates : list Candidate) :
  promiseAll (imap (attempt rt inputPath outputPath) times) = Some candidates →
  ∀ c, c ∈ candidates → ∃ j, (j < length times)%nat ∧ c_path c = tmpPath outputPath j.
Proof.
  unfold promiseAll. intros Hall%mapM_Some_1 c Hc.
  apply list_elem_of_lookup in Hc as [k Hk].
  destruct (Forall2_lookup_r _ _ _ _ _ Hall Hk) as (r & Hr & Hrc).
  rewrite list_lookup_imap in Hr.
  destruct (times !! k) as [time|] eqn:Htime; [|done]. cbn in Hr. injection Hr as <-.
  exists k. split; [by eapply lookup_lt_Some|]. by eapply attempt_path.
Qed.

(** X9.  [makeThumbnail] writes and removes nothing but the thumbnail at its
    output path and the five temporary files next to it: every other file is
    after the call as it was before, whether the call is fulfilled or
    rejected. *)
Theorem X9_makeThumbnail_touches_own_files (cfg : Config) (rt : Runtime)
    (inputPath outputPath : string) (duration : option Qc) (files : gmap string N)
    (q : string) :
  q ≠ outputPath →
  (∀ j, (j < 5)%nat → q ≠ tmpPath outputPath j) →
  snd (makeThumbnail cfg rt inputPath outputPath duration files) !! q = files !! q.
Proof.
  intros Hout Htmp. rewrite makeThumbnail_unfold.
  destruct (negb (mkdirOk rt _)); [done|].
  destruct (negb _ || negb _).
  - destruct (ffmpeg rt "00:00:01" inputPath outputPath) as [size|]; [|done].
    cbn [snd]. by rewrite lookup_insert_ne.
  - cbn zeta.
    pose proof (written_lookup_other rt inputPath outputPath
                  (candidateTimes (default 0 duration)) files q Htmp) as Hw.
    destruct (promiseAll _) as [candidates|] eqn:Hall; [|done].
    destruct (pickBest candidates) as [best|] eqn:Hbest; [|done].
    destruct (renameOk rt (c_path best) outputPath); [|done].
    cbn [snd]. rewrite unlink_fold_lookup, bool_decide_false.
    + destruct (pickBest_spec _ _ Hbest) as (b & Hb & _).
      destruct (promiseAll_paths_lt _ _ _ _ _ Hall best) as (j & Hj & Hpath);
        [by eapply list_elem_of_lookup_2|].
      rewrite lookup_insert_ne by done. rewrite lookup_delete_ne; [done|].
      rewrite Hpath. apply not_eq_sym, Htmp. exact Hj.
    + intros (c & -> & Hc)%list_elem_of_fmap.
      apply list_elem_of_In, List.filter_In in Hc as [Hc%list_elem_of_In _].
      destruct (promiseAll_paths_lt _ _ _ _ _ Hall c Hc) as (j & Hj & Hpath).
      by apply (Htmp j).
Qed.

Lemma X9_makeThumbnail_touches_own_files_witness :
  snd (makeThumbnail Sample.cfg Sample.rt "/srv/videos/a.mp4" Sample.thumbOut
         (Some (Q2Qc (25 # 2))) {["/srv/videos/.thumbs.db/index.sqlite" := 4096%N]})
    !! "/srv/videos/.thumbs.db/index.sqlite" = Some 4096%N.
Proof.
  rewrite (X9_makeThumbnail_touches_own_files Sample.cfg Sample.rt "/srv/videos/a.mp4"
             Sample.thumbOut (Some (Q2Qc (25 # 2)))
             {["/srv/videos/.thumbs.db/index.sqlite" := 4096%N]}
             "/srv/videos/.thumbs.db/index.sqlite").
  - reflexivity.
  - discriminate.
  - intros j Hj. destruct j as [|[|[|[|[|j]]]]]; [discriminate..|lia].
Defined.

(** X10.  A rejected [makeThumbnail] removes no file and leaves the file at
    its output path, the thumbnail of an earlier run if there is one, as it
    was; in smart mode the temporary file of every extraction that succeeded
    is left behind. *)
Theorem X10_rejected_thumbnail_leaves_files (cfg : Config) (rt : Runtime)
    (inputPath outputPath : string) (duration : option Qc) (files : gmap string N) :
  fst (makeThumbnail cfg rt inputPath outputPath duration files) = false →
  snd (makeThumbnail cfg rt inputPath outputPath duration files) !! outputPath
  = files !! outputPath
  ∧ (∀ q, is_Some (files !! q) →
       is_Some (snd (makeThumbnail cfg rt inputPath outputPath duration files) !! q))
  ∧ ∀ d i c,
      duration = Some d → smartThumb cfg = true → 0 < d →
      mkdirOk rt (Path.dirname outputPath) = true →
      snd (extractAll rt inputPath outputPath d files 0 picks) !! i = Some (Some c) →
      snd (makeThumbnail cfg rt inputPath outputPath duration files) !! c_path c
      = Some (c_size c).
Proof.
  intros Hrej. split; [|split].
  - revert Hrej. rewrite makeThumbnail_unfold.
    destruct (negb (mkdirOk rt _)); [done|].
    destruct (negb _ || negb _).
    + by destruct (ffmpeg rt "00:00:01" inputPath outputPath).
    + cbn zeta.
      assert (Hw : written files (imap (attempt rt inputPath outputPath)
                                    (candidateTimes (default 0 duration))) !! outputPath
                   = files !! outputPath).
      { apply written_lookup_other. intros k _. apply not_eq_sym, tmpPath_ne_output. }
      destruct (promiseAll _) as [candidates|]; [|done].
      destruct (pickBest candidates) as [best|]; [|done].
      by destruct (renameOk rt (c_path best) outputPath).
  - intros q Hq. revert Hrej. rewrite makeThumbnail_unfold.
    destruct (negb (mkdirOk rt _)); [done|].
    destruct (negb _ || negb _).
    + by destruct (ffmpeg rt "00:00:01" inputPath outputPath).
    + cbn zeta.
      pose proof (written_preserves files
                    (imap (attempt rt inputPath outputPath)
                       (candidateTimes (default 0 duration))) q Hq) as Hw.
      destruct (promiseAll _) as [candidates|]; [|done].
      destruct (pickBest candidates) as [best|]; [|done].
      by destruct (renameOk rt (c_path best) outputPath).
  - intros d i c -> Hsmart Hd Hmk Hres. revert Hrej.
    pose proof (makeThumbnail_smart cfg rt inputPath outputPath d files Hsmart Hd Hmk) as Hmt.
    rewrite smart_results, list_lookup_imap in Hres.
    destruct (candidateTimes d !! i) as [time|] eqn:Htime; [|done].
    cbn in Hres. injection Hres as Hc.
    pose proof (written_lookup_tmp rt inputPath outputPath (candidateTimes d) files
                  i time c Htime Hc) as Hw.
    rewrite extractAll_eq in Hmt. cbn [Nat.add] in Hmt.
    unfold candidateTimes in Hw. rewrite imap_fmap in Hw.
    rewrite Hmt.
    destruct (promiseAll _) as [candidates|]; [|done].
    destruct (pickBest candidates) as [best|]; [|done].
    by destruct (renameOk rt (c_path best) outputPath).
Qed.

Lemma X10_rejected_thumbnail_leaves_files_witness :
  snd (makeThumbnail Sample.cfg Sample.rtPartial "/srv/videos/a.mp4" Sample.thumbOut
         (Some (Q2Qc (25 # 2))) {[Sample.thumbOut := 7%N]})
    !! Sample.thumbOut = Some 7%N.
Proof.
  destruct (X10_rejected_thumbnail_leaves_files Sample.cfg Sample.rtPartial
              "/srv/videos/a.mp4" Sample.thumbOut (Some (Q2Qc (25 # 2)))
              {[Sample.thumbOut := 7%N]}) as [Hout _]; [vm_compute; reflexivity|].
  rewrite Hout. reflexivity.
Defined.

End MoreThumbFacts.

Section DiscoveryFacts.
Import Js Path VideoIndex Spec.

Lemma Entry_induction (P : Entry → Prop) :
  (∀ name st, P (File name st)) →
  (∀ name, P (Dir name None)) →
  (∀ name entries, Forall P entries → P (Dir name (Some entries))) →
  ∀ e, P e.
Proof.
  intros Hfile Hnone Hdir. fix IH 1. intros [name st|name [entries|]].
  - apply Hfile.
  - apply Hdir. induction entries as [|e entries IHentries]; constructor.
    + apply IH.
    + exact IHentries.
  - apply Hnone.
Qed.

(** A name that does not begin with a dot, non-empty and without slash, is
    a path component. *)
Lemma visible_component (name : string) :
  plain name → startsWith name "." = false → component name.
Proof.
  intros Hplain Hdot. split; [done|]. split; intros ->; discriminate Hdot.
Qed.

Lemma visible_not_dotdot (name : string) :
  startsWith name "." = false → startsWith name ".." = false.
Proof.
  unfold startsWith. destruct name as [|c name]; [done|]. cbn.
  destruct (decide ("."%char = c)); [|done]. by destruct (strip_prefix "" name).
Qed.

Lemma relative_below (cfg : Config) (below : list string) :
  Forall component below →
  relative (cwd cfg) (targetDir cfg) (render (segments (targetDir cfg) ++ below))
  = join "/" below.
Proof.
  intros Hbelow. rewrite targetDir_segments.
  change (targetDir cfg) with (render (resolveSegs (cwd cfg) [rawTarget cfg])).
  assert (HR : Forall component (resolveSegs (cwd cfg) [rawTarget cfg]))
    by apply resolveSegs_components.
  rewrite relative_render by (done || by apply Forall_app).
  assert (commonPrefixLen (resolveSegs (cwd cfg) [rawTarget cfg])
            (resolveSegs (cwd cfg) [rawTarget cfg] ++ below)
          = length (resolveSegs (cwd cfg) [rawTarget cfg])) as ->.
  { apply commonPrefixLen_full. by apply prefix_app_r. }
  by rewrite Nat.sub_diag, drop_app_length.
Qed.

Lemma mapM_cons_Some {A B} (f : A → option B) (x : A) (l : list A) (k : list B) :
  mapM f (x :: l) = Some k ↔ ∃ y k', f x = Some y ∧ mapM f l = Some k' ∧ k = y :: k'.
Proof.
  cbn. destruct (f x) as [y|]; cbn; [|split; [done|by intros (? & ? & ? & _)]].
  destruct (mapM f l) as [k'|]; cbn.
  - split; [intros [= <-]; eauto|]. by intros (? & ? & [= <-] & [= <-] & ->).
  - split; [done|]. by intros (? & ? & _ & ? & _).
Qed.

Lemma walkEntry_found (cfg : Config) (e : Entry) :
  wellFormed e →
  ∀ below results,
    Forall component below →
    walkEntry cfg (render (segments (targetDir cfg) ++ below)) e = Some results →
    ∀ f, f ∈ results → found (segments (targetDir cfg) ++ below) below (entryName e) f.
Proof.
  induction e as [name st|name|name entries IH] using Entry_induction;
    intros Hwf below results Hbelow Hwalk f Hf.
  - (* a file *)
    inversion_clear Hwf as [? ? Hplain|]. cbn [walkEntry entryName] in Hwalk.
    destruct (startsWith name ".") eqn:Hdot; [by simplify_eq; apply elem_of_nil in Hf|].
    case_bool_decide; [by simplify_eq; apply elem_of_nil in Hf|].
    case_bool_decide as Hext; [|by simplify_eq; apply elem_of_nil in Hf].
    destruct st as [s|]; [|done]. cbn in Hwalk. injection Hwalk as <-.
    apply list_elem_of_singleton in Hf as ->.
    assert (Hc : component name) by by apply visible_component.
    assert (HR : Forall component (segments (targetDir cfg) ++ below)).
    { apply Forall_app. split; [|done]. rewrite targetDir_segments.
      apply resolveSegs_components. }
    exists [name]. split; [by constructor|]. split; [by constructor|]. split; [done|].
    cbn [abs rel].
    replace name with (join "/" [name]) at 1 3 by done.
    rewrite joinAll_render by (done || by constructor).
    split; [done|]. split; [|done].
    rewrite <-app_assoc. apply relative_below. apply Forall_app. split; [done|by constructor].
  - (* a directory that cannot be read *)
    cbn [walkEntry entryName] in Hwalk.
    destruct (startsWith name "."); [by simplify_eq; apply elem_of_nil in Hf|].
    case_bool_decide; [by simplify_eq; apply elem_of_nil in Hf|]. done.
  - (* a directory *)
    inversion_clear Hwf as [|? ? Hplain Hcontent].
    destruct (Hcontent entries eq_refl) as [Hwfs _].
    cbn [walkEntry entryName] in Hwalk.
    destruct (startsWith name ".") eqn:Hdot; [by simplify_eq; apply elem_of_nil in Hf|].
    case_bool_decide; [by simplify_eq; apply elem_of_nil in Hf|].
    assert (Hc : component name) by by apply visible_component.
    assert (HR : Forall component (segments (targetDir cfg) ++ below)).
    { apply Forall_app. split; [|done]. rewrite targetDir_segments.
      apply resolveSegs_components. }
    cbn [mbind option_bind] in Hwalk.
    change (joinAll [render (segments (targetDir cfg) ++ below); name])
      with (joinAll [render (segments (targetDir cfg) ++ below); join "/" [name]]) in Hwalk.
    rewrite joinAll_render in Hwalk by (done || by constructor).
    rewrite <-app_assoc in Hwalk.
    destruct (mapM _ entries) as [lists|] eqn:Hlists; [|done].
    cbn in Hwalk. injection Hwalk as <-.
    apply list_elem_of_join in Hf as (l & Hfl & Hl).
    apply mapM_Some_1 in Hlists.
    apply list_elem_of_lookup in Hl as [i Hi].
    destruct (Forall2_lookup_r _ _ _ _ _ Hlists Hi) as (e & He & Hwalk).
    rewrite Forall_lookup in IH. rewrite Forall_lookup in Hwfs.
    assert (Hbelow' : Forall component (below ++ [name])).
    { apply Forall_app. split; [done|by constructor]. }
    destruct (IH i e He (Hwfs i e He) (below ++ [name]) l Hbelow' Hwalk f Hfl)
      as (names & H1 & H2 & H3 & H4 & H5 & H6).
    exists (name :: names). split; [by constructor|]. split; [by constructor|].
    split; [done|]. rewrite <-!app_assoc in H4. rewrite <-!app_assoc in H5.
    rewrite <-!app_assoc.
    split; [exact H4|]. split; [exact H5|].
    destruct names as [|n names]; [done|]. exact H6.
Qed.

Lemma found_rel_inj (dir below : list string) (n n' : string) (f g : VideoFile) :
  Forall component below →
  found dir below n f → found dir below n' g → rel f = rel g → n = n'.
Proof.
  intros Hbelow (names & H1 & _ & H3 & _ & H5 & _) (names' & H1' & _ & H3' & _ & H5' & _) Hrel.
  rewrite H5, H5' in Hrel. apply (f_equal segments) in Hrel.
  rewrite !segments_join in Hrel
    by (apply components_plain, Forall_app; by split).
  apply app_inv_head in Hrel. subst names'. congruence.
Qed.

Lemma walk_lists_NoDup (dir below : list string) (entries : list Entry)
    (lists : list (list VideoFile)) :
  Forall component below →
  NoDup (entryName <$> entries) →
  Forall2 (λ e l, NoDup (rel <$> l) ∧ ∀ f, f ∈ l → found dir below (entryName e) f)
    entries lists →
  NoDup (rel <$> mjoin lists).
Proof.
  intros Hbelow Hnames Hall.
  induction Hall as [|e l entries lists [Hl Hfound] Hrest IH]; [constructor|].
  rewrite fmap_cons in Hnames. apply NoDup_cons in Hnames as [Hfresh Hnames].
  cbn [mjoin list_join]. rewrite fmap_app. apply NoDup_app.
  split; [done|]. split; [|by apply IH].
  intros p (f & -> & Hf)%list_elem_of_fmap (g & Hrel & Hg)%list_elem_of_fmap.
  apply list_elem_of_join in Hg as (l' & Hgl & Hl').
  apply list_elem_of_lookup in Hl' as [i Hi].
  destruct (Forall2_lookup_r _ _ _ _ _ Hrest Hi) as (e' & He' & _ & Hfound').
  apply Hfresh. rewrite (found_rel_inj dir below (entryName e) (entryName e') f g);
    [|done|by apply Hfound|by apply Hfound'|done].
  apply list_elem_of_fmap_2. by eapply list_elem_of_lookup_2.
Qed.

Lemma walkEntry_NoDup (cfg : Config) (e : Entry) :
  wellFormed e →
  ∀ below results,
    Forall component below →
    walkEntry cfg (render (segments (targetDir cfg) ++ below)) e = Some results →
    NoDup (rel <$> results).
Proof.
  induction e as [name st|name|name entries IH] using Entry_induction;
    intros Hwf below results Hbelow Hwalk.
  - cbn [walkEntry entryName] in Hwalk.
    destruct (startsWith name "."); [simplify_eq; constructor|].
    case_bool_decide; [simplify_eq; constructor|].
    case_bool_decide; [|simplify_eq; constructor].
    destruct st as [s|]; [|done]. cbn in Hwalk. injection Hwalk as <-.
    apply NoDup_singleton.
  - cbn [walkEntry entryName] in Hwalk.
    destruct (startsWith name "."); [simplify_eq; constructor|].
    case_bool_decide; [simplify_eq; constructor|]. done.
  - inversion_clear Hwf as [|? ? Hplain Hcontent].
    destruct (Hcontent entries eq_refl) as [Hwfs Hnames].
    cbn [walkEntry entryName] in Hwalk.
    destruct (startsWith name ".") eqn:Hdot; [simplify_eq; constructor|].
    case_bool_decide; [simplify_eq; constructor|].
    assert (Hc : component name) by by apply visible_component.
    assert (HR : Forall component (segments (targetDir cfg) ++ below)).
    { apply Forall_app. split; [|done]. rewrite targetDir_segments.
      apply resolveSegs_components. }
    cbn [mbind option_bind] in Hwalk.
    change (joinAll [render (segments (targetDir cfg) ++ below); name])
      with (joinAll [render (segments (targetDir cfg) ++ below); join "/" [name]]) in Hwalk.
    rewrite joinAll_render in Hwalk by (done || by constructor).
    rewrite <-app_assoc in Hwalk.
    destruct (mapM _ entries) as [lists|] eqn:Hlists; [|done].
    cbn in Hwalk. injection Hwalk as <-.
    apply mapM_Some_1 in Hlists.
    assert (Hbelow' : Forall component (below ++ [name])).
    { apply Forall_app. split; [done|by constructor]. }
    apply (walk_lists_NoDup (segments (targetDir cfg) ++ below ++ [name]) (below ++ [name])
             entries lists Hbelow' Hnames).
    apply Forall2_same_length_lookup. split; [by eapply Forall2_length|].
    intros i e l He Hl.
    pose proof (Forall2_lookup_lr _ _ _ _ _ _ Hlists He Hl) as Hwalk.
    rewrite Forall_lookup in IH. rewrite Forall_lookup in Hwfs. split.
    + by apply (IH i e He (Hwfs i e He) (below ++ [name]) l).
    + intros f Hf. by apply (walkEntry_found cfg e (Hwfs i e He) (below ++ [name]) l).
Qed.

(** What [findVideos] returns for the entries of the root: the files found
    from each entry. *)
Lemma findVideos_lists (cfg : Config) (entries : list Entry) (files : list VideoFile) :
  Forall wellFormed entries →
  findVideos cfg (targetDir cfg) (Some entries) = Some files →
  ∃ lists, files = mjoin lists
    ∧ Forall2 (λ e l, NoDup (rel <$> l)
                      ∧ ∀ f, f ∈ l → found (segments (targetDir cfg)) [] (entryName e) f)
        entries lists.
Proof.
  intros Hwfs Hfind. unfold findVideos, walk in Hfind. cbn [mbind option_bind] in Hfind.
  destruct (mapM _ entries) as [lists|] eqn:Hlists; [|done].
  cbn in Hfind. injection Hfind as <-. exists lists. split; [done|].
  apply mapM_Some_1 in Hlists.
  assert (Hroot : targetDir cfg = render (segments (targetDir cfg) ++ [])).
  { rewrite app_nil_r, targetDir_segments. done. }
  apply Forall2_same_length_lookup. split; [by eapply Forall2_length|].
  intros i e l He Hl.
  pose proof (Forall2_lookup_lr _ _ _ _ _ _ Hlists He Hl) as Hwalk.
  rewrite Hroot in Hwalk. rewrite Forall_lookup in Hwfs. split.
  + by apply (walkEntry_NoDup cfg e (Hwfs i e He) [] l).
  + intros f Hf.
    pose proof (walkEntry_found cfg e (Hwfs i e He) [] l (Forall_nil_2 _) Hwalk f Hf) as Hfound.
    by rewrite app_nil_r in Hfound.
Qed.

Lemma findVideos_found (cfg : Config) (entries : list Entry) (files : list VideoFile)
    (f : VideoFile) :
  Forall wellFormed entries →
  findVideos cfg (targetDir cfg) (Some entries) = Some files →
  f ∈ files →
  ∃ first, found (segments (targetDir cfg)) [] first f.
Proof.
  intros Hwfs Hfind Hf.
  destruct (findVideos_lists cfg entries files Hwfs Hfind) as (lists & -> & Hall).
  apply list_elem_of_join in Hf as (l & Hfl & Hl).
  apply list_elem_of_lookup in Hl as [i Hi].
  destruct (Forall2_lookup_r _ _ _ _ _ Hall Hi) as (e & _ & _ & Hfound). eauto.
Qed.




Lemma Sample_tree_wellFormed : Forall wellFormed Sample.tree.
Proof.
  assert (Hplain : ∀ s, bool_decide (s ≠ "" ∧ "/"%char ∉ list_ascii_of_string s) = true
                        → plain s).
  { intros s Hs. by apply bool_decide_eq_true in Hs. }
  unfold Sample.tree. cbv zeta.
  repeat first
    [ apply Forall_nil_2
    | apply Forall_cons_2
    | apply wellFormed_file
    | apply wellFormed_dir
    | by apply Hplain
    | intros entries Hentries; discriminate Hentries
    | intros entries Hentries; simplify_eq; split;
      [|apply (bool_decide_unpack _); vm_compute; exact I] ].
Qed.



(** X12.  Every discovered file can be fetched: its relative path, the key
    of its row and the [path] parameter of the routes, is accepted by
    [resolveSafePath] and resolves to the absolute path under which the file
    was found, so the video route answers a request for it with that file. *)
Theorem X12_discovered_files_are_served (cfg : Config) (entries : list Entry)
    (files : list VideoFile) (f : VideoFile) :
  Forall wellFormed entries →
  findVideos cfg (targetDir cfg) (Some entries) = Some files →
  f ∈ files →
  PathUtils.resolveSafePath cfg (rel f) = Some (abs f)
  ∧ ∀ statSize req,
      VideoRoute.pathParam req = Some (rel f) →
      VideoRoute.GET cfg statSize req
      = size ← statSize (abs f);
        VideoRoute.respond (abs f) (roundInt (Z.of_N size)) (VideoRoute.rangeHeader req).
Proof.
  intros Hwfs Hfind Hf.
  destruct (findVideos_found cfg entries files f Hwfs Hfind Hf)
    as (first & names & H1 & H2 & H3 & H4 & H5 & _).
  cbn [app] in H5.
  assert (Hne : names ≠ []) by by destruct names.
  assert (Hsafe : PathUtils.resolveSafePath cfg (rel f) = Some (abs f)).
  { rewrite H5, H4. apply resolveSafePath_names; [done..|].
    intros s rest ->. inversion_clear H2. by apply visible_not_dotdot. }
  split; [done|]. intros statSize req Hreq. unfold VideoRoute.GET. rewrite Hreq.
  pose proof (join_ne names H1 Hne) as Hrel. rewrite <-H5 in Hrel.
  destruct (rel f) as [|c r] eqn:Hr; [done|]. rewrite Hsafe.
  by destruct (statSize (abs f)).
Qed.

Lemma X12_discovered_files_are_served_witness :
  PathUtils.resolveSafePath Sample.cfg "films/x/c.webm"
  = Some "/srv/videos/films/x/c.webm".
Proof.
  destruct (X12_discovered_files_are_served Sample.cfg Sample.tree
           [Sample.fileAt "a.mp4" 100; Sample.fileAt "films/B.MKV" 100;
            Sample.fileAt "films/x/c.webm" 100]
           (Sample.fileAt "films/x/c.webm" 100)) as [Hsafe _].
  - apply Sample_tree_wellFormed.
  - vm_compute. reflexivity.
  - right. right. left.
  - exact Hsafe.
Defined.

(** X13.  No file is discovered twice: when no two entries of a directory
    bear the same name, the relative paths of the discovered files are
    pairwise distinct, so that each file gets a row of its own in the Index,
    keyed by that path. *)
Theorem X13_discovered_paths_distinct (cfg : Config) (entries : list Entry)
    (files : list VideoFile) :
  Forall wellFormed entries →
  NoDup (entryName <$> entries) →
  findVideos cfg (targetDir cfg) (Some entries) = Some files →
  NoDup (rel <$> files).
Proof.
  intros Hwfs Hnames Hfind.
  destruct (findVideos_lists cfg entries files Hwfs Hfind) as (lists & -> & Hall).
  by apply (walk_lists_NoDup (segments (targetDir cfg)) [] entries lists).
Qed.

Lemma X13_discovered_paths_distinct_witness :
  NoDup ["a.mp4"; "films/B.MKV"; "films/x/c.webm"].
Proof.
  apply (X13_discovered_paths_distinct Sample.cfg Sample.tree
           [Sample.fileAt "a.mp4" 100; Sample.fileAt "films/B.MKV" 100;
            Sample.fileAt "films/x/c.webm" 100]).
  - apply Sample_tree_wellFormed.
  - apply (bool_decide_unpack _). vm_compute. exact I.
  - vm_compute. reflexivity.
Defined.

End DiscoveryFacts.

Section ThumbRouteFacts.
Import Js Path VideoIndex Spec.

Lemma join_app (a b : list string) :
  a ≠ [] → b ≠ [] → join "/" (a ++ b) = join "/" a +:+ "/" +:+ join "/" b.
Proof.
  intros Ha Hb. induction a as [|s a IH]; [done|]. destruct a as [|s' a'].
  - cbn [app]. destruct b; [done|]. done.
  - change (join "/" ((s :: s' :: a') ++ b)) with (s +:+ "/" +:+ join "/" ((s' :: a') ++ b)).
    rewrite IH by done. cbn [join]. by rewrite !append_assoc.
Qed.

Lemma render_app (dir names : list string) :
  dir ≠ [] → names ≠ [] → render dir +:+ "/" +:+ join "/" names = render (dir ++ names).
Proof.
  intros Hdir Hnames. unfold render. rewrite join_app by done. by rewrite !append_assoc.
Qed.

Lemma slashFree_app (a b : string) : slashFree a → slashFree b → slashFree (a +:+ b).
Proof.
  unfold slashFree. induction a as [|c a IH]; [done|]. rewrite append_cons. cbn.
  rewrite !not_elem_of_cons. intros [Hc Ha] Hb. split; [done|]. by apply IH.
Qed.

Lemma slashFree_substring (n m : nat) (s : string) :
  slashFree s → slashFree (String.substring n m s).
Proof.
  unfold slashFree. revert n m. induction s as [|c s IH]; intros n m Hs.
  - destruct n, m; cbn; apply not_elem_of_nil.
  - cbn in Hs. rewrite not_elem_of_cons in Hs. destruct Hs as [Hc Hs].
    destruct n as [|n]; cbn.
    + destruct m as [|m]; cbn; [apply not_elem_of_nil|].
      rewrite not_elem_of_cons. split; [done|]. by apply IH.
    + by apply IH.
Qed.

(** The name of a thumbnail is a path component. *)
Lemma thumbName_component (hex : string) :
  slashFree hex → component (String.substring 0 16 hex +:+ ".jpg").
Proof.
  intros Hhex. set (h := String.substring 0 16 hex).
  assert (Hlen : (4 ≤ String.length (h +:+ ".jpg"))%nat).
  { rewrite length_append. cbn. lia. }
  split; [split|split].
  - intros Heq. rewrite Heq in Hlen. cbn in Hlen. lia.
  - apply slashFree_app; [by apply slashFree_substring|].
    unfold slashFree. cbn. rewrite !not_elem_of_cons. repeat split; try done.
    apply not_elem_of_nil.
  - intros Heq. rewrite Heq in Hlen. cbn in Hlen. lia.
  - intros Heq. rewrite Heq in Hlen. cbn in Hlen. lia.
Qed.

(** [path.join(thumbsDir, thumb)] for the thumbnail path of a success row is
    the path the thumbnail was written to. *)
Lemma joinAll_thumb (cfg : Config) (rt : Runtime) (relPath : string) :
  slashFree (sha1hex rt relPath) →
  targetDir cfg ≠ "/" →
  joinAll [thumbsDir cfg; getThumbRelPath rt relPath] = thumbAbsOf cfg rt relPath.
Proof.
  intros Hhex Hroot. unfold thumbAbsOf, thumbsDir, getThumbRelPath, join2.
  set (h := String.substring 0 16 (sha1hex rt relPath) +:+ ".jpg").
  assert (Hh : component h) by by apply thumbName_component.
  set (R := resolveSegs (cwd cfg) [rawTarget cfg]).
  assert (HR : Forall component R) by apply resolveSegs_components.
  assert (HRne : R ≠ []).
  { intros HR0. apply Hroot. unfold targetDir, resolve. fold R. by rewrite HR0. }
  change (targetDir cfg) with (render R).
  assert (Hcache : component ".thumbs.db").
  { split; [split; [done|]|done]. by apply (bool_decide_unpack _). }
  assert (Hthumbs : component "thumbs").
  { split; [split; [done|]|done]. by apply (bool_decide_unpack _). }
  change (render R +:+ "/" +:+ ".thumbs.db") with (render R +:+ "/" +:+ join "/" [".thumbs.db"]).
  rewrite (render_app R [".thumbs.db"]) by done.
  change ("thumbs" +:+ "/" +:+ h) with (join "/" ["thumbs"; h]).
  rewrite joinAll_render;
    [|apply Forall_app; split; [done|by constructor]
     |apply Forall_cons_2; [done|apply Forall_cons_2; [done|apply Forall_nil_2]]
     |done].
  rewrite render_app; [done| |done]. by destruct R.
Qed.


Lemma allDigits_slashFree (s : string) : allDigits s → slashFree s.
Proof.
  unfold allDigits, slashFree. induction 1 as [|c l [d Hd] _ IH]; [apply not_elem_of_nil|].
  rewrite not_elem_of_cons. split; [|done]. intros <-. discriminate Hd.
Qed.

Lemma Sample_digest_slashFree (s : string) : slashFree (Sample.digest s).
Proof.
  unfold Sample.digest. apply slashFree_substring, slashFree_app.
  - apply allDigits_slashFree, (allDigits_pretty (N.of_nat (String.length s))).
  - by apply (bool_decide_unpack _).
Qed.

Lemma Sample_digest_length (s : string) : String.length (Sample.digest s) = 40%nat.
Proof.
  unfold Sample.digest. rewrite substring_length, length_append. apply Nat.min_l.
  change (String.length "0000000000000000000000000000000000000000") with 40%nat. lia.
Qed.

(** X14.  The thumbnail route after a first pass.  From an empty Index, once
    a pass has run over the discovered files, a request for the thumbnail of
    one of them is answered 200 with the thumbnail that the pass wrote, its
    size as [Content-Length], when the thumbnail of that file could be made,
    and 404 when it could not: the failure row has no thumbnail path.  (The
    digests are 40 characters without slash, the root is not [/], the
    relative paths are distinct, and the path is one the resolver accepts.) *)
Theorem X14_thumb_route_after_first_pass (cfg : Config) (rt : Runtime)
    (files : list VideoFile) (cache : gmap string N) (f : VideoFile)
    (req : VideoRoute.Request) :
  (∀ s, String.length (sha1hex rt s) = 40%nat) →
  (∀ s, slashFree (sha1hex rt s)) →
  targetDir cfg ≠ "/" →
  NoDup (rel <$> files) →
  f ∈ files →
  rel f ≠ "" →
  is_Some (PathUtils.resolveSafePath cfg (rel f)) →
  VideoRoute.pathParam req = Some (rel f) →
  let st1 := stateOf (buildIndex cfg rt false files {| db := ∅; fs := cache |}) in
  let answer := ThumbRoute.GET cfg (Some (db st1)) (λ p, fs st1 !! p) req in
  if thumbOk cfg rt (taskOf rt f) then
    ∃ size,
      fs st1 !! thumbAbsOf cfg rt (rel f) = Some size
      ∧ answer
        = Some {| VideoRoute.status := 200;
                  VideoRoute.headers :=
                    [("Content-Type", "image/jpeg");
                     ("Content-Length", toString (roundInt (Z.of_N size)));
                     ("Cache-Control", "public, max-age=3600")];
                  VideoRoute.body :=
                    VideoRoute.BodyStream (thumbAbsOf cfg rt (rel f)) None |}
  else
    answer
    = Some {| VideoRoute.status := 404; VideoRoute.headers := [];
              VideoRoute.body := VideoRoute.BodyText "Not found" |}.
Proof.
  intros Hlen Hhex Hroot Hnd Hf Hne [absPath Hsafe] Hreq st1 answer.
  destruct (buildIndex_spec cfg rt files {| db := ∅; fs := cache |} Hlen Hnd)
    as (st1' & Hbuild & _ & Hrows).
  assert (st1 = st1') as Hst by (subst st1; by rewrite Hbuild). clearbody st1. subst st1'.
  destruct (Hrows f Hf) as (r & Hr & _ & Hthumb & Hrow).
  rewrite bool_decide_true in Hrow.
  2:{ apply marked_rule. left. cbn [db]. apply lookup_empty. }
  assert (Hget : answer
                 = match getThumbPath cfg (db st1) (rel f) with
                   | None =>
                       Some {| VideoRoute.status := 404; VideoRoute.headers := [];
                               VideoRoute.body := VideoRoute.BodyText "Not found" |}
                   | Some thumbPath =>
                       size ← fs st1 !! thumbPath;
                       Some {| VideoRoute.status := 200;
                               VideoRoute.headers :=
                                 [("Content-Type", "image/jpeg");
                                  ("Content-Length", toString (roundInt (Z.of_N size)));
                                  ("Cache-Control", "public, max-age=3600")];
                               VideoRoute.body := VideoRoute.BodyStream thumbPath None |}
                   end).
  { subst answer. unfold ThumbRoute.GET. rewrite Hreq.
    destruct (rel f) as [|c rest]; [done|]. by rewrite Hsafe. }
  unfold rowWritten in Hrow. unfold getThumbPath in Hget. rewrite Hr in Hget.
  destruct (thumbOk cfg rt (taskOf rt f)).
  - subst r. cbn [successRow thumb thumbError taskOf t_thumbRel truthyInt] in Hget.
    change (truthyStr (Some (getThumbRelPath rt (rel f)))) with true in Hget.
    cbn [negb orb default from_option id] in Hget.
    rewrite (bool_decide_true (0 = 0)%Z) in Hget by done. cbn [negb] in Hget.
    rewrite joinAll_thumb in Hget by done.
    destruct Hthumb as [Hbad|[size Hsize]]; [done|].
    exists size. split; [exact Hsize|].
    unfold thumbAbsOf in Hget |- *. by rewrite Hsize in Hget.
  - destruct Hrow as [Herr _]. rewrite Herr in Hget. cbn [truthyInt] in Hget.
    rewrite (bool_decide_false (1 = 0)%Z), orb_true_r in Hget by done. exact Hget.
Qed.

Lemma X14_thumb_route_after_first_pass_witness :
  let st1 := stateOf (buildIndex Sample.cfg Sample.rt false
                        [Sample.fileAt "a.mp4" 100; Sample.fileAt "corrupt.mp4" 100]
                        Sample.emptyState) in
  ∃ size resp,
    fs st1 !! thumbAbsOf Sample.cfg Sample.rt "a.mp4" = Some size
    ∧ ThumbRoute.GET Sample.cfg (Some (db st1)) (λ p, fs st1 !! p)
        {| VideoRoute.pathParam := Some "a.mp4"; VideoRoute.rangeHeader := None |}
      = Some resp
    ∧ VideoRoute.status resp = 200.
Proof.
  intros st1.
  pose proof (X14_thumb_route_after_first_pass Sample.cfg Sample.rt
                [Sample.fileAt "a.mp4" 100; Sample.fileAt "corrupt.mp4" 100] ∅
                (Sample.fileAt "a.mp4" 100)
                {| VideoRoute.pathParam := Some "a.mp4"; VideoRoute.rangeHeader := None |}
                Sample_digest_length Sample_digest_slashFree) as H.
  destruct H as (size & Hsize & Hget).
  - discriminate.
  - apply (bool_decide_unpack _). vm_compute. exact I.
  - left.
  - discriminate.
  - by eexists.
  - reflexivity.
  - exists size. eexists. split; [exact Hsize|]. split; [exact Hget|]. reflexivity.
Defined.

End ThumbRouteFacts.

Section DurationFacts.
Import Js VideoIndex Spec.
Local Open Scope Qc_scope.

Lemma pretty_N_first (n : N) : ∃ c r, pretty n = String c r ∧ c ≠ "-"%char.
Proof.
  pose proof (allDigits_pretty n) as Hd. pose proof (truthy_pretty n) as Ht.
  destruct (pretty n) as [|c r]; [done|]. exists c, r. split; [done|].
  inversion_clear Hd as [|? ? Hc _]. by apply digit_not_dash.
Qed.

Lemma pretty_Z_cases (z : Z) :
  (0 ≤ z)%Z ∧ pretty z = pretty (Z.to_N z)
  ∨ (z < 0)%Z ∧ pretty z = "-" +:+ pretty (Z.to_N (- z)).
Proof. destruct z; [left|left|right]; (split; [lia|done]). Qed.

(** A numeral followed by anything is not the placeholder. *)
Lemma pretty_Z_not_placeholder (z : Z) (rest : string) : pretty z +:+ rest ≠ "--:--".
Proof.
  destruct (pretty_Z_cases z) as [[_ ->]|[_ ->]].
  - destruct (pretty_N_first (Z.to_N z)) as (c & r & -> & Hc).
    rewrite append_cons. intros [= Heq _]. done.
  - destruct (pretty_N_first (Z.to_N (- z))) as (c & r & -> & Hc).
    change ("-" +:+ String c r) with (String "-" (String c r)).
    rewrite !append_cons. intros [= Heq _]. done.
Qed.

(** X15.  The placeholder [--:--] stands for an unknown duration and for
    nothing else: [formatDuration] gives it for [null], for [NaN], for an
    infinity and for 0, and for no other duration.  For the duration of a
    row it is shown exactly when the scan of the indexer takes the duration
    for missing. *)
Theorem X15_placeholder_iff_unknown (seconds : option JsNum) :
  (formatDuration seconds = "--:--"
   ↔ seconds = None ∨ seconds = Some NaN ∨ seconds = Some Infinite
     ∨ seconds = Some (Finite 0))
  ∧ ∀ d : option Qc,
      seconds = Finite <$> d → (formatDuration seconds = "--:--" ↔ truthy d = false).
Proof.
  assert (Hiff : formatDuration seconds = "--:--"
                 ↔ seconds = None ∨ seconds = Some NaN ∨ seconds = Some Infinite
                   ∨ seconds = Some (Finite 0)).
  { destruct seconds as [[q| |]|]; cbn [formatDuration]; [|by split; auto..].
    case_bool_decide as Hq.
    - subst q. split; auto.
    - split.
      + cbn zeta. case_bool_decide; intros Heq; by apply pretty_Z_not_placeholder in Heq.
      + intros [|[|[|[= ->]]]]; done. }
  split; [exact Hiff|]. intros d ->. rewrite Hiff, truthy_false.
  destruct d as [q|]; cbn; split.
  - intros [|[|[|[= ->]]]]; try done. by right.
  - intros [|[= ->]]; [done|]. by right; right; right.
  - by left.
  - by left.
Qed.

Lemma pad_twoDigits (n : Z) :
  (0 ≤ n < 60)%Z → padStart 2 "0" (pretty n) = twoDigits n.
Proof.
  intros Hn.
  assert (H : Forall (λ k : nat, padStart 2 "0" (pretty (Z.of_nat k))
                                 = twoDigits (Z.of_nat k)) (seq 0 60)).
  { apply (bool_decide_unpack _). vm_compute. exact I. }
  rewrite Forall_forall in H. specialize (H (Z.to_nat n)).
  rewrite Z2Nat.id in H by lia. apply H. apply elem_of_seq. lia.
Qed.

Lemma round_nearest (q : Qc) : nearest (round q) q.
Proof. apply floor_nearest. Qed.

Lemma round_nonneg (q : Qc) : 0 ≤ q → (0 ≤ round q)%Z.
Proof.
  intros Hq. destruct (round_nearest q) as [_ Hhi].
  destruct (decide (0 ≤ round q)%Z) as [|Hneg]; [done|]. exfalso.
  assert (Hle : (round q ≤ -1)%Z) by lia.
  assert (Hq' : Q2Qc (inject_Z (round q)) + Q2Qc (1 # 2) ≤ Q2Qc (inject_Z (-1)) + Q2Qc (1 # 2)).
  { apply Qcplus_le_mono_r. unfold Qcle. rewrite !this_Q2Qc.
    rewrite <-Zle_Qle. exact Hle. }
  assert (Hlt : q < 0).
  { eapply Qclt_le_trans; [exact Hhi|]. eapply Qcle_trans; [exact Hq'|]. done. }
  by apply Qclt_not_le in Hlt.
Qed.

(** X16.  The text of a known duration.  For a positive duration (below
    2^53 seconds) [formatDuration] shows the duration rounded to the nearest
    second, the larger one on a tie, split into hours, minutes and seconds:
    [h:mm:ss] from one hour on and [m:ss] below, the minutes after the hours
    and the seconds always written with two digits. *)
Theorem X16_duration_text (q : Qc) :
  0 < q → q < Q2Qc (inject_Z (2 ^ 53)) →
  ∃ h m s : Z,
    nearest (3600 * h + 60 * m + s) q
    ∧ (0 ≤ h)%Z ∧ (0 ≤ m < 60)%Z ∧ (0 ≤ s < 60)%Z
    ∧ formatDuration (Some (Finite q))
      = if bool_decide (0 < h)%Z
        then pretty h +:+ ":" +:+ twoDigits m +:+ ":" +:+ twoDigits s
        else pretty m +:+ ":" +:+ twoDigits s.
Proof.
  intros Hpos _. set (total := round q).
  assert (Htotal : (0 ≤ total)%Z) by by apply round_nonneg, Qclt_le_weak.
  exists (total / 3600)%Z, (total `mod` 3600 / 60)%Z, (total `mod` 60)%Z.
  assert (Hm : (0 ≤ total `mod` 3600 / 60 < 60)%Z).
  { pose proof (Z.mod_pos_bound total 3600 ltac:(lia)).
    split; [apply Z.div_pos; lia|apply Z.div_lt_upper_bound; lia]. }
  assert (Hs : (0 ≤ total `mod` 60 < 60)%Z) by (apply Z.mod_pos_bound; lia).
  assert (Hsum : (3600 * (total / 3600) + 60 * (total `mod` 3600 / 60) + total `mod` 60
                  = total)%Z).
  { pose proof (Z.div_mod total 3600 ltac:(lia)) as H1.
    pose proof (Z.div_mod (total `mod` 3600) 60 ltac:(lia)) as H2.
    assert (H3 : ((total `mod` 3600) `mod` 60 = total `mod` 60)%Z).
    { apply Z.mod_mod_divide. exists 60%Z. reflexivity. }
    lia. }
  split; [rewrite Hsum; apply round_nearest|].
  split; [apply Z.div_pos; lia|]. split; [done|]. split; [done|].
  cbn [formatDuration]. rewrite bool_decide_false.
  2:{ intros ->. by apply (Qclt_not_eq _ _ Hpos). }
  cbn zeta. fold total.
  rewrite !Z.rem_mod_nonneg by lia.
  by rewrite !pad_twoDigits by done.
Qed.

Lemma X16_duration_text_witness :
  formatDuration (Some (Finite (Q2Qc (7451 # 2)))) = "1:02:06".
Proof.
  destruct (X16_duration_text (Q2Qc (7451 # 2))) as (h & m & s & Hnear & Hh & Hm & Hs & ->);
    [reflexivity|reflexivity|].
  destruct Hnear as [Hlo Hhi].
  unfold Qcle, Qcminus, Qcplus, Qcopp in Hlo. rewrite !this_Q2Qc in Hlo.
  unfold Qclt, Qcplus in Hhi. rewrite !this_Q2Qc in Hhi.
  unfold Qle in Hlo. unfold Qlt in Hhi. cbn in Hlo, Hhi.
  assert (Hh1 : h = 1%Z) by lia. subst h.
  assert (Hm2 : m = 2%Z) by lia. subst m.
  assert (Hs6 : s = 6%Z) by lia. subst s.
  reflexivity.
Defined.

End DurationFacts.

Section MoreDbFacts.
Import Db.






End MoreDbFacts.

Section FolderFacts.
Import Js Path VideoIndex Spec.




End FolderFacts.
